(** * open-next-cdk: the manifest-to-topology compiler, embedded in Rocq

    The development follows the TypeScript sources of the repository:

    - [src/manifest-reader.ts]: [validateManifest], [readManifest],
      [getSplitFunctionOrigins], [hasInitializationFunction],
      [normalizeBundlePath], [getAssetCopyEntries], [getS3OriginPath],
      the bundle paths;
    - [src/utils.ts]: [resourceName], [originKeyToSuffix];
    - [src/constants.ts], [src/types.ts];
    - [src/components/]: [TagCacheTable], [Revalidation], [TagCacheSeeder],
      [ServerFunction], [ImageOptimization], [DistributionComponent],
      [AssetDeployment], [Alarms], [Dns], [Warmer], and of [Waf] and
      [CloudFrontLogs] what they hand to the distribution;
    - [src/index.ts]: the constructor of [OpenNextCdk].

    Modelling conventions.

    - A JavaScript exception is the [Throw] case of the [Result] monad.
    - What the Node runtime supplies ([path.join], [JSON.parse], the file
      system, [Date.now]) is gathered in the record [NodeRuntime] and passed
      explicitly.
    - A plain JavaScript object used as a dictionary
      ([Record<string, T>]) and a [Map<string, T>] are [gmap string T].
      Assigning through [obj[key] = v] goes through [Record_set], which
      keeps what JavaScript does for the key [__proto__].
    - A CDK resource is the record of the properties the source passes to
      its constructor; the grants and the environment variables added
      afterwards are fields of the same record.  CDK tokens (bucket name,
      queue URL, function URL ...) are constructors of [EnvValue] and
      [FunctionUrl].  A function the caller hands in as [existingFunction]
      is a [LambdaFunction] as well, which is what the casts
      [as lambda.Function] of the sources assume.
    - Of the checks the CDK libraries perform while the constructor runs,
      the one on construct ids is modelled, in [build], for the scopes the
      constructor creates: a scope refuses a second child with an id it
      already holds.  [construct] is the graph the steps 1 to 7 build, with
      that check set apart.  The other checks of the libraries (asset
      directories, name syntax, the scopes of resources the caller hands
      in ...) are not part of the repository and are not modelled.
    - The build proper is modelled on manifests of the declared type
      [OpenNextManifest], which is what the cast [as OpenNextManifest] in
      [readManifest] asserts.
    - The asset deployment, the alarms, the DNS records and the warmer,
      which the constructor creates last and which feed nothing back into
      the resources created before, are modelled apart, in
      [construct_late]; [build] runs the steps 1 to 11 together.  The stack
      outputs, the managed rule groups of the web ACL and the log forwarder
      of [CloudFrontLogs] are left out. *)

From Stdlib Require Import ZArith QArith Strings.String Strings.Ascii List Bool.
From Stdlib Require Import Numbers.DecimalString.
From Stdlib Require Numbers.DecimalZ.
From stdpp Require Import base option list gmap strings fin_maps.

Open Scope string_scope.

(** ** Exceptions *)

Inductive Exception : Type :=
| Error (message : string)
| TypeError (message : string).

Inductive Result (A : Type) : Type :=
| Return (a : A)
| Throw (e : Exception).
Arguments Return {A} a.
Arguments Throw {A} e.

#[global] Instance Result_ret : MRet Result := fun A a => Return a.
#[global] Instance Result_bind : MBind Result := fun A B k r =>
  match r with
  | Return a => k a
  | Throw e => Throw e
  end.

#[global] Instance Result_fmap : FMap Result := fun A B f r =>
  match r with
  | Return a => Return (f a)
  | Throw e => Throw e
  end.

Definition succeeded {A : Type} (r : Result A) : bool :=
  match r with Return _ => true | Throw _ => false end.

Definition message_of (e : Exception) : string :=
  match e with Error m => m | TypeError m => m end.

(** The double-quote character, for the messages that quote a field. *)
Definition dq : string := String (ascii_of_nat 34) EmptyString.

(** ** String helpers (JavaScript [String.prototype] methods) *)

(** [s.slice(n)] *)
Fixpoint String_slice (n : nat) (s : string) : string :=
  match n, s with
  | O, _ => s
  | S n', EmptyString => EmptyString
  | S n', String _ rest => String_slice n' rest
  end.

(** [s.startsWith(p)] *)
Definition String_startsWith (s p : string) : bool := String.prefix p s.

(** [s.includes(p)] *)
Fixpoint String_includes (s p : string) : bool :=
  String.prefix p s ||
  match s with
  | EmptyString => false
  | String _ rest => String_includes rest p
  end.

(** ** JSON values, as [JSON.parse] returns them *)

#[local] Set Warnings "-register-all".

Inductive JSON : Type :=
| JNull
| JBool (b : bool)
| JNumber (x : Q)
| JString (s : string)
| JArray (items : list JSON)
| JObject (fields : list (string * JSON)).

(** The Node runtime the construct runs in.  The two file system calls
    are independent of each other: [fs.readFileSync] may throw on a path
    for which [fs.existsSync] has answered true (a directory, a file the
    process may not read, a file removed in between). *)
Record NodeRuntime : Type := {
  path_join : list string -> string;
  JSON_parse : string -> string + JSON;   (* [inl]: the SyntaxError message *)
  fs_existsSync : string -> bool;
  fs_readFileSync : string -> Result string;   (* [readFileSync(p, 'utf-8')] *)
  Date_now : Z
}.

(** ** The manifest, as [src/types.ts] declares it *)

Record OpenNextCopyEntry : Type := {
  copy_from : string;
  copy_to : string;
  copy_cached : bool;
  copy_versionedSubDir : option string
}.

Record OpenNextOrigin : Type := {
  origin_type : string;
  origin_copy : option (list OpenNextCopyEntry);
  origin_handler : option string;
  origin_bundle : option string;
  origin_streaming : option bool;
  origin_wrapper : option string;
  origin_converter : option string;
  origin_originPath : option string
}.

Record OpenNextBehavior : Type := {
  pattern : string;
  origin : option string;
  edgeFunction : option string
}.

Record OpenNextBaseFunction : Type := {
  base_handler : string;
  base_bundle : string
}.

Record OpenNextEdgeFunction : Type := {
  edge_handler : string;
  edge_bundle : string;
  edge_pathResolver : option string
}.

Record OpenNextRoute : Type := {
  route_regex : string;
  route_origin : string
}.

Record OpenNextAdditionalProps : Type := {
  ap_disableTagCache : option bool;
  ap_disableIncrementalCache : option bool;
  ap_initializationFunction : option OpenNextBaseFunction;
  ap_warmer : option OpenNextBaseFunction;
  ap_revalidationFunction : option OpenNextBaseFunction
}.

Record OpenNextManifest : Type := {
  version : option string;
  routes : option (list OpenNextRoute);
  origins : gmap string OpenNextOrigin;
  behaviors : list OpenNextBehavior;
  additionalProps : option OpenNextAdditionalProps;
  edgeFunctions : option (gmap string OpenNextEdgeFunction)
}.

(** [Object.keys(o)] of a dictionary.  (JavaScript enumerates in insertion
    order.  Below the order decides one thing only: which of several
    repeated construct ids the error of [build] names.) *)
Definition Object_keys {V : Type} (o : gmap string V) : list string :=
  (map_to_list o).*1.

Module ManifestReader.

(** Own property lookup in a parsed object: the first binding of the key. *)
Fixpoint assoc (k : string) (fields : list (string * JSON)) : option JSON :=
  match fields with
  | [] => None
  | (k', v) :: rest => if String.eqb k k' then Some v else assoc k rest
  end.

(** [v.k] for the property names the reader uses ([origins], [behaviors],
    [default]); [None] is [undefined].  Reading a property of [null] or
    of [undefined] throws.  Arrays, strings, numbers and booleans have
    none of these properties. *)
Definition js_get (v : option JSON) (k : string) : Result (option JSON) :=
  match v with
  | None =>
      Throw (TypeError
        ("Cannot read properties of undefined (reading '" ++ k ++ "')"))
  | Some JNull =>
      Throw (TypeError
        ("Cannot read properties of null (reading '" ++ k ++ "')"))
  | Some (JObject fields) => Return (assoc k fields)
  | Some _ => Return None
  end.

(** JavaScript truthiness; [None] is [undefined]. *)
Definition truthy (v : option JSON) : bool :=
  match v with
  | None => false
  | Some JNull => false
  | Some (JBool b) => b
  | Some (JNumber x) => negb (Qeq_bool x 0)
  | Some (JString s) => negb (String.eqb s EmptyString)
  | Some (JArray _) => true
  | Some (JObject _) => true
  end.

(** [typeof v === 'object'] *)
Definition typeof_object (v : option JSON) : bool :=
  match v with
  | Some JNull | Some (JArray _) | Some (JObject _) => true
  | _ => false
  end.

Definition Array_isArray (v : option JSON) : bool :=
  match v with
  | Some (JArray _) => true
  | _ => false
  end.

Definition invalid_origins_message (manifestPath : string) : string :=
  "Invalid OpenNext manifest at " ++ manifestPath ++
  ": missing or invalid " ++ dq ++ "origins" ++ dq ++ " field.".

Definition invalid_behaviors_message (manifestPath : string) : string :=
  "Invalid OpenNext manifest at " ++ manifestPath ++
  ": missing or invalid " ++ dq ++ "behaviors" ++ dq ++ " field.".

Definition missing_default_message (manifestPath : string) : string :=
  "Invalid OpenNext manifest at " ++ manifestPath ++
  ": missing " ++ dq ++ "default" ++ dq ++ " origin.".

Definition validateManifest (manifest : JSON) (manifestPath : string)
  : Result unit :=
  origins ← js_get (Some manifest) "origins";
  if negb (truthy origins) || negb (typeof_object origins) then
    Throw (Error (invalid_origins_message manifestPath))
  else
    behaviors ← js_get (Some manifest) "behaviors";
    if negb (truthy behaviors) || negb (Array_isArray behaviors) then
      Throw (Error (invalid_behaviors_message manifestPath))
    else
      defaultOrigin ← js_get origins "default";
      if negb (truthy defaultOrigin) then
        Throw (Error (missing_default_message manifestPath))
      else Return tt.

Definition not_found_message (manifestPath : string) : string :=
  ("OpenNext manifest not found at " ++ manifestPath ++ ". ") ++
  "Run `npx @opennextjs/aws build` before `cdk synth`.".

Definition parse_failure_message (manifestPath err : string) : string :=
  "Failed to parse OpenNext manifest at " ++ manifestPath ++ ": " ++ err.

(** The read is outside the [try]: an exception of [fs.readFileSync]
    leaves [readManifest] as it is. *)
Definition readManifest (rt : NodeRuntime) (openNextPath : string)
  : Result JSON :=
  let manifestPath := path_join rt [openNextPath; "open-next.output.json"] in
  if negb (fs_existsSync rt manifestPath) then
    Throw (Error (not_found_message manifestPath))
  else
    raw ← fs_readFileSync rt manifestPath;
    match JSON_parse rt raw with
    | inl err => Throw (Error (parse_failure_message manifestPath err))
    | inr manifest =>
        validateManifest manifest manifestPath;;
        Return manifest
    end.

(** The cast [JSON.parse(raw) as OpenNextManifest]: the typed view of a
    parsed manifest, defined when the value has the declared shape.  An
    optional field holding [null] reads as absent, which is how every use
    in the sources treats it ([?.], [??], [!= null], truthiness). *)
Section Cast.

Definition as_string (v : JSON) : option string :=
  match v with JString s => Some s | _ => None end.

Definition as_bool (v : JSON) : option bool :=
  match v with JBool b => Some b | _ => None end.

Definition as_fields (v : JSON) : option (list (string * JSON)) :=
  match v with JObject fields => Some fields | _ => None end.

Definition as_items (v : JSON) : option (list JSON) :=
  match v with JArray items => Some items | _ => None end.

Definition required {A : Type} (f : JSON -> option A)
  (k : string) (fields : list (string * JSON)) : option A :=
  assoc k fields ≫= f.

Definition optional {A : Type} (f : JSON -> option A)
  (k : string) (fields : list (string * JSON)) : option (option A) :=
  match assoc k fields with
  | None | Some JNull => Some None
  | Some v => Some <$> f v
  end.

Definition as_array {A : Type} (f : JSON -> option A) (v : JSON)
  : option (list A) :=
  as_items v ≫= mapM f.

Definition as_record {A : Type} (f : JSON -> option A) (v : JSON)
  : option (gmap string A) :=
  fields ← as_fields v;
  entries ← mapM (fun kv => pair kv.1 <$> f kv.2) fields;
  Some (list_to_map entries).

Definition as_copy_entry (v : JSON) : option OpenNextCopyEntry :=
  fields ← as_fields v;
  from ← required as_string "from" fields;
  to ← required as_string "to" fields;
  cached ← required as_bool "cached" fields;
  versionedSubDir ← optional as_string "versionedSubDir" fields;
  Some {| copy_from := from; copy_to := to; copy_cached := cached;
          copy_versionedSubDir := versionedSubDir |}.

Definition as_origin (v : JSON) : option OpenNextOrigin :=
  fields ← as_fields v;
  type ← required as_string "type" fields;
  copy ← optional (as_array as_copy_entry) "copy" fields;
  handler ← optional as_string "handler" fields;
  bundle ← optional as_string "bundle" fields;
  streaming ← optional as_bool "streaming" fields;
  wrapper ← optional as_string "wrapper" fields;
  converter ← optional as_string "converter" fields;
  originPath ← optional as_string "originPath" fields;
  Some {| origin_type := type; origin_copy := copy;
          origin_handler := handler; origin_bundle := bundle;
          origin_streaming := streaming; origin_wrapper := wrapper;
          origin_converter := converter; origin_originPath := originPath |}.

Definition as_behavior (v : JSON) : option OpenNextBehavior :=
  fields ← as_fields v;
  p ← required as_string "pattern" fields;
  o ← optional as_string "origin" fields;
  e ← optional as_string "edgeFunction" fields;
  Some {| pattern := p; origin := o; edgeFunction := e |}.

Definition as_base_function (v : JSON) : option OpenNextBaseFunction :=
  fields ← as_fields v;
  handler ← required as_string "handler" fields;
  bundle ← required as_string "bundle" fields;
  Some {| base_handler := handler; base_bundle := bundle |}.

Definition as_edge_function (v : JSON) : option OpenNextEdgeFunction :=
  fields ← as_fields v;
  handler ← required as_string "handler" fields;
  bundle ← required as_string "bundle" fields;
  pathResolver ← optional as_string "pathResolver" fields;
  Some {| edge_handler := handler; edge_bundle := bundle;
          edge_pathResolver := pathResolver |}.

Definition as_route (v : JSON) : option OpenNextRoute :=
  fields ← as_fields v;
  regex ← required as_string "regex" fields;
  o ← required as_string "origin" fields;
  Some {| route_regex := regex; route_origin := o |}.

Definition as_additional_props (v : JSON) : option OpenNextAdditionalProps :=
  fields ← as_fields v;
  tag ← optional as_bool "disableTagCache" fields;
  incremental ← optional as_bool "disableIncrementalCache" fields;
  init ← optional as_base_function "initializationFunction" fields;
  warm ← optional as_base_function "warmer" fields;
  reval ← optional as_base_function "revalidationFunction" fields;
  Some {| ap_disableTagCache := tag; ap_disableIncrementalCache := incremental;
          ap_initializationFunction := init; ap_warmer := warm;
          ap_revalidationFunction := reval |}.

Definition as_OpenNextManifest (v : JSON) : option OpenNextManifest :=
  fields ← as_fields v;
  ver ← optional as_string "version" fields;
  rts ← optional (as_array as_route) "routes" fields;
  os ← required (as_record as_origin) "origins" fields;
  bs ← required (as_array as_behavior) "behaviors" fields;
  ap ← optional as_additional_props "additionalProps" fields;
  efs ← optional (as_record as_edge_function) "edgeFunctions" fields;
  Some {| version := ver; routes := rts; origins := os; behaviors := bs;
          additionalProps := ap; edgeFunctions := efs |}.

End Cast.

(** Origin keys that are NOT 'default', 's3', or 'imageOptimizer'. *)
Definition reserved : list string := ["default"; "s3"; "imageOptimizer"].

Definition getSplitFunctionOrigins (manifest : OpenNextManifest)
  : list string :=
  filter (fun key => key ∉ reserved) (Object_keys (origins manifest)).

Definition getFunctionBundlePath (rt : NodeRuntime)
  (openNextPath originKey : string) : string :=
  path_join rt [openNextPath; "server-functions"; originKey].

Definition getImageOptBundlePath (rt : NodeRuntime) (openNextPath : string)
  : string :=
  path_join rt [openNextPath; "image-optimization-function"].

Definition getRevalidationBundlePath (rt : NodeRuntime)
  (openNextPath : string) : string :=
  path_join rt [openNextPath; "revalidation-function"].

Definition getWarmerBundlePath (rt : NodeRuntime) (openNextPath : string)
  : string :=
  path_join rt [openNextPath; "warmer-function"].

Definition getDynamoDbProviderBundlePath (rt : NodeRuntime)
  (openNextPath : string) : string :=
  path_join rt [openNextPath; "dynamodb-provider"].

(** [manifest.additionalProps?.initializationFunction != null] *)
Definition hasInitializationFunction (manifest : OpenNextManifest) : bool :=
  match additionalProps manifest with
  | Some ap => bool_decide (is_Some (ap_initializationFunction ap))
  | None => false
  end.

(** Strip the [.open-next/] prefix from a bundle/copy path if present. *)
Definition normalizeBundlePath (p : string) : string :=
  if String_startsWith p ".open-next/" then
    String_slice (String.length ".open-next/") p
  else p.

Definition getAssetCopyEntries (manifest : OpenNextManifest)
  : list OpenNextCopyEntry :=
  match origins manifest !! "s3" with
  | None => []
  | Some s3Origin =>
      match origin_copy s3Origin with
      | None => []
      | Some copy =>
          (fun entry =>
             {| copy_from := normalizeBundlePath (copy_from entry);
                copy_to := copy_to entry;
                copy_cached := copy_cached entry;
                copy_versionedSubDir := copy_versionedSubDir entry |})
          <$> copy
      end
  end.

(** [manifest.origins.s3?.originPath] *)
Definition getS3OriginPath (manifest : OpenNextManifest) : option string :=
  origins manifest !! "s3" ≫= origin_originPath.

End ManifestReader.

(** ** [src/constants.ts] *)

Definition DEFAULT_PREFIX : string := "opennext".
Definition DEFAULT_SERVER_MEMORY_SIZE : Z := 1024.
Definition DEFAULT_SERVER_TIMEOUT_SECONDS : Z := 30.
Definition DEFAULT_IMAGE_OPTIMIZATION_MEMORY_SIZE : Z := 512.
Definition DEFAULT_IMAGE_OPTIMIZATION_TIMEOUT_SECONDS : Z := 30.
Definition DEFAULT_REVALIDATION_MEMORY_SIZE : Z := 256.
Definition DEFAULT_REVALIDATION_TIMEOUT_SECONDS : Z := 30.
Definition DEFAULT_LAMBDA_ARCHITECTURE : string := "arm64".
Definition DEFAULT_LAMBDA_RUNTIME : string := "nodejs20.x".
Definition DEFAULT_LOG_RETENTION_DAYS : Z := 30.
Definition DEFAULT_SEEDER_MEMORY_SIZE : Z := 256.
Definition DEFAULT_SEEDER_TIMEOUT_SECONDS : Z := 300.
Definition DEFAULT_CACHE_DEFAULT_TTL_SECONDS : Z := 0.
Definition DEFAULT_CACHE_MAX_TTL_SECONDS : Z := 31536000.
Definition DEFAULT_CACHE_MIN_TTL_SECONDS : Z := 0.
Definition DEFAULT_HSTS_MAX_AGE : Z := 63072000.
Definition NEXT_CACHE_KEY_HEADERS : list string :=
  ["rsc"; "next-router-prefetch"; "next-router-state-tree";
   "x-prerender-revalidate"; "next-url"].
Definition DEFAULT_PRICE_CLASS : string := "PriceClass_100".
Definition DEFAULT_WARMER_MEMORY_SIZE : Z := 256.
Definition DEFAULT_WARMER_TIMEOUT_SECONDS : Z := 30.
Definition DEFAULT_WARMER_SCHEDULE : string := "rate(5 minutes)".
Definition DEFAULT_WARMER_CONCURRENCY : Z := 1.
(** Cache-Control header for versioned assets, and for the others. *)
Definition VERSIONED_CACHE_CONTROL : string :=
  "public, max-age=31536000, immutable".
Definition STATIC_CACHE_CONTROL : string :=
  "public, max-age=0, s-maxage=31536000, must-revalidate".

(** ** [src/utils.ts] *)

Module Utils.

Definition resourceName (prefix : option string) (suffix : string) : string :=
  default DEFAULT_PREFIX prefix ++ "-" ++ suffix.

Definition is_alnum (c : ascii) : bool :=
  let n := nat_of_ascii c in
  ((48 <=? n) && (n <=? 57) || (65 <=? n) && (n <=? 90)
   || (97 <=? n) && (n <=? 122))%nat.

Definition is_dash (c : ascii) : bool := Ascii.eqb c "-"%char.

(** [.replace(/[^a-zA-Z0-9]/g, '-')] *)
Fixpoint replace_non_alnum (s : string) : string :=
  match s with
  | EmptyString => EmptyString
  | String c rest =>
      String (if is_alnum c then c else "-"%char) (replace_non_alnum rest)
  end.

(** [.replace(/-+/g, '-')] *)
Fixpoint collapse_dashes (s : string) : string :=
  match s with
  | EmptyString => EmptyString
  | String c rest =>
      let r := collapse_dashes rest in
      if is_dash c && String_startsWith r "-" then r else String c r
  end.

Fixpoint strip_trailing_dash (s : string) : string :=
  match s with
  | EmptyString => EmptyString
  | String c EmptyString => if is_dash c then EmptyString else s
  | String c rest => String c (strip_trailing_dash rest)
  end.

(** [.replace(/^-|-$/g, '')] *)
Definition strip_edge_dashes (s : string) : string :=
  match s with
  | String c rest =>
      if is_dash c then strip_trailing_dash rest else strip_trailing_dash s
  | EmptyString => EmptyString
  end.

(** 'api/trpc' becomes 'api-trpc'. *)
Definition originKeyToSuffix (originKey : string) : string :=
  strip_edge_dashes (collapse_dashes (replace_non_alnum originKey)).

End Utils.

(** ** CDK resources *)

Inductive RemovalPolicy : Type :=
| RemovalPolicy_DESTROY | RemovalPolicy_RETAIN | RemovalPolicy_SNAPSHOT
| RemovalPolicy_RETAIN_ON_UPDATE_OR_DELETE.

(** [s3.IBucket]: a bucket the caller hands in, or one of the buckets the
    construct creates. *)
Inductive IBucket : Type :=
| CallerBucket (handle : string)
| AssetsBucket (removalPolicy : RemovalPolicy) (autoDeleteObjects : bool)
| LogBucket.

Inductive BillingMode : Type := PROVISIONED | PAY_PER_REQUEST.

(** [dynamodb.ITable] *)
Inductive ITable : Type :=
| CallerTable (handle : string)
| Table (tableName : string) (billingMode : BillingMode).

Inductive IKey : Type :=
| CallerKey (handle : string)
| QueueKey (description : string).

Record Queue : Type := {
  queueName : string;
  fifo : bool;
  contentBasedDeduplication : bool;
  encryptionMasterKey : IKey;
  retentionPeriodDays : Z;
  visibilityTimeoutSeconds : option Z;
  deadLetterQueue : option (string * Z)   (* DLQ name, maxReceiveCount *)
}.

Inductive Runtime : Type := NODEJS_22_X | NODEJS_20_X.
Inductive Architecture : Type := X86_64 | ARM_64.
Inductive Tracing : Type := Tracing_DISABLED | Tracing_ACTIVE.
Inductive InvokeMode : Type := RESPONSE_STREAM | BUFFERED.

(** [lambda.FunctionUrl]: [url_owner] is the id of the construct whose
    function the URL belongs to. *)
Record FunctionUrl : Type := {
  url_owner : string;
  invokeMode : option InvokeMode
}.

(** The value of an environment variable: a literal or a CDK token. *)
Inductive EnvValue : Type :=
| EnvString (s : string)
| EnvBucketName (b : IBucket)
| EnvRegion                                   (* cdk.Stack.of(this).region *)
| EnvQueueUrl (q : Queue)
| EnvTableName (t : ITable)
| EnvLazyJSON (originMap : gmap string FunctionUrl).
  (* cdk.Lazy.string({ produce: () => JSON.stringify(originMap) }), where
     originMap[key] = { url: fnUrl.url } *)

Inductive Grant : Type :=
| grantReadWrite (b : IBucket)
| grantRead (b : IBucket)
| grantSendMessages (q : Queue)
| grantReadWriteData (t : ITable).

Inductive EventSource : Type :=
| SqsEventSource (q : Queue) (batchSize : Z) (reportBatchItemFailures : bool).

(** [lambda.Function], with the grants made to it and the event sources
    added to it. *)
Record LambdaFunction : Type := {
  functionName : string;
  runtime : Runtime;
  architecture : Architecture;
  handler : string;
  code : string;
  memorySize : Z;
  timeout : Z;
  environment : gmap string EnvValue;
  logRetention : Z;
  tracing : Tracing;
  reservedConcurrentExecutions : option Z;
  vpc : option string;
  vpcSubnets : option string;
  grants : list Grant;
  eventSources : list EventSource
}.

(** [fn.addEnvironment(key, value)] *)
Definition addEnvironment (key : string) (value : EnvValue)
  (fn : LambdaFunction) : LambdaFunction :=
  {| functionName := functionName fn; runtime := runtime fn;
     architecture := architecture fn; handler := handler fn;
     code := code fn; memorySize := memorySize fn; timeout := timeout fn;
     environment := <[key := value]> (environment fn);
     logRetention := logRetention fn; tracing := tracing fn;
     reservedConcurrentExecutions := reservedConcurrentExecutions fn;
     vpc := vpc fn; vpcSubnets := vpcSubnets fn;
     grants := grants fn; eventSources := eventSources fn |}.

(** [resource.grantX(fn)] *)
Definition addGrant (g : Grant) (fn : LambdaFunction) : LambdaFunction :=
  {| functionName := functionName fn; runtime := runtime fn;
     architecture := architecture fn; handler := handler fn;
     code := code fn; memorySize := memorySize fn; timeout := timeout fn;
     environment := environment fn;
     logRetention := logRetention fn; tracing := tracing fn;
     reservedConcurrentExecutions := reservedConcurrentExecutions fn;
     vpc := vpc fn; vpcSubnets := vpcSubnets fn;
     grants := grants fn ++ [g]; eventSources := eventSources fn |}.

(** [fn.addEventSource(source)] *)
Definition addEventSource (e : EventSource) (fn : LambdaFunction)
  : LambdaFunction :=
  {| functionName := functionName fn; runtime := runtime fn;
     architecture := architecture fn; handler := handler fn;
     code := code fn; memorySize := memorySize fn; timeout := timeout fn;
     environment := environment fn;
     logRetention := logRetention fn; tracing := tracing fn;
     reservedConcurrentExecutions := reservedConcurrentExecutions fn;
     vpc := vpc fn; vpcSubnets := vpcSubnets fn;
     grants := grants fn; eventSources := eventSources fn ++ [e] |}.

(** ** Caller-supplied options ([src/types.ts]) *)

Record LambdaFunctionOptions : Type := {
  opt_memorySize : option Z;
  opt_timeout : option Z;
  opt_architecture : option string;
  opt_environment : option (gmap string string);
  opt_runtime : option string;
  opt_existingFunction : option LambdaFunction;
  opt_logRetention : option Z;
  opt_enableTracing : option bool;
  opt_reservedConcurrentExecutions : option Z;
  opt_vpc : option string;
  opt_vpcSubnets : option string
}.

Record TagCacheOptions : Type := {
  disabled : option bool;
  existingTable : option ITable;
  billingMode : option string
}.

Record RevalidationQueueOptions : Type := {
  encryptionKey : option IKey;
  revalidation_functionOptions : option LambdaFunctionOptions
}.

Record InitializationFunctionOptions : Type := {
  initialization_functionOptions : option LambdaFunctionOptions
}.

Record WafOptions : Type := {
  waf_enabled : option bool;
  existingWebAclArn : option string;
  additionalRules : option (list string)
}.

Record CloudFrontLogsOptions : Type := {
  logs_enabled : option bool;
  logBucket : option IBucket
}.

Record CachePolicyOptions : Type := {
  defaultTtl : option Z;
  maxTtl : option Z;
  minTtl : option Z;
  additionalHeaders : option (list string)
}.

(** ** CloudFront *)

Inductive AllowedMethods : Type :=
| ALLOW_GET_HEAD | ALLOW_GET_HEAD_OPTIONS | ALLOW_ALL.

Inductive CachedMethods : Type := CACHE_GET_HEAD | CACHE_GET_HEAD_OPTIONS.

Inductive ViewerProtocolPolicy : Type :=
| REDIRECT_TO_HTTPS | VIEWER_HTTPS_ONLY | VIEWER_ALLOW_ALL.

Inductive PriceClass : Type :=
| PRICE_CLASS_100 | PRICE_CLASS_200 | PRICE_CLASS_ALL.

(** An origin of the distribution.  [HttpOrigin fnUrl] stands for
    [new HttpOrigin(Fn.select(2, Fn.split('/', fnUrl.url)),
    { protocolPolicy: HTTPS_ONLY })]. *)
Inductive IOrigin : Type :=
| S3BucketOrigin (b : IBucket) (originPath : option string)
| HttpOrigin (fnUrl : FunctionUrl)
| CallerOrigin (handle : string).

Inductive CachePolicy : Type :=
| CACHING_OPTIMIZED
| ServerCachePolicy (cachePolicyName : string) (defaultTtl maxTtl minTtl : Z)
    (headers : list string)
| CallerCachePolicy (handle : string).

Inductive OriginRequestPolicy : Type :=
| ServerOriginRequestPolicy (originRequestPolicyName : string)
    (headers : list string)
| CallerOriginRequestPolicy (handle : string).

Record StrictTransportSecurity : Type := {
  accessControlMaxAge : Z;
  includeSubdomains : bool;
  preload : bool
}.

Inductive ResponseHeadersPolicy : Type :=
| ResponseHeadersPolicy_new (responseHeadersPolicyName : string)
    (strictTransportSecurity : option StrictTransportSecurity)
    (accessControlAllowOrigins : option (list string))
| CallerResponseHeadersPolicy (handle : string).

Definition HOST_HEADER_REWRITE_CODE : string :=
"
function handler(event) {
  var request = event.request;
  request.headers['x-forwarded-host'] = request.headers.host;
  return request;
}
".

(** [cloudfront.Function], runtime JS_2_0 *)
Record CloudFrontFunction : Type := {
  cf_functionName : string;
  cf_code : string
}.

Inductive FunctionEventType : Type := VIEWER_REQUEST | VIEWER_RESPONSE.

Record FunctionAssociation : Type := {
  association_function : CloudFrontFunction;
  eventType : FunctionEventType
}.

Record BehaviorOptions : Type := {
  behavior_origin : IOrigin;
  viewerProtocolPolicy : option ViewerProtocolPolicy;
  allowedMethods : option AllowedMethods;
  cachedMethods : option CachedMethods;
  cachePolicy : option CachePolicy;
  originRequestPolicy : option OriginRequestPolicy;
  responseHeadersPolicy : option ResponseHeadersPolicy;
  compress : option bool;
  functionAssociations : list FunctionAssociation
}.

Record DistributionOptions : Type := {
  opt_domainNames : option (list string);
  opt_certificate : option string;
  opt_priceClass : option string;
  cors : option bool;
  corsAllowOrigins : option (list string);
  hsts : option bool;
  hstsMaxAge : option Z;
  cachePolicyOptions : option CachePolicyOptions;
  opt_additionalBehaviors : option (gmap string BehaviorOptions);
  geoRestrictionLocations : option (list string)
}.

Inductive WebAcl : Type :=
| ExistingWebAcl (arn : string)
| WebACL (name : string) (additionalRules : list string).

(** [cloudfront.Distribution] *)
Record Distribution : Type := {
  comment : string;
  defaultBehavior : BehaviorOptions;
  additionalBehaviors : gmap string BehaviorOptions;
  domainNames : option (list string);
  certificate : option string;
  priceClass : PriceClass;
  webAclId : option WebAcl;
  geoRestriction : option (list string);
  enableLogging : option IBucket      (* logBucket, logFilePrefix 'cloudfront/' *)
}.

(** ** JavaScript objects used as dictionaries *)

(** [obj[key] = value] on a plain object.  For the key [__proto__] the
    assignment reaches the setter of [Object.prototype] and creates no own
    property. *)
Definition Record_set {V : Type} (key : string) (value : V)
  (obj : gmap string V) : gmap string V :=
  if decide (key = "__proto__") then obj else <[key := value]> obj.

(** [Object.assign(target, source)]: every own property of [source] is
    assigned to [target]. *)
Definition Object_assign {V : Type} (target source : gmap string V)
  : gmap string V :=
  delete "__proto__" source ∪ target.

(** [for (const x of xs) body] with the state threaded through. *)
Definition for_of {A S : Type} (xs : list A) (body : S -> A -> S) (init : S)
  : S :=
  fold_left body xs init.

(** [map.forEach((value, key) => body)] *)
Definition Map_forEach {V S : Type} (m : gmap string V)
  (body : S -> string -> V -> S) (init : S) : S :=
  fold_left (fun acc kv => body acc kv.1 kv.2) (map_to_list m) init.

(** The environment a caller passes in [functionOptions.environment]. *)
Definition spread_environment (fnOpts : option LambdaFunctionOptions)
  : gmap string EnvValue :=
  match fnOpts ≫= opt_environment with
  | Some env => EnvString <$> env
  | None => ∅
  end.

Definition getArchitecture (a : option string) : Architecture :=
  if String.eqb (default DEFAULT_LAMBDA_ARCHITECTURE a) "x86_64"
  then X86_64 else ARM_64.

Definition getRuntime (r : option string) : Runtime :=
  if String.eqb (default DEFAULT_LAMBDA_RUNTIME r) "nodejs22.x"
  then NODEJS_22_X else NODEJS_20_X.

Definition getTracing (fnOpts : option LambdaFunctionOptions) : Tracing :=
  match fnOpts ≫= opt_enableTracing with
  | Some false => Tracing_DISABLED
  | _ => Tracing_ACTIVE
  end.

(** ** [src/components/tag-cache-table.ts] *)

Definition TagCacheTable (prefix : string) (options : option TagCacheOptions)
  : option ITable :=
  if bool_decide (options ≫= disabled = Some true) then None
  else
    match options ≫= existingTable with
    | Some t => Some t
    | None =>
        let mode :=
          if bool_decide (options ≫= billingMode = Some "PROVISIONED")
          then PROVISIONED else PAY_PER_REQUEST in
        Some (Table (Utils.resourceName (Some prefix) "tag-cache") mode)
    end.

(** ** [src/components/waf.ts] (the web ACL it exposes) *)

Definition Waf (prefix : string) (options : option WafOptions)
  : option WebAcl :=
  if bool_decide (options ≫= waf_enabled = Some false) then None
  else
    match options ≫= existingWebAclArn with
    | Some arn =>
        if String.eqb arn EmptyString
        then Some (WebACL (Utils.resourceName (Some prefix) "waf")
                     (default [] (options ≫= additionalRules)))
        else Some (ExistingWebAcl arn)
    | None =>
        Some (WebACL (Utils.resourceName (Some prefix) "waf")
                (default [] (options ≫= additionalRules)))
    end.

(** ** [src/components/cloudfront-logs.ts] (the log bucket it exposes) *)

Definition CloudFrontLogs (options : option CloudFrontLogsOptions)
  : option IBucket :=
  if bool_decide (options ≫= logs_enabled = Some true) then
    match options ≫= logBucket with
    | Some b => Some b
    | None => Some LogBucket
    end
  else None.

(** ** [src/components/server-function.ts] *)

Record ServerFunctionProps : Type := {
  sf_prefix : string;
  sf_openNextPath : string;
  sf_originKey : string;
  sf_origin : OpenNextOrigin;
  sf_bucket : IBucket;
  sf_revalidationQueue : Queue;
  sf_tagCacheTable : option ITable;
  sf_functionOptions : option LambdaFunctionOptions;
  sf_disableIncrementalCache : bool
}.

Record ServerFunction : Type := {
  server_function : LambdaFunction;
  server_functionUrl : FunctionUrl
}.

Definition streaming_invokeMode (o : OpenNextOrigin) : InvokeMode :=
  if bool_decide (origin_streaming o = Some true)
  then RESPONSE_STREAM else BUFFERED.

Definition ServerFunction_new (rt : NodeRuntime) (id : string)
  (props : ServerFunctionProps) : ServerFunction :=
  let fnOpts := sf_functionOptions props in
  let functionUrl :=
    {| url_owner := id;
       invokeMode := Some (streaming_invokeMode (sf_origin props)) |} in
  match fnOpts ≫= opt_existingFunction with
  | Some existing =>
      (* Still create Function URL for existing functions *)
      {| server_function := existing; server_functionUrl := functionUrl |}
  | None =>
      let suffix :=
        if String.eqb (sf_originKey props) "default"
        then "server" else sf_originKey props in
      let bundlePath :=
        if String.eqb (sf_originKey props) "default"
        then ManifestReader.getFunctionBundlePath rt
               (sf_openNextPath props) "default"
        else ManifestReader.getFunctionBundlePath rt
               (sf_openNextPath props) (sf_originKey props) in
      let bucketVars : gmap string EnvValue :=
        if sf_disableIncrementalCache props then ∅
        else
          {[ "CACHE_BUCKET_NAME" := EnvBucketName (sf_bucket props);
             "CACHE_BUCKET_KEY_PREFIX" := EnvString "_cache";
             "CACHE_BUCKET_REGION" := EnvRegion ]} in
      let queueVars : gmap string EnvValue :=
        {[ "REVALIDATION_QUEUE_URL" :=
             EnvQueueUrl (sf_revalidationQueue props);
           "REVALIDATION_QUEUE_REGION" := EnvRegion ]} in
      let tableVars : gmap string EnvValue :=
        match sf_tagCacheTable props with
        | Some t => {[ "CACHE_DYNAMO_TABLE" := EnvTableName t ]}
        | None => ∅
        end in
      let fn :=
        {| functionName :=
             Utils.resourceName (Some (sf_prefix props)) suffix;
           runtime := getRuntime (fnOpts ≫= opt_runtime);
           architecture := getArchitecture (fnOpts ≫= opt_architecture);
           handler := "index.handler";
           code := bundlePath;
           memorySize :=
             default DEFAULT_SERVER_MEMORY_SIZE (fnOpts ≫= opt_memorySize);
           timeout :=
             default DEFAULT_SERVER_TIMEOUT_SECONDS (fnOpts ≫= opt_timeout);
           (* later spreads win: the leftmost operand of [∪] *)
           environment :=
             spread_environment fnOpts ∪ tableVars ∪ queueVars ∪ bucketVars;
           logRetention :=
             default DEFAULT_LOG_RETENTION_DAYS (fnOpts ≫= opt_logRetention);
           tracing := getTracing fnOpts;
           reservedConcurrentExecutions :=
             fnOpts ≫= opt_reservedConcurrentExecutions;
           vpc := fnOpts ≫= opt_vpc;
           vpcSubnets := fnOpts ≫= opt_vpcSubnets;
           grants := [];
           eventSources := [] |} in
      (* Grant permissions *)
      let fn :=
        if sf_disableIncrementalCache props then fn
        else addGrant (grantReadWrite (sf_bucket props)) fn in
      let fn := addGrant (grantSendMessages (sf_revalidationQueue props)) fn in
      let fn :=
        match sf_tagCacheTable props with
        | Some t => addGrant (grantReadWriteData t) fn
        | None => fn
        end in
      {| server_function := fn; server_functionUrl := functionUrl |}
  end.

(** ** [src/components/revalidation.ts] *)

Record Revalidation : Type := {
  revalidation_queue : Queue;
  revalidation_dlq : Queue;
  revalidation_function : LambdaFunction
}.

Definition Revalidation_new (rt : NodeRuntime) (prefix openNextPath : string)
  (bucket : IBucket) (tagCacheTable : option ITable)
  (options : option RevalidationQueueOptions) : Revalidation :=
  let key :=
    match options ≫= encryptionKey with
    | Some k => k
    | None =>
        QueueKey (Utils.resourceName (Some prefix) "revalidation"
                  ++ " SQS encryption key")
    end in
  let fnOpts := options ≫= revalidation_functionOptions in
  let dlq :=
    {| queueName :=
         Utils.resourceName (Some prefix) "revalidation-dlq" ++ ".fifo";
       fifo := true; contentBasedDeduplication := true;
       encryptionMasterKey := key; retentionPeriodDays := 14;
       visibilityTimeoutSeconds := None; deadLetterQueue := None |} in
  let queue :=
    {| queueName := Utils.resourceName (Some prefix) "revalidation" ++ ".fifo";
       fifo := true; contentBasedDeduplication := true;
       encryptionMasterKey := key; retentionPeriodDays := 1;
       visibilityTimeoutSeconds :=
         Some (default DEFAULT_REVALIDATION_TIMEOUT_SECONDS
                 (fnOpts ≫= opt_timeout) * 6)%Z;
       deadLetterQueue := Some (queueName dlq, 3%Z) |} in
  let bucketVars : gmap string EnvValue :=
    {[ "CACHE_BUCKET_NAME" := EnvBucketName bucket;
       "CACHE_BUCKET_KEY_PREFIX" := EnvString "_cache";
       "CACHE_BUCKET_REGION" := EnvRegion ]} in
  let fn :=
    {| functionName := Utils.resourceName (Some prefix) "revalidation";
       runtime := getRuntime (fnOpts ≫= opt_runtime);
       architecture := getArchitecture (fnOpts ≫= opt_architecture);
       handler := "index.handler";
       code := ManifestReader.getRevalidationBundlePath rt openNextPath;
       memorySize :=
         default DEFAULT_REVALIDATION_MEMORY_SIZE (fnOpts ≫= opt_memorySize);
       timeout :=
         default DEFAULT_REVALIDATION_TIMEOUT_SECONDS (fnOpts ≫= opt_timeout);
       environment := spread_environment fnOpts ∪ bucketVars;
       logRetention :=
         default DEFAULT_LOG_RETENTION_DAYS (fnOpts ≫= opt_logRetention);
       tracing := getTracing fnOpts;
       reservedConcurrentExecutions :=
         fnOpts ≫= opt_reservedConcurrentExecutions;
       vpc := None; vpcSubnets := None;
       grants := []; eventSources := [] |} in
  (* Grant permissions *)
  let fn := addGrant (grantReadWrite bucket) fn in
  let fn :=
    match tagCacheTable with
    | Some t =>
        addEnvironment "CACHE_DYNAMO_TABLE" (EnvTableName t)
          (addGrant (grantReadWriteData t) fn)
    | None => fn
    end in
  (* SQS event source mapping *)
  let fn := addEventSource (SqsEventSource queue 5 true) fn in
  {| revalidation_queue := queue; revalidation_dlq := dlq;
     revalidation_function := fn |}.

(** ** [src/components/tag-cache-seeder.ts] *)

(** The custom resource is re-triggered by a property that changes on every
    deploy: [deployTimestamp: Date.now().toString()]. *)
Record TagCacheSeeder : Type := {
  seeder_function : LambdaFunction;
  deployTimestamp : string
}.

Definition Number_toString (n : Z) : string :=
  NilEmpty.string_of_int (Z.to_int n).

Definition TagCacheSeeder_new (rt : NodeRuntime) (prefix openNextPath : string)
  (tagCacheTable : ITable) (fnOpts : option LambdaFunctionOptions)
  : TagCacheSeeder :=
  let tableVars : gmap string EnvValue :=
    {[ "CACHE_DYNAMO_TABLE" := EnvTableName tagCacheTable;
       "CACHE_BUCKET_REGION" := EnvRegion ]} in
  let fn :=
    {| functionName := Utils.resourceName (Some prefix) "tag-cache-seeder";
       runtime := getRuntime (fnOpts ≫= opt_runtime);
       architecture := getArchitecture (fnOpts ≫= opt_architecture);
       handler := "index.handler";
       code := ManifestReader.getDynamoDbProviderBundlePath rt openNextPath;
       memorySize :=
         default DEFAULT_SEEDER_MEMORY_SIZE (fnOpts ≫= opt_memorySize);
       timeout :=
         default DEFAULT_SEEDER_TIMEOUT_SECONDS (fnOpts ≫= opt_timeout);
       environment := spread_environment fnOpts ∪ tableVars;
       logRetention :=
         default DEFAULT_LOG_RETENTION_DAYS (fnOpts ≫= opt_logRetention);
       tracing := getTracing fnOpts;
       reservedConcurrentExecutions :=
         fnOpts ≫= opt_reservedConcurrentExecutions;
       vpc := None; vpcSubnets := None;
       grants := []; eventSources := [] |} in
  let fn := addGrant (grantReadWriteData tagCacheTable) fn in
  {| seeder_function := fn;
     deployTimestamp := Number_toString (Date_now rt) |}.

(** ** [src/components/image-optimization.ts] *)

Record ImageOptimization : Type := {
  image_function : LambdaFunction;
  image_functionUrl : FunctionUrl
}.

Definition ImageOptimization_new (rt : NodeRuntime) (id : string)
  (prefix openNextPath : string) (bucket : IBucket)
  (fnOpts : option LambdaFunctionOptions) (assetKeyPrefix : option string)
  : ImageOptimization :=
  let functionUrl := {| url_owner := id; invokeMode := None |} in
  match fnOpts ≫= opt_existingFunction with
  | Some existing =>
      {| image_function := existing; image_functionUrl := functionUrl |}
  | None =>
      let bucketVars : gmap string EnvValue :=
        {[ "BUCKET_NAME" := EnvBucketName bucket;
           "BUCKET_KEY_PREFIX" :=
             EnvString (default EmptyString assetKeyPrefix) ]} in
      let fn :=
        {| functionName :=
             Utils.resourceName (Some prefix) "image-optimization";
           runtime := getRuntime (fnOpts ≫= opt_runtime);
           architecture := getArchitecture (fnOpts ≫= opt_architecture);
           handler := "index.handler";
           code := ManifestReader.getImageOptBundlePath rt openNextPath;
           memorySize :=
             default DEFAULT_IMAGE_OPTIMIZATION_MEMORY_SIZE
               (fnOpts ≫= opt_memorySize);
           timeout :=
             default DEFAULT_IMAGE_OPTIMIZATION_TIMEOUT_SECONDS
               (fnOpts ≫= opt_timeout);
           environment := spread_environment fnOpts ∪ bucketVars;
           logRetention :=
             default DEFAULT_LOG_RETENTION_DAYS (fnOpts ≫= opt_logRetention);
           tracing := getTracing fnOpts;
           reservedConcurrentExecutions :=
             fnOpts ≫= opt_reservedConcurrentExecutions;
           vpc := fnOpts ≫= opt_vpc;
           vpcSubnets := fnOpts ≫= opt_vpcSubnets;
           grants := []; eventSources := [] |} in
      (* Image optimization only needs read access to the S3 bucket *)
      let fn := addGrant (grantRead bucket) fn in
      {| image_function := fn; image_functionUrl := functionUrl |}
  end.

(** ** [src/components/distribution.ts] *)

Record DistributionComponentProps : Type := {
  dc_prefix : string;
  dc_manifest : OpenNextManifest;
  dc_bucket : IBucket;
  dc_serverFunctionUrls : gmap string FunctionUrl;
  dc_imageOptimizationFunctionUrl : FunctionUrl;
  dc_options : option DistributionOptions;
  dc_webAclArn : option WebAcl;
  dc_cloudfrontLogBucket : option IBucket;
  dc_s3OriginPath : option string
}.

Module DistributionComponent.

Definition createCloudFrontFunction (props : DistributionComponentProps)
  : CloudFrontFunction :=
  {| cf_functionName :=
       Utils.resourceName (Some (dc_prefix props)) "host-rewrite";
     cf_code := HOST_HEADER_REWRITE_CODE |}.

Definition createCachePolicy (opts : option DistributionOptions)
  (props : DistributionComponentProps) : CachePolicy :=
  let cachePolicyOpts := opts ≫= cachePolicyOptions in
  let extra := default [] (cachePolicyOpts ≫= additionalHeaders) in
  ServerCachePolicy
    (Utils.resourceName (Some (dc_prefix props)) "server-cache")
    (default DEFAULT_CACHE_DEFAULT_TTL_SECONDS (cachePolicyOpts ≫= defaultTtl))
    (default DEFAULT_CACHE_MAX_TTL_SECONDS (cachePolicyOpts ≫= maxTtl))
    (default DEFAULT_CACHE_MIN_TTL_SECONDS (cachePolicyOpts ≫= minTtl))
    (NEXT_CACHE_KEY_HEADERS ++ extra).

Definition createOriginRequestPolicy (props : DistributionComponentProps)
  : OriginRequestPolicy :=
  ServerOriginRequestPolicy
    (Utils.resourceName (Some (dc_prefix props)) "server-origin-request")
    ["x-forwarded-host"; "accept"; "accept-language"].

Definition createResponseHeadersPolicy (props : DistributionComponentProps)
  (opts : option DistributionOptions) : ResponseHeadersPolicy :=
  ResponseHeadersPolicy_new
    (Utils.resourceName (Some (dc_prefix props)) "response-headers")
    (if bool_decide (opts ≫= hsts = Some false) then None
     else Some {| accessControlMaxAge :=
                    default DEFAULT_HSTS_MAX_AGE (opts ≫= hstsMaxAge);
                  includeSubdomains := true; preload := true |})
    (if bool_decide (opts ≫= cors = Some true)
     then Some (default ["*"] (opts ≫= corsAllowOrigins))
     else None).

Definition createS3Origin (props : DistributionComponentProps) : IOrigin :=
  S3BucketOrigin (dc_bucket props)
    (match dc_s3OriginPath props with
     | Some p =>
         if String.eqb p EmptyString then None else Some ("/" ++ p)
     | None => None
     end).

Definition createServerOrigins (props : DistributionComponentProps)
  : gmap string IOrigin :=
  Map_forEach (dc_serverFunctionUrls props)
    (fun serverOrigins key fnUrl => <[key := HttpOrigin fnUrl]> serverOrigins)
    ∅.

Definition createImageOptimOrigin (props : DistributionComponentProps)
  : IOrigin :=
  HttpOrigin (dc_imageOptimizationFunctionUrl props).

Definition hostRewrite (cfFunction : CloudFrontFunction)
  : list FunctionAssociation :=
  [ {| association_function := cfFunction; eventType := VIEWER_REQUEST |} ].

Definition createServerBehaviorOptions (defaultServerOrigin : IOrigin)
  (serverCachePolicy : CachePolicy) (serverOriginRequestPolicy : OriginRequestPolicy)
  (headersPolicy : ResponseHeadersPolicy)
  (cfFunction : CloudFrontFunction) : BehaviorOptions :=
  {| behavior_origin := defaultServerOrigin;
     viewerProtocolPolicy := Some REDIRECT_TO_HTTPS;
     allowedMethods := Some ALLOW_ALL;
     cachedMethods := Some CACHE_GET_HEAD_OPTIONS;
     cachePolicy := Some serverCachePolicy;
     originRequestPolicy := Some serverOriginRequestPolicy;
     responseHeadersPolicy := Some headersPolicy;
     compress := Some true;
     functionAssociations := hostRewrite cfFunction |}.

Section AdditionalBehaviors.

Variables (s3Origin imageOptOrigin : IOrigin).
Variables (serverCachePolicy : CachePolicy).
Variables (serverOriginRequestPolicy : OriginRequestPolicy).
Variables (cfFunction : CloudFrontFunction).
Variables (serverOrigins : gmap string IOrigin).
Variables (headersPolicy : ResponseHeadersPolicy).

(** Static asset behavior *)
Definition s3Behavior : BehaviorOptions :=
  {| behavior_origin := s3Origin;
     viewerProtocolPolicy := Some REDIRECT_TO_HTTPS;
     allowedMethods := Some ALLOW_GET_HEAD;
     cachedMethods := Some CACHE_GET_HEAD;
     cachePolicy := Some CACHING_OPTIMIZED;
     originRequestPolicy := None;
     responseHeadersPolicy := None;
     compress := Some true;
     functionAssociations := [] |}.

(** Image optimization behavior *)
Definition imageBehavior : BehaviorOptions :=
  {| behavior_origin := imageOptOrigin;
     viewerProtocolPolicy := Some REDIRECT_TO_HTTPS;
     allowedMethods := Some ALLOW_GET_HEAD_OPTIONS;
     cachedMethods := Some CACHE_GET_HEAD_OPTIONS;
     cachePolicy := Some serverCachePolicy;
     originRequestPolicy := Some serverOriginRequestPolicy;
     responseHeadersPolicy := None;
     compress := Some true;
     functionAssociations := hostRewrite cfFunction |}.

(** Split function behavior *)
Definition splitBehavior (splitOrigin : IOrigin) : BehaviorOptions :=
  {| behavior_origin := splitOrigin;
     viewerProtocolPolicy := Some REDIRECT_TO_HTTPS;
     allowedMethods := Some ALLOW_ALL;
     cachedMethods := Some CACHE_GET_HEAD_OPTIONS;
     cachePolicy := Some serverCachePolicy;
     originRequestPolicy := Some serverOriginRequestPolicy;
     responseHeadersPolicy := Some headersPolicy;
     compress := Some true;
     functionAssociations := hostRewrite cfFunction |}.

(** The body of the loop over [props.manifest.behaviors]. *)
Definition behaviorStep (additionalBehaviors : gmap string BehaviorOptions)
  (behavior : OpenNextBehavior) : gmap string BehaviorOptions :=
  if String.eqb (pattern behavior) "*" || String.eqb (pattern behavior) "/*"
  then
    (* Default behavior, handled separately *)
    additionalBehaviors
  else
    match origin behavior with
    | Some originName =>
        if String.eqb originName "s3" then
          Record_set (pattern behavior) s3Behavior additionalBehaviors
        else if String.eqb originName "imageOptimizer" then
          Record_set (pattern behavior) imageBehavior additionalBehaviors
        else if String.eqb originName EmptyString then
          (* the empty string is falsy *)
          additionalBehaviors
        else
          match serverOrigins !! originName with
          | None => additionalBehaviors
          | Some splitOrigin =>
              Record_set (pattern behavior) (splitBehavior splitOrigin)
                additionalBehaviors
          end
    | None => additionalBehaviors
    end.

Definition createAdditionalBehaviors (props : DistributionComponentProps)
  : gmap string BehaviorOptions :=
  for_of (behaviors (dc_manifest props)) behaviorStep ∅.

End AdditionalBehaviors.

Definition priceClassMap (name : string) : option PriceClass :=
  if String.eqb name "PriceClass_100" then Some PRICE_CLASS_100
  else if String.eqb name "PriceClass_200" then Some PRICE_CLASS_200
  else if String.eqb name "PriceClass_All" then Some PRICE_CLASS_ALL
  else None.

Definition missing_default_origin : string :=
  "Missing default server origin — this should never happen".

(** The constructor once the default server origin is known. *)
Definition assemble (props : DistributionComponentProps)
  (defaultServerOrigin : IOrigin) : Distribution :=
  let opts := dc_options props in
  let cfFunction := createCloudFrontFunction props in
  let serverCachePolicy := createCachePolicy opts props in
  let serverOriginRequestPolicy := createOriginRequestPolicy props in
  let headersPolicy := createResponseHeadersPolicy props opts in
  let s3Origin := createS3Origin props in
  let serverOrigins := createServerOrigins props in
  let imageOptOrigin := createImageOptimOrigin props in
  (* Build behaviors from manifest *)
  let serverBehaviorOptions :=
    createServerBehaviorOptions defaultServerOrigin serverCachePolicy
      serverOriginRequestPolicy headersPolicy cfFunction in
  let additionalBehaviors :=
    createAdditionalBehaviors s3Origin imageOptOrigin serverCachePolicy
      serverOriginRequestPolicy cfFunction serverOrigins headersPolicy
      props in
  (* Merge in user-provided additional behaviors *)
  let additionalBehaviors :=
    match opts ≫= opt_additionalBehaviors with
    | Some extra => Object_assign additionalBehaviors extra
    | None => additionalBehaviors
    end in
  {| comment := Utils.resourceName (Some (dc_prefix props)) "distribution";
     defaultBehavior := serverBehaviorOptions;
     additionalBehaviors := additionalBehaviors;
     domainNames := opts ≫= opt_domainNames;
     certificate := opts ≫= opt_certificate;
     priceClass :=
       default PRICE_CLASS_100
         (priceClassMap
            (default DEFAULT_PRICE_CLASS (opts ≫= opt_priceClass)));
     webAclId := dc_webAclArn props;
     geoRestriction := opts ≫= geoRestrictionLocations;
     enableLogging := dc_cloudfrontLogBucket props |}.

Definition new (props : DistributionComponentProps) : Result Distribution :=
  match createServerOrigins props !! "default" with
  | None => Throw (Error missing_default_origin)
  | Some defaultServerOrigin => Return (assemble props defaultServerOrigin)
  end.

End DistributionComponent.

(** ** [src/index.ts]: the [OpenNextCdk] construct *)

Record OpenNextCdkProps : Type := {
  openNextPath : string;
  props_prefix : option string;
  props_serverFunction : option LambdaFunctionOptions;
  props_imageOptimizationFunction : option LambdaFunctionOptions;
  props_splitFunctions : option (gmap string LambdaFunctionOptions);
  props_distribution : option DistributionOptions;
  props_waf : option WafOptions;
  props_cloudfrontLogs : option CloudFrontLogsOptions;
  props_revalidation : option RevalidationQueueOptions;
  props_tagCache : option TagCacheOptions;
  props_initializationFunction : option InitializationFunctionOptions;
  props_assetsBucket : option IBucket;
  props_assetsRemovalPolicy : option RemovalPolicy
}.

(** A warning annotation: [Annotations.of(this).addWarningV2(id, message)]. *)
Record Warning : Type := {
  warning_id : string;
  warning_message : string
}.

(** The construct after its constructor has run: the public fields of the
    class, then the resources it holds without exposing them. *)
Record OpenNextCdk : Type := {
  bucket : IBucket;
  distribution : Distribution;
  serverFunctions : gmap string LambdaFunction;
  imageOptimizationFunction : LambdaFunction;
  revalidationFunction : LambdaFunction;
  revalidationQueue : Queue;
  tagCacheTable : option ITable;
  tagCacheSeederFunction : option LambdaFunction;
  (* not exposed *)
  serverFunctionUrls : gmap string FunctionUrl;
  tagCacheSeeder : option TagCacheSeeder;
  revalidation : Revalidation;
  warnings : list Warning
}.

Definition edge_functions_warning : Warning :=
  {| warning_id := "@open-next-cdk/edge-functions-unsupported";
     warning_message :=
       "Edge functions found in manifest but not yet supported. " ++
       "Behaviors referencing edge functions will be skipped." |}.

Definition createAssetsBucket (props : OpenNextCdkProps) : IBucket :=
  match props_assetsBucket props with
  | Some b => b
  | None =>
      let policy :=
        default RemovalPolicy_DESTROY (props_assetsRemovalPolicy props) in
      AssetsBucket policy
        (match policy with RemovalPolicy_DESTROY => true | _ => false end)
  end.

Section Constructor.

Variable rt : NodeRuntime.
Variable props : OpenNextCdkProps.
Variable manifest : OpenNextManifest.

(** The constants of the constructor, in the order of the source. *)

Definition prefix : string := default DEFAULT_PREFIX (props_prefix props).

Definition s3OriginPath : option string :=
  ManifestReader.getS3OriginPath manifest.

(** 1. Tag Cache (DynamoDB) *)
Definition disableTagCache : bool :=
  bool_decide (props_tagCache props ≫= disabled = Some true)
  || bool_decide (additionalProps manifest ≫= ap_disableTagCache = Some true).

Definition tagCacheOptions : option TagCacheOptions :=
  if disableTagCache then
    (* { ...props.tagCache, disabled: true } *)
    Some {| disabled := Some true;
            existingTable := props_tagCache props ≫= existingTable;
            billingMode := props_tagCache props ≫= billingMode |}
  else props_tagCache props.

Definition this_tagCacheTable : option ITable :=
  TagCacheTable prefix tagCacheOptions.

(** 2. WAF *)
Definition waf : option WebAcl := Waf prefix (props_waf props).

(** 3. Assets Bucket + Revalidation (SQS + Lambda) *)
Definition this_bucket : IBucket := createAssetsBucket props.

Definition this_revalidation : Revalidation :=
  Revalidation_new rt prefix (openNextPath props) this_bucket
    this_tagCacheTable (props_revalidation props).

Definition this_revalidationQueue : Queue :=
  revalidation_queue this_revalidation.

(** 3b. Tag Cache Seeder *)
Definition seeder : option TagCacheSeeder :=
  match this_tagCacheTable with
  | Some t =>
      if ManifestReader.hasInitializationFunction manifest then
        Some (TagCacheSeeder_new rt prefix (openNextPath props) t
                (props_initializationFunction props
                   ≫= initialization_functionOptions))
      else None
  | None => None
  end.

(** 3c. Edge Functions Warning *)
Definition annotations : list Warning :=
  match edgeFunctions manifest with
  | Some efs =>
      if bool_decide (0 < length (Object_keys efs))
      then [edge_functions_warning] else []
  | None => []
  end.

(** 4. Server Functions *)
Definition disableIncrementalCache : bool :=
  bool_decide
    (additionalProps manifest ≫= ap_disableIncrementalCache = Some true).

Definition serverProps (originKey : string) (o : OpenNextOrigin)
  (functionOptions : option LambdaFunctionOptions) : ServerFunctionProps :=
  {| sf_prefix := prefix;
     sf_openNextPath := openNextPath props;
     sf_originKey := originKey;
     sf_origin := o;
     sf_bucket := this_bucket;
     sf_revalidationQueue := this_revalidationQueue;
     sf_tagCacheTable := this_tagCacheTable;
     sf_functionOptions := functionOptions;
     sf_disableIncrementalCache := disableIncrementalCache |}.

(** Default server function *)
Definition defaultServer (defaultOrigin : OpenNextOrigin) : ServerFunction :=
  ServerFunction_new rt "ServerFunction"
    (serverProps "default" defaultOrigin (props_serverFunction props)).

(** The state of the loop over the split origin keys:
    [this.serverFunctions] and [serverFunctionUrls]. *)
Definition ServerMaps : Type :=
  (gmap string LambdaFunction * gmap string FunctionUrl)%type.

Definition registerServer (key : string) (server : ServerFunction)
  (maps : ServerMaps) : ServerMaps :=
  (<[key := server_function server]> maps.1,
   <[key := server_functionUrl server]> maps.2).

(** Split functions *)
Definition splitOriginKeys : list string :=
  ManifestReader.getSplitFunctionOrigins manifest.

Definition splitServer (originKey : string) (o : OpenNextOrigin)
  : ServerFunction :=
  let suffix := Utils.originKeyToSuffix originKey in
  let splitFnOpts := props_splitFunctions props ≫= (.!! originKey) in
  ServerFunction_new rt ("ServerFunction-" ++ suffix)
    (serverProps originKey o splitFnOpts).

(** The body of the loop.  [new ServerFunction(this, id, ...)] throws when
    the id repeats one of the scope: that check is modelled apart, in
    [build]. *)
Definition splitStep (maps : ServerMaps) (originKey : string) : ServerMaps :=
  match origins manifest !! originKey with
  | None => maps      (* the keys come from [Object.keys(manifest.origins)] *)
  | Some o =>
      if negb (String.eqb (origin_type o) "function") then maps
      else registerServer originKey (splitServer originKey o) maps
  end.

Definition serverMaps (defaultOrigin : OpenNextOrigin) : ServerMaps :=
  for_of splitOriginKeys splitStep
    (registerServer "default" (defaultServer defaultOrigin) (∅, ∅)).

(** The loop that fills [originMap] from [serverFunctionUrls]. *)
Definition buildOriginMap (urls : gmap string FunctionUrl)
  : gmap string FunctionUrl :=
  Map_forEach urls
    (fun originMap key fnUrl =>
       if negb (String.eqb key "default")
       then Record_set key fnUrl originMap
       else originMap)
    ∅.

(** Inject OPEN_NEXT_ORIGIN env var into default server function with URLs
    of split functions.  [this.serverFunctions] holds the same function
    object, so its entry under 'default' sees the variable. *)
Definition this_serverFunctions (defaultOrigin : OpenNextOrigin)
  : gmap string LambdaFunction :=
  let maps := serverMaps defaultOrigin in
  if bool_decide (0 < length splitOriginKeys) then
    <["default" :=
       addEnvironment "OPEN_NEXT_ORIGIN" (EnvLazyJSON (buildOriginMap maps.2))
         (server_function (defaultServer defaultOrigin))]> maps.1
  else maps.1.

(** 5. Image Optimization *)
Definition imageOpt : ImageOptimization :=
  ImageOptimization_new rt "ImageOptimization" prefix (openNextPath props)
    this_bucket (props_imageOptimizationFunction props) s3OriginPath.

(** 6. CloudFront Logs *)
Definition cloudfrontLogBucket : option IBucket :=
  CloudFrontLogs (props_cloudfrontLogs props).

(** 7. CloudFront Distribution *)
Definition distributionProps (defaultOrigin : OpenNextOrigin)
  : DistributionComponentProps :=
  {| dc_prefix := prefix;
     dc_manifest := manifest;
     dc_bucket := this_bucket;
     dc_serverFunctionUrls := (serverMaps defaultOrigin).2;
     dc_imageOptimizationFunctionUrl := image_functionUrl imageOpt;
     dc_options := props_distribution props;
     dc_webAclArn := waf;
     dc_cloudfrontLogBucket := cloudfrontLogBucket;
     dc_s3OriginPath := s3OriginPath |}.

(** The fields of the construct once the distribution exists. *)
Definition this (defaultOrigin : OpenNextOrigin) (dist : Distribution)
  : OpenNextCdk :=
  {| bucket := this_bucket;
     distribution := dist;
     serverFunctions := this_serverFunctions defaultOrigin;
     imageOptimizationFunction := image_function imageOpt;
     revalidationFunction := revalidation_function this_revalidation;
     revalidationQueue := this_revalidationQueue;
     tagCacheTable := this_tagCacheTable;
     tagCacheSeederFunction := seeder_function <$> seeder;
     serverFunctionUrls := (serverMaps defaultOrigin).2;
     tagCacheSeeder := seeder;
     revalidation := this_revalidation;
     warnings := annotations |}.

(** The constructor, from the manifest on.  [manifest.origins.default] is
    read when the default server function is created; the property access
    [props.origin.streaming] throws when it is [undefined]. *)
Definition construct : Result OpenNextCdk :=
  match origins manifest !! "default" with
  | None =>
      Throw (TypeError
        "Cannot read properties of undefined (reading 'streaming')")
  | Some defaultOrigin =>
      dist ← DistributionComponent.new (distributionProps defaultOrigin);
      Return (this defaultOrigin dist)
  end.

End Constructor.

(** The whole constructor: read the manifest, then build.  The result is
    [None] when the parsed manifest passes [validateManifest] without having
    the declared type [OpenNextManifest]: the sources say nothing of such
    a manifest. *)
Definition OpenNextCdk_new (rt : NodeRuntime) (props : OpenNextCdkProps)
  : option (Result OpenNextCdk) :=
  match ManifestReader.readManifest rt (openNextPath props) with
  | Throw e => Some (Throw e)
  | Return json =>
      manifest ← ManifestReader.as_OpenNextManifest json;
      Some (construct rt props manifest)
  end.

(** ** [src/components/asset-deployment.ts] *)

Record BucketDeployment : Type := {
  deployment_id : string;
  deployment_source : string;             (* s3deploy.Source.asset(sourcePath) *)
  destinationBucket : IBucket;
  destinationKeyPrefix : option string;
  deployment_cacheControl : string;       (* CacheControl.fromString(...) *)
  prune : bool;
  deployment_distribution : Distribution;
  distributionPaths : list string
}.

Definition AssetDeployment_new (rt : NodeRuntime) (openNextPath : string)
  (manifest : OpenNextManifest) (b : IBucket) (dist : Distribution)
  : list BucketDeployment :=
  let copyEntries := ManifestReader.getAssetCopyEntries manifest in
  imap (fun i entry =>
    let sourcePath := path_join rt [openNextPath; copy_from entry] in
    let keyPrefix :=
      if String.eqb (copy_to entry) "/"
         || String.eqb (copy_to entry) EmptyString
      then None else Some (copy_to entry) in
    (* Use appropriate cache control based on whether assets are versioned *)
    let cacheControl :=
      if copy_cached entry
      then VERSIONED_CACHE_CONTROL else STATIC_CACHE_CONTROL in
    {| deployment_id := "Deploy" ++ Number_toString (Z.of_nat i);
       deployment_source := sourcePath;
       destinationBucket := b;
       destinationKeyPrefix := keyPrefix;
       deployment_cacheControl := cacheControl;
       prune := false;
       deployment_distribution := dist;
       distributionPaths := ["/*"] |})
    copyEntries.

(** ** [src/components/alarms.ts] *)

Record AlarmOptions : Type := {
  alarms_enabled : option bool;
  snsTopicArn : option string;
  dlqMessageThreshold : option Z;
  lambdaErrorThreshold : option Z;
  cloudfront5xxThreshold : option Z
}.

Inductive Metric : Type :=
| metricApproximateNumberOfMessagesVisible (q : Queue)
| metricErrors (fn : LambdaFunction)
| Metric_5xxErrorRate (dist : Distribution).
  (* namespace 'AWS/CloudFront', metricName '5xxErrorRate', statistic
     'Average', dimensions DistributionId and Region 'Global' *)

(** [cloudwatch.Alarm]; every alarm of the component has a period of 300
    seconds, one evaluation period, the comparison operator
    GREATER_THAN_OR_EQUAL_TO_THRESHOLD and treats missing data as
    NOT_BREACHING. *)
Record Alarm : Type := {
  alarm_id : string;
  alarmName : string;
  alarmDescription : string;
  alarm_metric : Metric;
  threshold : Z;
  alarmActions : list string      (* SnsAction(Topic.fromTopicArn(arn)) *)
}.

(** The alarms the component creates, or none.  The source creates one
    alarm per entry of the map of server functions, in the insertion order
    of the map; the list has them in the order of [map_to_list]. *)
Definition Alarms_new (prefix : string) (options : option AlarmOptions)
  (revalidationDlq : Queue) (fns : gmap string LambdaFunction)
  (revalidationFn : LambdaFunction) (dist : Distribution) : list Alarm :=
  if bool_decide (options ≫= alarms_enabled = Some true) then
    let snsAction :=
      match options ≫= snsTopicArn with
      | Some arn => if String.eqb arn EmptyString then [] else [arn]
      | None => []
      end in
    (* DLQ Depth Alarm *)
    let dlqAlarm :=
      {| alarm_id := "DlqDepthAlarm";
         alarmName := Utils.resourceName (Some prefix) "revalidation-dlq-depth";
         alarmDescription :=
           "Revalidation DLQ has messages — revalidation failures detected";
         alarm_metric := metricApproximateNumberOfMessagesVisible revalidationDlq;
         threshold := default 1%Z (options ≫= dlqMessageThreshold);
         alarmActions := snsAction |} in
    (* Server Lambda Error Alarms *)
    let serverAlarm (kv : string * LambdaFunction) :=
      let suffix := if String.eqb kv.1 "default" then "server" else kv.1 in
      {| alarm_id := "ServerErrorAlarm-" ++ suffix;
         alarmName := Utils.resourceName (Some prefix) (suffix ++ "-errors");
         alarmDescription := "Lambda errors on " ++ suffix ++ " function";
         alarm_metric := metricErrors kv.2;
         threshold := default 5%Z (options ≫= lambdaErrorThreshold);
         alarmActions := snsAction |} in
    (* Revalidation Lambda Error Alarm *)
    let revalAlarm :=
      {| alarm_id := "RevalidationErrorAlarm";
         alarmName := Utils.resourceName (Some prefix) "revalidation-errors";
         alarmDescription := "Lambda errors on revalidation function";
         alarm_metric := metricErrors revalidationFn;
         threshold := default 5%Z (options ≫= lambdaErrorThreshold);
         alarmActions := snsAction |} in
    (* CloudFront 5xx Error Rate Alarm *)
    let cf5xxAlarm :=
      {| alarm_id := "CloudFront5xxAlarm";
         alarmName := Utils.resourceName (Some prefix) "cloudfront-5xx-rate";
         alarmDescription := "CloudFront 5xx error rate exceeds threshold";
         alarm_metric := Metric_5xxErrorRate dist;
         threshold := default 5%Z (options ≫= cloudfront5xxThreshold);
         alarmActions := snsAction |} in
    [dlqAlarm] ++ (serverAlarm <$> map_to_list fns) ++ [revalAlarm; cf5xxAlarm]
  else [].

(** ** [src/components/dns.ts] *)

(** [route53.IHostedZone] *)
Record IHostedZone : Type := {
  hostedZoneId : string;
  zoneName : string
}.

Record DnsOptions : Type := {
  hostedZone : IHostedZone;
  recordNames : option (list string);
  evaluateTargetHealth : option bool
}.

Inductive RecordType : Type := RecordType_A | RecordType_AAAA.

#[global] Instance RecordType_eq_dec : EqDecision RecordType.
Proof. solve_decision. Defined.

(** [route53.ARecord] and [route53.AaaaRecord]; the target is
    [RecordTarget.fromAlias(new CloudFrontTarget(distribution))]. *)
Record RecordSet : Type := {
  record_id : string;
  recordType : RecordType;
  zone : IHostedZone;
  recordName : string;
  aliasTarget : Distribution
}.

Definition Dns_new (dist : Distribution) (options : option DnsOptions)
  : list RecordSet :=
  match options with
  | None => []
  | Some o =>
      let names :=
        match recordNames o with
        | Some ns => ns
        | None =>
            if String.eqb (zoneName (hostedZone o)) EmptyString
            then [] else [zoneName (hostedZone o)]
        end in
      mjoin (imap (fun i name =>
        [ {| record_id := "ARecord" ++ Number_toString (Z.of_nat i);
             recordType := RecordType_A; zone := hostedZone o;
             recordName := name; aliasTarget := dist |};
          {| record_id := "AaaaRecord" ++ Number_toString (Z.of_nat i);
             recordType := RecordType_AAAA; zone := hostedZone o;
             recordName := name; aliasTarget := dist |} ]) names)
  end.

(** ** [src/components/warmer.ts] *)

Record WarmerOptions : Type := {
  warmer_enabled : option bool;
  schedule : option string;
  concurrency : option Z;
  warmer_functionOptions : option LambdaFunctionOptions
}.

(** The value of an environment variable of the warmer: a string, or
    [JSON.stringify(functionNameMap)]. *)
Inductive WarmerEnvValue : Type :=
| WarmerEnvString (s : string)
| WarmerEnvJSON (functionNameMap : gmap string string).

Record WarmerFunction : Type := {
  warmer_functionName : string;
  warmer_runtime : Runtime;
  warmer_architecture : Architecture;
  warmer_handler : string;
  warmer_code : string;
  warmer_memorySize : Z;
  warmer_timeout : Z;
  warmer_environment : gmap string WarmerEnvValue;
  warmer_logRetention : Z;
  warmer_tracing : Tracing;
  warmer_reservedConcurrentExecutions : option Z
}.

(** [events.Rule] with the warmer function as its target. *)
Record ScheduleRule : Type := {
  ruleName : string;
  scheduleExpression : string
}.

(** The warmer with the functions it may invoke, listed in the order of
    [map_to_list] where the source goes through the values of the map. *)
Record Warmer : Type := {
  warmer_function : WarmerFunction;
  warmer_grantInvoke : list LambdaFunction;   (* serverFn.grantInvoke(fn) *)
  warmer_rule : ScheduleRule
}.

Definition Warmer_new (rt : NodeRuntime) (prefix openNextPath : string)
  (fns : gmap string LambdaFunction) (options : option WarmerOptions)
  : option Warmer :=
  match options with
  | None => None
  | Some o =>
      if bool_decide (warmer_enabled o = Some true) then
        let fnOpts := warmer_functionOptions o in
        let n := default DEFAULT_WARMER_CONCURRENCY (concurrency o) in
        (* Build function name map for the warmer *)
        let functionNameMap : gmap string string :=
          Map_forEach fns
            (fun acc key fn => Record_set key (functionName fn) acc) ∅ in
        let ownVars : gmap string WarmerEnvValue :=
          {[ "FUNCTION_NAME" := WarmerEnvJSON functionNameMap;
             "CONCURRENCY" := WarmerEnvString (Number_toString n) ]} in
        let callerVars : gmap string WarmerEnvValue :=
          match fnOpts ≫= opt_environment with
          | Some env => WarmerEnvString <$> env
          | None => ∅
          end in
        let fn :=
          {| warmer_functionName := Utils.resourceName (Some prefix) "warmer";
             warmer_runtime := getRuntime (fnOpts ≫= opt_runtime);
             warmer_architecture := getArchitecture (fnOpts ≫= opt_architecture);
             warmer_handler := "index.handler";
             warmer_code := ManifestReader.getWarmerBundlePath rt openNextPath;
             warmer_memorySize :=
               default DEFAULT_WARMER_MEMORY_SIZE (fnOpts ≫= opt_memorySize);
             warmer_timeout :=
               default DEFAULT_WARMER_TIMEOUT_SECONDS (fnOpts ≫= opt_timeout);
             warmer_environment := callerVars ∪ ownVars;
             warmer_logRetention :=
               default DEFAULT_LOG_RETENTION_DAYS (fnOpts ≫= opt_logRetention);
             warmer_tracing := getTracing fnOpts;
             warmer_reservedConcurrentExecutions :=
               fnOpts ≫= opt_reservedConcurrentExecutions |} in
        Some {| warmer_function := fn;
                (* Grant invoke on all server functions *)
                warmer_grantInvoke := (map_to_list fns).*2;
                (* EventBridge scheduled rule *)
                warmer_rule :=
                  {| ruleName :=
                       Utils.resourceName (Some prefix) "warmer-schedule";
                     scheduleExpression :=
                       default DEFAULT_WARMER_SCHEDULE (schedule o) |} |}
      else None
  end.

(** ** [src/index.ts]: what the constructor creates after the distribution *)

(** The fields of the props that only these last steps read. *)
Record OpenNextCdkLateProps : Type := {
  props_alarms : option AlarmOptions;
  props_dns : option DnsOptions;
  props_warmer : option WarmerOptions
}.

Record OpenNextCdkLate : Type := {
  assetDeployment : list BucketDeployment;
  alarms : list Alarm;
  dns : list RecordSet;
  warmer : option Warmer;
  warmerFunction : option WarmerFunction
}.

(** Steps 8 to 11 of the constructor, on the construct [g] the steps 1
    to 7 have built. *)
Definition construct_late (rt : NodeRuntime) (props : OpenNextCdkProps)
  (late : OpenNextCdkLateProps) (manifest : OpenNextManifest)
  (g : OpenNextCdk) : OpenNextCdkLate :=
  (* 8. S3 Asset Deployment *)
  let assets :=
    AssetDeployment_new rt (openNextPath props) manifest (bucket g)
      (distribution g) in
  (* 9. CloudWatch Alarms *)
  let alarms :=
    Alarms_new (prefix props) (props_alarms late)
      (revalidation_dlq (revalidation g)) (serverFunctions g)
      (revalidationFunction g) (distribution g) in
  (* 10. DNS *)
  let dns :=
    match props_dns late with
    | Some o => Dns_new (distribution g) (Some o)
    | None => []
    end in
  (* 11. Warmer *)
  let warmer :=
    Warmer_new rt (prefix props) (openNextPath props) (serverFunctions g)
      (props_warmer late) in
  {| assetDeployment := assets; alarms := alarms; dns := dns;
     warmer := warmer; warmerFunction := warmer_function <$> warmer |}.

(** ** The construct ids, and the constructor as a whole *)

(** What the [constructs] library throws when [new Construct(scope, id)]
    is given an id that a child of the scope already has; [typeName] is
    the class of the scope and [name] its own id. *)
Definition duplicate_id_message (typeName name childName : string) : string :=
  "There is already a Construct with name '" ++ childName ++ "' in "
  ++ typeName
  ++ (if String.eqb name EmptyString then EmptyString
      else " [" ++ name ++ "]").

(** The first of the ids, taken in order, that one of [seen] or an earlier
    id of the list already is: the child at which the scope refuses. *)
Fixpoint firstDuplicate (seen ids : list string) : option string :=
  match ids with
  | [] => None
  | childName :: rest =>
      if bool_decide (childName ∈ seen) then Some childName
      else firstDuplicate (childName :: seen) rest
  end.

Section Scope.

Variable rt : NodeRuntime.
Variable id : string.
Variable props : OpenNextCdkProps.
Variable late : OpenNextCdkLateProps.
Variable manifest : OpenNextManifest.

(** The ids of the split server functions, in the order of the loop over
    the split origin keys. *)
Definition splitIds : list string :=
  omap (fun originKey =>
          match origins manifest !! originKey with
          | None => None
          | Some o =>
              if negb (String.eqb (origin_type o) "function") then None
              else Some ("ServerFunction-" ++ Utils.originKeyToSuffix originKey)
          end)
       (splitOriginKeys manifest).

(** The ids the constructor gives to the children of [this], in the order
    in which it creates them. *)
Definition childIds : list string :=
  (["TagCache"; "Waf"]
   ++ match props_assetsBucket props with
      | Some _ => []
      | None => ["AccessLogBucket"; "AssetsBucket"]
      end
   ++ ["Revalidation"]
   ++ match seeder rt props manifest with
      | Some _ => ["TagCacheSeeder"]
      | None => []
      end
   ++ ["ServerFunction"]
   ++ splitIds
   ++ ["ImageOptimization"; "CloudFrontLogs"; "Distribution"; "Assets";
       "Alarms"]
   ++ match props_dns late with
      | Some _ => ["Dns"]
      | None => []
      end
   ++ ["Warmer"; "DistributionDomainName"; "DistributionId";
       "BucketName"])%list.

(** The ids the [Alarms] component gives to its own children. *)
Definition alarmIds (created : list Alarm) : list string :=
  ((if bool_decide (props_alarms late ≫= alarms_enabled = Some true) then
      match props_alarms late ≫= snsTopicArn with
      | Some arn => if String.eqb arn EmptyString then [] else ["AlarmTopic"]
      | None => []
      end
    else [])
   ++ (alarm_id <$> created))%list.

(** The constructor, from the manifest on, with the check of the
    [constructs] library on the ids.  A repeated id among the children of
    [this] can only be the id of a split server function, so that the loop
    over the split origin keys throws, after the default server function
    is created and before the distribution is; a repeated id among the
    alarms throws when the [Alarms] component is created. *)
Definition build : Result (OpenNextCdk * OpenNextCdkLate) :=
  match origins manifest !! "default", firstDuplicate [] childIds with
  | Some _, Some childName =>
      Throw (Error (duplicate_id_message "OpenNextCdk" id childName))
  | _, _ =>
      g ← construct rt props manifest;
      let rest := construct_late rt props late manifest g in
      match firstDuplicate [] (alarmIds (alarms rest)) with
      | Some childName =>
          Throw (Error (duplicate_id_message "Alarms" "Alarms" childName))
      | None => Return (g, rest)
      end
  end.

End Scope.

(** [new OpenNextCdk(scope, id, props)]: read the manifest, then build.
    The result is [None] when the parsed manifest passes [validateManifest]
    without having the declared type [OpenNextManifest]. *)
Definition OpenNextCdk_constructor (rt : NodeRuntime) (id : string)
  (props : OpenNextCdkProps) (late : OpenNextCdkLateProps)
  : option (Result (OpenNextCdk * OpenNextCdkLate)) :=
  match ManifestReader.readManifest rt (openNextPath props) with
  | Throw e => Some (Throw e)
  | Return json =>
      manifest ← ManifestReader.as_OpenNextManifest json;
      Some (build rt id props late manifest)
  end.

(** ** The vocabulary of the specification *)

Module Spec.

(** Section 3: the role of an origin. *)
Inductive OriginRole : Type :=
| StaticAssets
| ImageOptimizer
| DefaultCompute
| SplitCompute (key : string).

(** Section 4.2: the reserved keys map to the first three roles; any other
    key is a split-compute role only if its origin is compute-typed. *)
Definition classify (originKey : string) (os : gmap string OpenNextOrigin)
  : option OriginRole :=
  if String.eqb originKey "default" then Some DefaultCompute
  else if String.eqb originKey "s3" then Some StaticAssets
  else if String.eqb originKey "imageOptimizer" then Some ImageOptimizer
  else
    match os !! originKey with
    | Some o =>
        if String.eqb (origin_type o) "function"
        then Some (SplitCompute originKey) else None
    | None => None
    end.

(** The compute origins beyond the three reserved roles. *)
Definition splitComputeOrigins (m : OpenNextManifest)
  : gmap string OpenNextOrigin :=
  filter (fun kv => (kv.1 ∉ ManifestReader.reserved)
                    ∧ origin_type kv.2 = "function") (origins m).

(** The origin keys outside the reserved set, compute-typed or not. *)
Definition nonReservedOrigins (m : OpenNextManifest)
  : gmap string OpenNextOrigin :=
  filter (fun kv => kv.1 ∉ ManifestReader.reserved) (origins m).

(** Section 4.3 *)
Definition tagCacheDisabled (props : OpenNextCdkProps) (m : OpenNextManifest)
  : bool :=
  bool_decide (props_tagCache props ≫= disabled = Some true)
  || bool_decide (additionalProps m ≫= ap_disableTagCache = Some true).

Definition incrementalCacheDisabled (m : OpenNextManifest) : bool :=
  bool_decide (additionalProps m ≫= ap_disableIncrementalCache = Some true).

Definition seederEligible (props : OpenNextCdkProps) (m : OpenNextManifest)
  : bool :=
  negb (tagCacheDisabled props m)
  && bool_decide (is_Some (additionalProps m ≫= ap_initializationFunction)).

(** What the caller overrides for the server function of an origin key. *)
Definition functionOverride (props : OpenNextCdkProps) (originKey : string)
  : option LambdaFunctionOptions :=
  if String.eqb originKey "default" then props_serverFunction props
  else props_splitFunctions props ≫= (.!! originKey).

(** The environment the caller itself supplies for a function: the one of
    the existing function handed in, else the [environment] override. *)
Definition callerEnvironment (fnOpts : option LambdaFunctionOptions)
  : gmap string EnvValue :=
  match fnOpts ≫= opt_existingFunction with
  | Some existing => environment existing
  | None => spread_environment fnOpts
  end.

(** The rules the caller supplies in [distribution.additionalBehaviors], as
    [Object.assign] copies them. *)
Definition callerBehaviors (props : OpenNextCdkProps)
  : gmap string BehaviorOptions :=
  match props_distribution props ≫= opt_additionalBehaviors with
  | Some extra => delete "__proto__" extra
  | None => ∅
  end.

(** The manifest's [edgeFunctions] map is non-empty. *)
Definition hasEdgeFunctions (m : OpenNextManifest) : bool :=
  match edgeFunctions m with
  | Some efs => bool_decide (0 < size efs)
  | None => false
  end.

(** The split server function the constructor creates for an origin key,
    if it creates one. *)
Definition splitServerAt (rt : NodeRuntime) (props : OpenNextCdkProps)
  (m : OpenNextManifest) (k : string) : option ServerFunction :=
  splitServer rt props m k <$> splitComputeOrigins m !! k.

(** Section 4.4: the catch-all pattern. *)
Definition catchAll (p : string) : bool :=
  String.eqb p "*" || String.eqb p "/*".

(** A behavior whose origin reference resolves to no known role: it has
    no origin reference at all (it names an edge function instead, or
    nothing), or the reference is classified to no role. *)
Definition unresolved (m : OpenNextManifest) (b : OpenNextBehavior) : bool :=
  match origin b with
  | None => true
  | Some k =>
      match classify k (origins m) with
      | Some _ => false
      | None => true
      end
  end.

(** A valid manifest: [origins.default] exists. *)
Definition valid (m : OpenNextManifest) : Prop :=
  is_Some (origins m !! "default").

(** Section 4.1, on the parsed manifest: the three validation failures as
    the specification lists them. *)
Definition field (v : JSON) (k : string) : option JSON :=
  match v with
  | JObject fields => ManifestReader.assoc k fields
  | _ => None
  end.

Definition is_mapping (v : option JSON) : bool :=
  match v with Some (JObject _) => true | _ => false end.

Definition is_list (v : option JSON) : bool :=
  match v with Some (JArray _) => true | _ => false end.

Definition origins_default (manifest : JSON) : option JSON :=
  field manifest "origins" ≫= fun o => field o "default".

Definition absent (v : option JSON) : bool :=
  match v with None => true | Some _ => false end.

(** [origins] missing or not a mapping, [behaviors] missing or not a list,
    [origins.default] absent. *)
Definition invalid_as_specified (manifest : JSON) : bool :=
  negb (is_mapping (field manifest "origins"))
  || negb (is_list (field manifest "behaviors"))
  || absent (origins_default manifest).

(** The same with the third case widened to what the code rejects:
    [origins.default] absent or falsy (null, false, 0, the empty string). *)
Definition invalid (manifest : JSON) : bool :=
  negb (is_mapping (field manifest "origins"))
  || negb (is_list (field manifest "behaviors"))
  || negb (ManifestReader.truthy (origins_default manifest)).

(** When [readManifest] fails, on a given validity test of the parsed
    manifest: the file is absent, or it cannot be read, or it does not
    parse, or the parsed value is invalid. *)
Definition fails (test : JSON -> bool) (rt : NodeRuntime)
  (openNextPath : string) : bool :=
  let manifestPath := path_join rt [openNextPath; "open-next.output.json"] in
  if fs_existsSync rt manifestPath then
    match fs_readFileSync rt manifestPath with
    | Throw _ => true
    | Return raw =>
        match JSON_parse rt raw with
        | inl _ => true
        | inr manifest => test manifest
        end
    end
  else true.

Definition build_step_instruction : string :=
  "Run `npx @opennextjs/aws build` before `cdk synth`.".

(** The same runtime with another reading of the clock. *)
Definition with_clock (rt : NodeRuntime) (now : Z) : NodeRuntime :=
  {| path_join := path_join rt; JSON_parse := JSON_parse rt;
     fs_existsSync := fs_existsSync rt;
     fs_readFileSync := fs_readFileSync rt; Date_now := now |}.

(** The construct with the deploy timestamp of its seeder, if it has one,
    replaced. *)
Definition restamp (timestamp : string) (g : OpenNextCdk) : OpenNextCdk :=
  {| bucket := bucket g;
     distribution := distribution g;
     serverFunctions := serverFunctions g;
     imageOptimizationFunction := imageOptimizationFunction g;
     revalidationFunction := revalidationFunction g;
     revalidationQueue := revalidationQueue g;
     tagCacheTable := tagCacheTable g;
     tagCacheSeederFunction := tagCacheSeederFunction g;
     serverFunctionUrls := serverFunctionUrls g;
     tagCacheSeeder :=
       (fun sd => {| seeder_function := seeder_function sd;
                     deployTimestamp := timestamp |}) <$> tagCacheSeeder g;
     revalidation := revalidation g;
     warnings := warnings g |}.

(** The manifest without the behaviors that fail a test. *)
Definition keep_behaviors (test : OpenNextBehavior -> bool)
  (m : OpenNextManifest) : OpenNextManifest :=
  {| version := version m; routes := routes m; origins := origins m;
     behaviors := List.filter test (behaviors m);
     additionalProps := additionalProps m;
     edgeFunctions := edgeFunctions m |}.

End Spec.

(** ** Notions used to state further properties of the code *)

Module Notions.

(** Every character of [s] passes the test [P]. *)
Fixpoint String_every (P : ascii -> bool) (s : string) : bool :=
  match s with
  | EmptyString => true
  | String c rest => P c && String_every P rest
  end.

(** [s.endsWith('-')] *)
Fixpoint String_endsWith_dash (s : string) : bool :=
  match s with
  | EmptyString => false
  | String c EmptyString => Utils.is_dash c
  | String _ rest => String_endsWith_dash rest
  end.

(** The last character of [s]. *)
Fixpoint String_last (s : string) : option ascii :=
  match s with
  | EmptyString => None
  | String c EmptyString => Some c
  | String _ rest => String_last rest
  end.

(** The characters of a resource name suffix: [[a-zA-Z0-9-]]. *)
Definition suffix_char (c : ascii) : bool := Utils.is_alnum c || Utils.is_dash c.

Definition not_alnum (c : ascii) : bool := negb (Utils.is_alnum c).

(** Dash-separated alphanumeric words: only suffix characters, no dash at
    either end, no two dashes in a row. *)
Definition clean (s : string) : bool :=
  String_every suffix_char s
  && negb (String_startsWith s "-")
  && negb (String_endsWith_dash s)
  && negb (String_includes s "--").

(** The manifest with its behaviors replaced. *)
Definition with_behaviors (bs : list OpenNextBehavior) (m : OpenNextManifest)
  : OpenNextManifest :=
  {| version := version m; routes := routes m; origins := origins m;
     behaviors := bs; additionalProps := additionalProps m;
     edgeFunctions := edgeFunctions m |}.

(** The construct a build returns when the manifest has the default origin
    [o]. *)
Definition built (rt : NodeRuntime) (props : OpenNextCdkProps)
  (m : OpenNextManifest) (o : OpenNextOrigin) : OpenNextCdk :=
  this rt props m o
    (DistributionComponent.assemble (distributionProps rt props m o)
       (HttpOrigin (server_functionUrl (defaultServer rt props m o)))).

Section RuleOf.

Variables (s3Origin imageOptOrigin : IOrigin).
Variables (serverCachePolicy : CachePolicy).
Variables (serverOriginRequestPolicy : OriginRequestPolicy).
Variables (cfFunction : CloudFrontFunction).
Variables (serverOrigins : gmap string IOrigin).
Variables (headersPolicy : ResponseHeadersPolicy).

(** The rule one pass of the loop of [createAdditionalBehaviors] assigns
    for a behavior entry, if it assigns one. *)
Definition ruleOf (b : OpenNextBehavior) : option BehaviorOptions :=
  if Spec.catchAll (pattern b) then None
  else
    match origin b with
    | Some k =>
        if String.eqb k "s3"
        then Some (DistributionComponent.s3Behavior s3Origin)
        else if String.eqb k "imageOptimizer"
        then Some (DistributionComponent.imageBehavior imageOptOrigin
                     serverCachePolicy serverOriginRequestPolicy cfFunction)
        else if String.eqb k EmptyString then None
        else DistributionComponent.splitBehavior serverCachePolicy
               serverOriginRequestPolicy cfFunction headersPolicy
               <$> serverOrigins !! k
    | None => None
    end.

End RuleOf.

End Notions.

(** ** Fixtures: a runtime, manifests and caller props for the examples *)

Module Fixture.

(** A function the caller created elsewhere and hands in. *)
Definition existing_function : LambdaFunction :=
  {| functionName := "my-server"; runtime := NODEJS_22_X;
     architecture := X86_64; handler := "server.handler";
     code := "dist/server"; memorySize := 2048; timeout := 10;
     environment := {[ "STAGE" := EnvString "prod" ]};
     logRetention := 7; tracing := Tracing_DISABLED;
     reservedConcurrentExecutions := None; vpc := None; vpcSubnets := None;
     grants := []; eventSources := [] |}.

Definition q (s : string) : string := dq ++ s ++ dq.

(** [{"origins":{"default":{"type":"function"}},"behaviors":[]}] *)
Definition minimal_text : string :=
  "{" ++ q "origins" ++ ":{" ++ q "default" ++ ":{" ++ q "type" ++ ":"
  ++ q "function" ++ "}}," ++ q "behaviors" ++ ":[]}".

Definition minimal_json : JSON :=
  JObject [("origins",
            JObject [("default", JObject [("type", JString "function")])]);
           ("behaviors", JArray [])].

(** [{"origins":{"default":0},"behaviors":[]}] *)
Definition zero_default_text : string :=
  "{" ++ q "origins" ++ ":{" ++ q "default" ++ ":0}," ++ q "behaviors"
  ++ ":[]}".

Definition zero_default_json : JSON :=
  JObject [("origins", JObject [("default", JNumber 0)]);
           ("behaviors", JArray [])].

(** [{"origins":{"default":{"type":"function"}},"behaviors":[],
     "additionalProps":{"initializationFunction":
       {"handler":"index.handler","bundle":".open-next/dynamodb-provider"}}}] *)
Definition seeder_text : string :=
  "{" ++ q "origins" ++ ":{" ++ q "default" ++ ":{" ++ q "type" ++ ":"
  ++ q "function" ++ "}}," ++ q "behaviors" ++ ":[],"
  ++ q "additionalProps" ++ ":{" ++ q "initializationFunction" ++ ":{"
  ++ q "handler" ++ ":" ++ q "index.handler" ++ "," ++ q "bundle" ++ ":"
  ++ q ".open-next/dynamodb-provider" ++ "}}}".

Definition seeder_json : JSON :=
  JObject [("origins",
            JObject [("default", JObject [("type", JString "function")])]);
           ("behaviors", JArray []);
           ("additionalProps",
            JObject [("initializationFunction",
                      JObject [("handler", JString "index.handler");
                               ("bundle",
                                JString ".open-next/dynamodb-provider")])])].

(** [JSON.parse] on the three texts above; any other text is taken to be
    malformed. *)
Definition parse (raw : string) : string + JSON :=
  if String.eqb raw minimal_text then inr minimal_json
  else if String.eqb raw zero_default_text then inr zero_default_json
  else if String.eqb raw seeder_text then inr seeder_json
  else inl "Unexpected token".

(** The files of a file system holding at most one file, the manifest at
    [app/open-next.output.json]. *)
Definition files (manifestText : option string) (p : string) : option string :=
  if String.eqb p "app/open-next.output.json" then manifestText else None.

Definition ENOENT (p : string) : Exception :=
  Error ("ENOENT: no such file or directory, open '" ++ p ++ "'").

Definition runtime (manifestText : option string) (now : Z) : NodeRuntime :=
  {| path_join := String.concat "/";
     JSON_parse := parse;
     fs_existsSync := fun p => bool_decide (is_Some (files manifestText p));
     fs_readFileSync := fun p =>
       match files manifestText p with
       | Some raw => Return raw
       | None => Throw (ENOENT p)
       end;
     Date_now := now |}.

(** A file system where [app/open-next.output.json] is a directory. *)
Definition EISDIR : Exception :=
  Error "EISDIR: illegal operation on a directory, read".

Definition runtime_with_directory : NodeRuntime :=
  {| path_join := String.concat "/";
     JSON_parse := parse;
     fs_existsSync := fun p => String.eqb p "app/open-next.output.json";
     fs_readFileSync := fun p =>
       if String.eqb p "app/open-next.output.json" then Throw EISDIR
       else Throw (ENOENT p);
     Date_now := 0 |}.

Definition function_origin : OpenNextOrigin :=
  {| origin_type := "function"; origin_copy := None;
     origin_handler := Some "index.handler"; origin_bundle := None;
     origin_streaming := Some true; origin_wrapper := None;
     origin_converter := None; origin_originPath := None |}.

Definition s3_origin : OpenNextOrigin :=
  {| origin_type := "s3";
     origin_copy :=
       Some [ {| copy_from := ".open-next/assets"; copy_to := "/";
                 copy_cached := false; copy_versionedSubDir := None |} ];
     origin_handler := None; origin_bundle := None;
     origin_streaming := None; origin_wrapper := None;
     origin_converter := None; origin_originPath := None |}.

Definition behavior (p : string) (o : string) : OpenNextBehavior :=
  {| pattern := p; origin := Some o; edgeFunction := None |}.

(** The manifest of the basic test fixture: the three reserved origins. *)
Definition basic_manifest (ap : option OpenNextAdditionalProps)
  : OpenNextManifest :=
  {| version := Some "3"; routes := None;
     origins :=
       <["s3" := s3_origin]>
         (<["default" := function_origin]>
            (<["imageOptimizer" := function_origin]> ∅));
     behaviors :=
       [ behavior "_next/static/*" "s3";
         behavior "_next/image" "imageOptimizer";
         behavior "*" "default" ];
     additionalProps := ap; edgeFunctions := None |}.

(** The manifest of the split-function test: one more compute origin. *)
Definition split_manifest : OpenNextManifest :=
  {| version := Some "3"; routes := None;
     origins :=
       <["api" := function_origin]> (origins (basic_manifest None));
     behaviors :=
       [ behavior "_next/static/*" "s3";
         behavior "_next/image" "imageOptimizer";
         behavior "api/*" "api";
         {| pattern := "edge/*"; origin := None;
            edgeFunction := Some "middleware" |};
         behavior "*" "default" ];
     additionalProps := None;
     edgeFunctions :=
       Some {[ "middleware" :=
                 {| edge_handler := "index.handler";
                    edge_bundle := ".open-next/middleware";
                    edge_pathResolver := None |} ]} |}.

(** A manifest with one origin key outside the reserved set that is not
    compute-typed. *)
Definition static_extra_manifest : OpenNextManifest :=
  {| version := Some "3"; routes := None;
     origins := <["docs" := s3_origin]> (origins (basic_manifest None));
     behaviors := behaviors (basic_manifest None);
     additionalProps := None; edgeFunctions := None |}.

Definition additional (tag incremental : option bool) (init : bool)
  : option OpenNextAdditionalProps :=
  Some {| ap_disableTagCache := tag;
          ap_disableIncrementalCache := incremental;
          ap_initializationFunction :=
            if init
            then Some {| base_handler := "index.handler";
                         base_bundle := ".open-next/dynamodb-provider" |}
            else None;
          ap_warmer := None; ap_revalidationFunction := None |}.

Definition with_environment (env : gmap string string)
  : LambdaFunctionOptions :=
  {| opt_memorySize := None; opt_timeout := None; opt_architecture := None;
     opt_environment := Some env; opt_runtime := None;
     opt_existingFunction := None; opt_logRetention := None;
     opt_enableTracing := None; opt_reservedConcurrentExecutions := None;
     opt_vpc := None; opt_vpcSubnets := None |}.

(** [{ openNextPath: 'app', serverFunction, tagCache }] *)
Definition caller (serverFunction : option LambdaFunctionOptions)
  (tagCache : option TagCacheOptions) : OpenNextCdkProps :=
  {| openNextPath := "app"; props_prefix := None;
     props_serverFunction := serverFunction;
     props_imageOptimizationFunction := None; props_splitFunctions := None;
     props_distribution := None; props_waf := None;
     props_cloudfrontLogs := None; props_revalidation := None;
     props_tagCache := tagCache; props_initializationFunction := None;
     props_assetsBucket := None; props_assetsRemovalPolicy := None |}.

Definition tagCache_disabled : option TagCacheOptions :=
  Some {| disabled := Some true; existingTable := None; billingMode := None |}.

Definition with_existing (fn : LambdaFunction) : LambdaFunctionOptions :=
  {| opt_memorySize := None; opt_timeout := None; opt_architecture := None;
     opt_environment := None; opt_runtime := None;
     opt_existingFunction := Some fn; opt_logRetention := None;
     opt_enableTracing := None; opt_reservedConcurrentExecutions := None;
     opt_vpc := None; opt_vpcSubnets := None |}.

(** A rule the caller passes in [distribution.additionalBehaviors]. *)
Definition caller_rule : BehaviorOptions :=
  {| behavior_origin := CallerOrigin "legacy-api";
     viewerProtocolPolicy := Some VIEWER_HTTPS_ONLY;
     allowedMethods := Some ALLOW_GET_HEAD; cachedMethods := None;
     cachePolicy := None; originRequestPolicy := None;
     responseHeadersPolicy := None; compress := None;
     functionAssociations := [] |}.

(** [{ openNextPath: 'app', distribution: { additionalBehaviors } }] *)
Definition caller_with_rules (extra : gmap string BehaviorOptions)
  : OpenNextCdkProps :=
  {| openNextPath := "app"; props_prefix := None;
     props_serverFunction := None;
     props_imageOptimizationFunction := None; props_splitFunctions := None;
     props_distribution :=
       Some {| opt_domainNames := None; opt_certificate := None;
               opt_priceClass := None; cors := None; corsAllowOrigins := None;
               hsts := None; hstsMaxAge := None; cachePolicyOptions := None;
               opt_additionalBehaviors := Some extra;
               geoRestrictionLocations := None |};
     props_waf := None;
     props_cloudfrontLogs := None; props_revalidation := None;
     props_tagCache := None; props_initializationFunction := None;
     props_assetsBucket := None; props_assetsRemovalPolicy := None |}.

(** [{ alarms: { enabled: true, snsTopicArn }, warmer: { enabled: true },
      dns: { hostedZone } }] *)
Definition late : OpenNextCdkLateProps :=
  {| props_alarms :=
       Some {| alarms_enabled := Some true;
               snsTopicArn := Some "arn:aws:sns:us-east-1:123456789012:ops";
               dlqMessageThreshold := None; lambdaErrorThreshold := None;
               cloudfront5xxThreshold := None |};
     props_dns :=
       Some {| hostedZone := {| hostedZoneId := "Z123";
                                zoneName := "example.com" |};
               recordNames := None; evaluateTargetHealth := None |};
     props_warmer :=
       Some {| warmer_enabled := Some true; schedule := None;
               concurrency := None; warmer_functionOptions := None |} |}.

(** A manifest with two compute origins whose keys yield the same resource
    suffix, [a-b]. *)
Definition colliding_manifest : OpenNextManifest :=
  {| version := Some "3"; routes := None;
     origins :=
       <["a/b" := function_origin]>
         (<["a-b" := function_origin]> (origins (basic_manifest None)));
     behaviors := behaviors (basic_manifest None);
     additionalProps := None; edgeFunctions := None |}.

(** A manifest in which two entries carry the pattern [docs/*]: the first
    names the s3 origin, the second an origin the manifest does not have. *)
Definition shadowed_manifest : OpenNextManifest :=
  {| version := Some "3"; routes := None;
     origins := origins (basic_manifest None);
     behaviors :=
       [ behavior "docs/*" "s3";
         behavior "docs/*" "missing";
         behavior "*" "default" ];
     additionalProps := None; edgeFunctions := None |}.

End Fixture.

(** * Proofs *)

Import ManifestReader.

(** Membership in a list given by extension, and its negation. *)
Ltac in_list := repeat constructor.
Ltac not_in_list :=
  rewrite ?not_elem_of_cons; repeat split; try done;
  try apply not_elem_of_nil.

(** ** The tests of the repository, replayed on the model *)

(** [resourceName('opennext', 'server')] and [originKeyToSuffix('api/trpc')],
    the examples of [src/utils.ts]. *)
Example resourceName_example :
  Utils.resourceName (Some "opennext") "server" = "opennext-server"
  /\ Utils.resourceName None "server" = "opennext-server".
Proof. split; reflexivity. Qed.

Example originKeyToSuffix_example :
  Utils.originKeyToSuffix "api/trpc" = "api-trpc"
  /\ Utils.originKeyToSuffix "/_next//data/" = "next-data".
Proof. split; reflexivity. Qed.

(** 'returns empty array when no split functions', 'returns split function
    keys' *)
Example getSplitFunctionOrigins_reserved_only :
  getSplitFunctionOrigins (Fixture.basic_manifest None) = [].
Proof. vm_compute. reflexivity. Qed.

Example getSplitFunctionOrigins_split :
  ∀ k, k ∈ getSplitFunctionOrigins Fixture.split_manifest <-> k = "api".
Proof.
  intros k.
  assert (Hkeys : getSplitFunctionOrigins Fixture.split_manifest = ["api"])
    by (vm_compute; reflexivity).
  rewrite Hkeys, elem_of_cons. split; [|by left].
  intros [Hk|Hk]; [done|destruct (not_elem_of_nil _ Hk)].
Qed.

(** 'normalizes .open-next/ prefix in from paths', 'returns empty array
    when no s3 origin' *)
Example getAssetCopyEntries_normalizes :
  copy_from <$> getAssetCopyEntries (Fixture.basic_manifest None)
  = ["assets"].
Proof. vm_compute. reflexivity. Qed.

Example getAssetCopyEntries_no_s3 :
  getAssetCopyEntries <$> as_OpenNextManifest Fixture.minimal_json
  = Some [].
Proof. vm_compute. reflexivity. Qed.

(** 'returns true when initializationFunction is present', 'returns false
    when additionalProps is missing' *)
Example hasInitializationFunction_present :
  hasInitializationFunction <$> as_OpenNextManifest Fixture.seeder_json
  = Some true.
Proof. vm_compute. reflexivity. Qed.

Example hasInitializationFunction_missing :
  hasInitializationFunction <$> as_OpenNextManifest Fixture.minimal_json
  = Some false.
Proof. vm_compute. reflexivity. Qed.

(** 'reads a valid manifest', 'throws when manifest file does not exist',
    'throws when manifest JSON is invalid' *)
Example readManifest_valid :
  readManifest (Fixture.runtime (Some Fixture.minimal_text) 0) "app"
  = Return Fixture.minimal_json.
Proof. vm_compute. reflexivity. Qed.

Example readManifest_not_found :
  message_of <$> match readManifest (Fixture.runtime None 0) "app" with
                 | Throw e => Some e
                 | Return _ => None
                 end
  = Some ("OpenNext manifest not found at app/open-next.output.json. "
          ++ "Run `npx @opennextjs/aws build` before `cdk synth`.").
Proof. vm_compute. reflexivity. Qed.

Example readManifest_not_json :
  message_of <$> match readManifest (Fixture.runtime (Some "not json") 0)
                         "app" with
                 | Throw e => Some e
                 | Return _ => None
                 end
  = Some ("Failed to parse OpenNext manifest at app/open-next.output.json: "
          ++ "Unexpected token").
Proof. vm_compute. reflexivity. Qed.

(** ** Strings *)

Lemma String_slice_append (a b : string) :
  String_slice (String.length a) (a ++ b) = b.
Proof. induction a as [|c a IH]; simpl; auto. Qed.

Lemma prefix_refl (a : string) : String.prefix a a = true.
Proof.
  induction a as [|c a IH]; simpl; [done|].
  destruct (ascii_dec c c); [done|congruence].
Qed.

Lemma prefix_append (a b : string) : String.prefix a (a ++ b) = true.
Proof.
  induction a as [|c a IH]; simpl.
  - by destruct b.
  - destruct (ascii_dec c c); [done|congruence].
Qed.

Lemma String_slice_length (n : nat) (s : string) :
  String.length (String_slice n s) = (String.length s - n)%nat.
Proof. revert s; induction n as [|n IH]; intros [|c s]; simpl; auto. Qed.

Lemma prefix_length (a b : string) :
  String.prefix a b = true -> (String.length a <= String.length b)%nat.
Proof.
  revert b; induction a as [|c a IH]; intros [|d b]; simpl; try lia; try done.
  destruct (ascii_dec c d); [|done]. intros H%IH. lia.
Qed.

Lemma String_includes_append (a b : string) :
  String_includes (a ++ b) b = true.
Proof.
  induction a as [|c a IH]; simpl.
  - destruct b as [|d b]; simpl; [done|]. rewrite prefix_refl.
    destruct (ascii_dec d d); [done|congruence].
  - rewrite IH. apply orb_true_r.
Qed.

Lemma append_inj_l (p a b : string) : p ++ a = p ++ b -> a = b.
Proof. induction p as [|c p IH]; cbn; [done|]. intros [= H]. by apply IH. Qed.

(** ** [normalizeBundlePath] *)

Lemma normalizeBundlePath_strips (rest : string) :
  normalizeBundlePath (".open-next/" ++ rest) = rest.
Proof.
  unfold normalizeBundlePath, String_startsWith.
  rewrite prefix_append. apply String_slice_append.
Qed.

Lemma normalizeBundlePath_unchanged (p : string) :
  String_startsWith p ".open-next/" = false -> normalizeBundlePath p = p.
Proof. unfold normalizeBundlePath. by intros ->. Qed.

Lemma getAssetCopyEntries_normalized (m : OpenNextManifest)
  (entry : OpenNextCopyEntry) :
  entry ∈ getAssetCopyEntries m ->
  exists s3Origin copy source,
    origins m !! "s3" = Some s3Origin
    /\ origin_copy s3Origin = Some copy
    /\ source ∈ copy
    /\ copy_from entry = normalizeBundlePath (copy_from source)
    /\ copy_to entry = copy_to source.
Proof.
  unfold getAssetCopyEntries.
  destruct (origins m !! "s3") as [s3Origin|]; [|by intros ?%elem_of_nil].
  destruct (origin_copy s3Origin) as [copy|] eqn:Hcopy;
    [|by intros ?%elem_of_nil].
  intros (source & -> & Hin)%list_elem_of_fmap.
  by exists s3Origin, copy, source.
Qed.

(** C8, as the claim states it, fails on a path that carries the prefix
    twice: the second normalization strips the second prefix. *)
Lemma normalizeBundlePath_not_idempotent :
  normalizeBundlePath (normalizeBundlePath ".open-next/.open-next/assets")
  <> normalizeBundlePath ".open-next/.open-next/assets".
Proof. vm_compute. discriminate. Qed.

(** C8 (amended).  Normalization strips one leading [.open-next/] and
    leaves a path without the prefix unchanged; normalizing twice equals
    normalizing once exactly when the path normalized once no longer starts
    with the prefix, so in particular for every path that carries the
    prefix at most once. *)
Theorem normalizeBundlePath_twice (p : string) :
  (normalizeBundlePath (normalizeBundlePath p) = normalizeBundlePath p
   <-> String_startsWith (normalizeBundlePath p) ".open-next/" = false)
  /\ (forall rest, p = ".open-next/" ++ rest -> normalizeBundlePath p = rest)
  /\ (String_startsWith p ".open-next/" = false -> normalizeBundlePath p = p).
Proof.
  split; [|split].
  - split; [|apply normalizeBundlePath_unchanged].
    intros H.
    destruct (String_startsWith (normalizeBundlePath p) _) eqn:E; [|done].
    exfalso. revert H. generalize (normalizeBundlePath p) E. intros s Es.
    unfold normalizeBundlePath. rewrite Es. intros H.
    apply (f_equal String.length) in H. rewrite String_slice_length in H.
    apply prefix_length in Es. simpl in *. lia.
  - intros rest ->. apply normalizeBundlePath_strips.
  - apply normalizeBundlePath_unchanged.
Qed.

Lemma normalizeBundlePath_twice_witness :
  String_startsWith (normalizeBundlePath ".open-next/assets") ".open-next/"
  = false
  /\ normalizeBundlePath (normalizeBundlePath ".open-next/assets")
     = normalizeBundlePath ".open-next/assets"
  /\ normalizeBundlePath ".open-next/assets" = "assets".
Proof.
  split; [reflexivity|]. split.
  - apply (proj1 (normalizeBundlePath_twice ".open-next/assets")).
    reflexivity.
  - apply (proj1 (proj2 (normalizeBundlePath_twice ".open-next/assets"))).
    reflexivity.
Defined.

(** ** [readManifest] *)

Lemma validateManifest_succeeds_iff (manifest : JSON) (manifestPath : string) :
  succeeded (validateManifest manifest manifestPath)
  = negb (Spec.invalid manifest).
Proof.
  unfold validateManifest, Spec.invalid, Spec.origins_default.
  destruct manifest as [| | | | |fields]; try done.
  cbn [js_get Spec.field mbind Result_bind].
  destruct (assoc "origins" fields) as [o|]; [destruct o as [|[]| | | |os]|];
    cbn; try done.
  - by destruct (Qeq_bool x 0).
  - by destruct (s =? EmptyString)%string.
  - destruct (assoc "behaviors" fields) as [[|[]| | | |]|];
      cbn; rewrite ?orb_true_r; done.
  - destruct (assoc "behaviors" fields) as [[|[]| | | |]|];
      cbn; rewrite ?orb_true_r; try done.
    by destruct (truthy (assoc "default" os)).
Qed.

(** C7, as the claim states it, fails on a manifest whose [origins.default]
    is present but falsy: [readManifest] throws although the file exists,
    parses, has a mapping for [origins], a list for [behaviors] and a
    [default] origin. *)
Lemma readManifest_rejects_falsy_default :
  let rt := Fixture.runtime (Some Fixture.zero_default_text) 0 in
  succeeded (readManifest rt "app") = false
  /\ Spec.fails Spec.invalid_as_specified rt "app" = false.
Proof. vm_compute. done. Qed.

(** The manifest path is a directory: [fs.existsSync] answers true and the
    error of [fs.readFileSync] leaves [readManifest] unchanged. *)
Example readManifest_directory :
  readManifest Fixture.runtime_with_directory "app" = Throw Fixture.EISDIR.
Proof. vm_compute. reflexivity. Qed.

(** C7 (amended).  [readManifest] fails if and only if the manifest file
    is absent, the file cannot be read, the JSON is unparsable, [origins]
    is missing or not a mapping, [behaviors] is missing or not a list, or
    [origins.default] is absent or falsy; otherwise it returns the parsed
    manifest.  When the file is absent the message instructs the caller to
    run the build step first; when the file cannot be read the exception
    is the one of [fs.readFileSync]. *)
Theorem readManifest_outcome (rt : NodeRuntime) (openNextPath : string) :
  let manifestPath := path_join rt [openNextPath; "open-next.output.json"] in
  match readManifest rt openNextPath with
  | Throw e =>
      Spec.fails Spec.invalid rt openNextPath = true
      /\ (fs_existsSync rt manifestPath = false ->
          e = Error (not_found_message manifestPath)
          /\ String_includes (message_of e) Spec.build_step_instruction = true)
      /\ (fs_existsSync rt manifestPath = true ->
          forall e', fs_readFileSync rt manifestPath = Throw e' -> e = e')
  | Return manifest =>
      Spec.fails Spec.invalid rt openNextPath = false
      /\ fs_existsSync rt manifestPath = true
      /\ exists raw, fs_readFileSync rt manifestPath = Return raw
                     /\ JSON_parse rt raw = inr manifest
  end.
Proof.
  intros manifestPath. unfold readManifest, Spec.fails. fold manifestPath.
  destruct (fs_existsSync rt manifestPath) eqn:Hexists; cbn [negb].
  - destruct (fs_readFileSync rt manifestPath) as [raw|e0] eqn:Hread;
      cbn [mbind Result_bind].
    + destruct (JSON_parse rt raw) as [err|manifest] eqn:Hparse; [done|].
      pose proof (validateManifest_succeeds_iff manifest manifestPath) as Hv.
      destruct (validateManifest manifest manifestPath) as [[]|e]; cbn in *.
      * split; [by destruct (Spec.invalid manifest)|eauto].
      * split; [by destruct (Spec.invalid manifest)|done].
    + split; [done|]. split; [done|]. by intros _ e' [= <-].
  - split; [done|]. split; [|done]. intros _. split; [done|].
    apply String_includes_append.
Qed.

Lemma readManifest_outcome_witness :
  readManifest (Fixture.runtime (Some Fixture.minimal_text) 0) "app"
  = Return Fixture.minimal_json
  /\ (exists e,
        readManifest (Fixture.runtime None 0) "app" = Throw e
        /\ String_includes (message_of e) Spec.build_step_instruction = true).
Proof.
  split; [reflexivity|].
  pose proof (readManifest_outcome (Fixture.runtime None 0) "app") as H.
  destruct (readManifest (Fixture.runtime None 0) "app") as [|e]; cbn in H.
  - destruct H as [H _]. discriminate H.
  - exists e. split; [reflexivity|]. by apply H.
Defined.

(** ** Loops over lists and maps *)

Lemma for_of_lookup {V : Type} (f : string -> option V)
  (step : gmap string V -> string -> gmap string V) :
  (forall acc x, step acc x = match f x with
                              | Some v => <[x := v]> acc
                              | None => acc
                              end) ->
  forall (l : list string) (init : gmap string V) (k : string),
  for_of l step init !! k
  = if decide (k ∈ l)
    then match f k with Some v => Some v | None => init !! k end
    else init !! k.
Proof.
  intros Hstep l. unfold for_of.
  induction l as [|x l IH]; intros init k; cbn [fold_left].
  - case_decide as Hin; [by apply elem_of_nil in Hin|done].
  - rewrite IH, Hstep.
    assert (Hother : k <> x ->
      (match f x with Some v => <[x:=v]> init | None => init end) !! k
      = init !! k).
    { intros Hne. destruct (f x); [by rewrite lookup_insert_ne|done]. }
    destruct (decide (k = x)) as [->|Hne].
    + rewrite (decide_True (P := x ∈ x :: l)) by left.
      destruct (f x) as [v|]; [rewrite lookup_insert_eq|]; by case_decide.
    + rewrite Hother by done.
      destruct (decide (k ∈ l)) as [Hin|Hin].
      * by rewrite (decide_True (P := k ∈ x :: l)) by (by right).
      * rewrite (decide_False (P := k ∈ x :: l)); [done|].
        by intros [?|?]%elem_of_cons.
Qed.

Lemma fold_left_pairs_lookup {V W : Type} (g : string -> V -> option W)
  (step : gmap string W -> string * V -> gmap string W) :
  (forall acc kv, step acc kv = match g kv.1 kv.2 with
                                | Some w => <[kv.1 := w]> acc
                                | None => acc
                                end) ->
  forall (l : list (string * V)) (init : gmap string W) (k : string),
  NoDup l.*1 ->
  fold_left step l init !! k
  = match (list_to_map l : gmap string V) !! k ≫= g k with
    | Some w => Some w
    | None => init !! k
    end.
Proof.
  intros Hstep l.
  induction l as [|[x v] l IH]; intros init k Hnd; simpl.
  - by rewrite lookup_empty.
  - apply NoDup_cons in Hnd as [Hx Hnd].
    rewrite IH, Hstep by done. simpl.
    destruct (decide (k = x)) as [->|Hne].
    + rewrite lookup_insert_eq.
      rewrite (not_elem_of_list_to_map_1 _ _ Hx). simpl.
      destruct (g x v); [by rewrite lookup_insert_eq|done].
    + rewrite lookup_insert_ne by done.
      destruct (list_to_map l !! k ≫= g k); [done|].
      destruct (g x v); [by rewrite lookup_insert_ne|done].
Qed.

Lemma Map_forEach_lookup {V W : Type} (g : string -> V -> option W)
  (body : gmap string W -> string -> V -> gmap string W) :
  (forall acc key v, body acc key v = match g key v with
                                      | Some w => <[key := w]> acc
                                      | None => acc
                                      end) ->
  forall (m : gmap string V) (init : gmap string W) (k : string),
  Map_forEach m body init !! k
  = match m !! k ≫= g k with Some w => Some w | None => init !! k end.
Proof.
  intros Hbody m init k. unfold Map_forEach.
  rewrite (fold_left_pairs_lookup g).
  - by rewrite list_to_map_to_list.
  - intros acc [key v]. apply Hbody.
  - apply NoDup_fst_map_to_list.
Qed.

(** Entries the loop body skips can be removed from the list. *)
Lemma for_of_filter {A S : Type} (test : A -> bool) (step : S -> A -> S) :
  (forall acc x, test x = false -> step acc x = acc) ->
  forall (l : list A) (init : S),
  for_of l step init = for_of (List.filter test l) step init.
Proof.
  intros Hskip l. unfold for_of.
  induction l as [|x l IH]; intros init; simpl; [done|].
  destruct (test x) eqn:Hx; simpl; [apply IH|].
  rewrite Hskip by done. apply IH.
Qed.

Lemma union_lookup_None_r {V : Type} (a b : gmap string V) (k : string) :
  b !! k = None -> (a ∪ b) !! k = a !! k.
Proof. intros Hb. rewrite lookup_union, Hb. by destruct (a !! k). Qed.

Lemma Record_set_lookup_ne {V : Type} (key k : string) (v : V)
  (obj : gmap string V) :
  key <> k -> Record_set key v obj !! k = obj !! k.
Proof.
  intros Hne. unfold Record_set. case_decide; [done|].
  by rewrite lookup_insert_ne.
Qed.

Lemma Object_assign_lookup {V : Type} (target source : gmap string V)
  (k : string) :
  target !! k = None ->
  Object_assign target source !! k = delete "__proto__" source !! k.
Proof. intros Ht. unfold Object_assign. by apply union_lookup_None_r. Qed.

Lemma Object_keys_elem {V : Type} (o : gmap string V) (k : string) :
  k ∈ Object_keys o <-> is_Some (o !! k).
Proof.
  unfold Object_keys. rewrite list_elem_of_fmap. split.
  - intros [[k' v] [-> Hin]]. apply elem_of_map_to_list in Hin. eauto.
  - intros [v Hv]. exists (k, v). split; [done|]. by apply elem_of_map_to_list.
Qed.

(** ** The split origin keys *)

Lemma getSplitFunctionOrigins_elem (m : OpenNextManifest) (k : string) :
  k ∈ getSplitFunctionOrigins m <-> is_Some (Spec.nonReservedOrigins m !! k).
Proof.
  unfold getSplitFunctionOrigins, Spec.nonReservedOrigins.
  rewrite list_elem_of_filter, Object_keys_elem. split.
  - intros [Hk [o Ho]]. exists o. by apply map_lookup_filter_Some.
  - intros [o [Ho Hk]%map_lookup_filter_Some]. eauto.
Qed.

Lemma default_not_split (m : OpenNextManifest) :
  "default" ∉ getSplitFunctionOrigins m.
Proof.
  unfold getSplitFunctionOrigins. rewrite list_elem_of_filter.
  intros [Hk _]. apply Hk. unfold reserved. in_list.
Qed.

Lemma splitOriginKeys_nonempty (m : OpenNextManifest) :
  0 < length (getSplitFunctionOrigins m) <-> Spec.nonReservedOrigins m <> ∅.
Proof.
  split.
  - intros Hlen Hempty.
    destruct (getSplitFunctionOrigins m) as [|k l] eqn:Hl;
      [simpl in Hlen; lia|].
    assert (Hk : k ∈ getSplitFunctionOrigins m) by (rewrite Hl; left).
    apply getSplitFunctionOrigins_elem in Hk as [o Hk].
    by rewrite Hempty, lookup_empty in Hk.
  - intros [k [o Hk]]%map_choose.
    assert (Hin : k ∈ getSplitFunctionOrigins m)
      by (apply getSplitFunctionOrigins_elem; eauto).
    destruct (getSplitFunctionOrigins m); [by apply elem_of_nil in Hin|].
    simpl. lia.
Qed.

Lemma splitComputeOrigins_lookup (m : OpenNextManifest) (k : string) :
  Spec.splitComputeOrigins m !! k
  = if decide (k ∈ getSplitFunctionOrigins m)
    then match origins m !! k with
         | Some o => if String.eqb (origin_type o) "function"
                     then Some o else None
         | None => None
         end
    else None.
Proof.
  unfold Spec.splitComputeOrigins.
  case_decide as Hin.
  - apply getSplitFunctionOrigins_elem in Hin as [o' Ho'].
    apply map_lookup_filter_Some in Ho' as [Ho Hk]. rewrite Ho. simpl in Hk.
    destruct (String.eqb_spec (origin_type o') "function") as [Ht|Ht].
    + apply map_lookup_filter_Some. done.
    + apply map_lookup_filter_None. right. intros o'' Ho'' [_ Ht'].
      simpl in Ht'. congruence.
  - apply map_lookup_filter_None.
    destruct (origins m !! k) as [o|] eqn:Ho; [right|by left].
    intros o' ? [Hk _]. simplify_eq. apply Hin.
    apply getSplitFunctionOrigins_elem. exists o'.
    by apply map_lookup_filter_Some.
Qed.

Lemma splitCompute_not_default (m : OpenNextManifest) :
  Spec.splitComputeOrigins m !! "default" = None.
Proof.
  apply map_lookup_filter_None. right. intros o _ [Hk _]. apply Hk.
  unfold reserved. in_list.
Qed.

(** ** The server functions the constructor registers *)

Section ServerMaps.

Variable rt : NodeRuntime.
Variable props : OpenNextCdkProps.
Variable m : OpenNextManifest.

Lemma for_of_splitStep_fst (l : list string) (init : ServerMaps) :
  (for_of l (splitStep rt props m) init).1
  = for_of l (fun acc k =>
      match (match origins m !! k with
             | Some o =>
                 if String.eqb (origin_type o) "function"
                 then Some (server_function (splitServer rt props m k o))
                 else None
             | None => None
             end) with
      | Some v => <[k := v]> acc
      | None => acc
      end) init.1.
Proof.
  unfold for_of. revert init.
  induction l as [|x l IH]; intros init; simpl; [done|].
  rewrite IH. f_equal. unfold splitStep.
  destruct (origins m !! x) as [o|]; [|done].
  by destruct (String.eqb (origin_type o) "function").
Qed.

Lemma for_of_splitStep_snd (l : list string) (init : ServerMaps) :
  (for_of l (splitStep rt props m) init).2
  = for_of l (fun acc k =>
      match (match origins m !! k with
             | Some o =>
                 if String.eqb (origin_type o) "function"
                 then Some (server_functionUrl (splitServer rt props m k o))
                 else None
             | None => None
             end) with
      | Some v => <[k := v]> acc
      | None => acc
      end) init.2.
Proof.
  unfold for_of. revert init.
  induction l as [|x l IH]; intros init; simpl; [done|].
  rewrite IH. f_equal. unfold splitStep.
  destruct (origins m !! x) as [o|]; [|done].
  by destruct (String.eqb (origin_type o) "function").
Qed.

Lemma serverMaps_functions (o : OpenNextOrigin) (k : string) :
  (serverMaps rt props m o).1 !! k
  = if decide (k = "default")
    then Some (server_function (defaultServer rt props m o))
    else server_function <$> Spec.splitServerAt rt props m k.
Proof.
  unfold serverMaps, splitOriginKeys, Spec.splitServerAt.
  rewrite for_of_splitStep_fst.
  erewrite for_of_lookup; [|done].
  rewrite splitComputeOrigins_lookup. simpl.
  destruct (decide (k = "default")) as [->|Hne].
  - rewrite decide_False by apply default_not_split.
    by rewrite lookup_insert_eq.
  - rewrite lookup_insert_ne, lookup_empty by done.
    case_decide; [|done].
    destruct (origins m !! k) as [o'|]; [|done].
    by destruct (String.eqb (origin_type o') "function").
Qed.

Lemma serverMaps_urls (o : OpenNextOrigin) (k : string) :
  (serverMaps rt props m o).2 !! k
  = if decide (k = "default")
    then Some (server_functionUrl (defaultServer rt props m o))
    else server_functionUrl <$> Spec.splitServerAt rt props m k.
Proof.
  unfold serverMaps, splitOriginKeys, Spec.splitServerAt.
  rewrite for_of_splitStep_snd.
  erewrite for_of_lookup; [|done].
  rewrite splitComputeOrigins_lookup. simpl.
  destruct (decide (k = "default")) as [->|Hne].
  - rewrite decide_False by apply default_not_split.
    by rewrite lookup_insert_eq.
  - rewrite lookup_insert_ne, lookup_empty by done.
    case_decide; [|done].
    destruct (origins m !! k) as [o'|]; [|done].
    by destruct (String.eqb (origin_type o') "function").
Qed.

Lemma createServerOrigins_lookup (dprops : DistributionComponentProps)
  (k : string) :
  DistributionComponent.createServerOrigins dprops !! k
  = HttpOrigin <$> dc_serverFunctionUrls dprops !! k.
Proof.
  unfold DistributionComponent.createServerOrigins.
  rewrite (Map_forEach_lookup (fun _ fnUrl => Some (HttpOrigin fnUrl)));
    [|done].
  rewrite lookup_empty. by destruct (dc_serverFunctionUrls dprops !! k).
Qed.

Lemma buildOriginMap_lookup (urls : gmap string FunctionUrl) (k : string) :
  buildOriginMap urls !! k
  = if decide (k = "default" \/ k = "__proto__") then None else urls !! k.
Proof.
  unfold buildOriginMap.
  rewrite (Map_forEach_lookup
    (fun key fnUrl => if decide (key = "default" \/ key = "__proto__")
                      then None else Some fnUrl)).
  - rewrite lookup_empty. destruct (urls !! k); simpl; by case_decide.
  - intros acc key v. unfold Record_set.
    destruct (String.eqb_spec key "default") as [Hd|Hd]; cbn [negb];
      destruct (decide (key = "__proto__")) as [Hp|Hp];
      destruct (decide (key = "default" \/ key = "__proto__")) as [Hor|Hor];
      try done; exfalso; tauto.
Qed.

Lemma originMap_lookup (o : OpenNextOrigin) (k : string) :
  buildOriginMap (serverMaps rt props m o).2 !! k
  = if decide (k = "__proto__") then None
    else server_functionUrl <$> Spec.splitServerAt rt props m k.
Proof.
  rewrite buildOriginMap_lookup, serverMaps_urls.
  destruct (decide (k = "default")) as [->|Hd].
  - rewrite decide_True by (by left). rewrite decide_False by done.
    unfold Spec.splitServerAt. by rewrite splitCompute_not_default.
  - destruct (decide (k = "__proto__")) as [->|Hp].
    + by rewrite decide_True by (by right).
    + rewrite decide_False; [done|]. by intros [?|?].
Qed.

(** The constructor succeeds on every valid manifest. *)
Lemma construct_valid (o : OpenNextOrigin) :
  origins m !! "default" = Some o ->
  construct rt props m
  = Return
      (this rt props m o
         (DistributionComponent.assemble (distributionProps rt props m o)
            (HttpOrigin (server_functionUrl (defaultServer rt props m o))))).
Proof.
  intros Ho. unfold construct, DistributionComponent.new. rewrite Ho.
  rewrite createServerOrigins_lookup.
  cbn [dc_serverFunctionUrls distributionProps].
  rewrite serverMaps_urls. by rewrite decide_True.
Qed.

Lemma this_serverFunctions_split (o : OpenNextOrigin) (k : string) :
  k <> "default" ->
  this_serverFunctions rt props m o !! k
  = server_function <$> Spec.splitServerAt rt props m k.
Proof.
  intros Hne. unfold this_serverFunctions.
  case_bool_decide; rewrite ?lookup_insert_ne by done;
    by rewrite serverMaps_functions, decide_False.
Qed.

Lemma this_serverFunctions_default (o : OpenNextOrigin) :
  this_serverFunctions rt props m o !! "default"
  = Some (if bool_decide (Spec.nonReservedOrigins m <> ∅)
          then addEnvironment "OPEN_NEXT_ORIGIN"
                 (EnvLazyJSON (buildOriginMap (serverMaps rt props m o).2))
                 (server_function (defaultServer rt props m o))
          else server_function (defaultServer rt props m o)).
Proof.
  unfold this_serverFunctions, splitOriginKeys.
  rewrite (bool_decide_ext _ _ (splitOriginKeys_nonempty m)).
  case_bool_decide.
  - by rewrite lookup_insert_eq.
  - by rewrite serverMaps_functions, decide_True.
Qed.

(** Every registered server function was created for its key with the
    caller's override for that key; the default one may have received
    OPEN_NEXT_ORIGIN afterwards. *)
Lemma this_serverFunctions_lookup (o : OpenNextOrigin) (k : string)
  (fn : LambdaFunction) :
  this_serverFunctions rt props m o !! k = Some fn ->
  exists (id : string) (oo : OpenNextOrigin) (fn0 : LambdaFunction),
    fn0 = server_function
            (ServerFunction_new rt id
               (serverProps rt props m k oo (Spec.functionOverride props k)))
    /\ (fn = fn0
        \/ exists originMap,
             fn = addEnvironment "OPEN_NEXT_ORIGIN" (EnvLazyJSON originMap) fn0).
Proof.
  destruct (decide (k = "default")) as [->|Hne].
  - rewrite this_serverFunctions_default. intros [= <-].
    exists "ServerFunction", o. eexists. split; [done|].
    case_bool_decide; [right; eauto|by left].
  - rewrite this_serverFunctions_split by done. unfold Spec.splitServerAt.
    destruct (Spec.splitComputeOrigins m !! k) as [oo|]; [|done].
    intros [= <-]. eexists _, oo, _. split; [|by left].
    unfold splitServer, Spec.functionOverride.
    by rewrite (proj2 (String.eqb_neq _ _) Hne).
Qed.

Lemma dom_split_functions (o : OpenNextOrigin) :
  dom (delete "default" (this_serverFunctions rt props m o))
  = dom (Spec.splitComputeOrigins m).
Proof.
  apply set_eq. intros k. rewrite !elem_of_dom.
  destruct (decide (k = "default")) as [->|Hne].
  - rewrite lookup_delete_eq, splitCompute_not_default. done.
  - rewrite lookup_delete_ne, this_serverFunctions_split by done.
    unfold Spec.splitServerAt. by rewrite !fmap_is_Some.
Qed.

End ServerMaps.

Lemma construct_Return (rt : NodeRuntime) (props : OpenNextCdkProps)
  (m : OpenNextManifest) (g : OpenNextCdk) :
  construct rt props m = Return g ->
  exists o,
    origins m !! "default" = Some o
    /\ g = this rt props m o
             (DistributionComponent.assemble (distributionProps rt props m o)
                (HttpOrigin (server_functionUrl (defaultServer rt props m o)))).
Proof.
  intros Hg. destruct (origins m !! "default") as [o|] eqn:Ho.
  - rewrite (construct_valid rt props m o Ho) in Hg. injection Hg as <-. eauto.
  - unfold construct in Hg. by rewrite Ho in Hg.
Qed.

Lemma ServerFunction_functionUrl (rt : NodeRuntime) (id : string)
  (sp : ServerFunctionProps) :
  server_functionUrl (ServerFunction_new rt id sp)
  = {| url_owner := id;
       invokeMode := Some (streaming_invokeMode (sf_origin sp)) |}.
Proof. unfold ServerFunction_new. by case_match. Qed.

(** ** The construct ids of a scope *)

Lemma firstDuplicate_None (ids seen : list string) :
  firstDuplicate seen ids = None
  <-> NoDup ids /\ (forall x, x ∈ ids -> x ∉ seen).
Proof.
  revert seen. induction ids as [|x ids IH]; intros seen; cbn [firstDuplicate].
  - split; [intros _|done]. split; [constructor|]. by intros x ?%elem_of_nil.
  - case_bool_decide as Hx.
    + split; [done|]. intros [_ Hseen]. destruct (Hseen x); [left|done].
    + rewrite IH. split.
      * intros [Hnd Hseen]. split.
        -- constructor; [|done]. intros Hin. apply (Hseen x Hin). left.
        -- intros y [->|Hy]%elem_of_cons; [done|].
           intros Hin. apply (Hseen y Hy). by right.
      * intros [[Hnx Hnd]%NoDup_cons Hseen]. split; [done|].
        intros y Hy [->|Hin]%elem_of_cons; [done|].
        apply (Hseen y); [by right|done].
Qed.

Lemma firstDuplicate_elem (ids seen : list string) (d : string) :
  firstDuplicate seen ids = Some d -> d ∈ ids.
Proof.
  revert seen. induction ids as [|x ids IH]; intros seen; cbn [firstDuplicate];
    [done|].
  case_bool_decide; [intros [= ->]; left|intros ?%IH; by right].
Qed.

(** Ids that do not occur in the list make no difference to the scope. *)
Lemma firstDuplicate_seen (ids seen seen' : list string) :
  (forall x, x ∈ ids -> (x ∈ seen <-> x ∈ seen')) ->
  firstDuplicate seen ids = firstDuplicate seen' ids.
Proof.
  revert seen seen'. induction ids as [|x ids IH]; intros seen seen' Hs;
    cbn [firstDuplicate]; [done|].
  rewrite (bool_decide_ext (x ∈ seen) (x ∈ seen') (Hs x ltac:(left))).
  case_bool_decide; [done|]. apply IH. intros y Hy.
  rewrite !elem_of_cons, (Hs y) by (by right). done.
Qed.

Lemma firstDuplicate_app (l1 l2 seen : list string) :
  firstDuplicate seen (l1 ++ l2)
  = match firstDuplicate seen l1 with
    | Some d => Some d
    | None => firstDuplicate (reverse l1 ++ seen) l2
    end.
Proof.
  revert seen. induction l1 as [|x l1 IH]; intros seen;
    cbn [firstDuplicate app]; [done|].
  case_bool_decide; [done|]. rewrite IH.
  destruct (firstDuplicate (x :: seen) l1); [done|].
  by rewrite reverse_cons, <- app_assoc.
Qed.

(** Between two lists of ids that neither repeat nor meet the middle one,
    only the middle one decides. *)
Lemma firstDuplicate_middle (before middle after : list string) :
  NoDup (before ++ after) ->
  (forall x, x ∈ middle -> (x ∉ before) /\ (x ∉ after)) ->
  firstDuplicate [] (before ++ middle ++ after) = firstDuplicate [] middle.
Proof.
  intros [Hb [Hba Ha]]%NoDup_app Hm.
  rewrite firstDuplicate_app.
  rewrite (proj2 (firstDuplicate_None before [])); cycle 1.
  { split; [done|]. by intros x _ ?%elem_of_nil. }
  rewrite firstDuplicate_app.
  rewrite (firstDuplicate_seen middle _ []); cycle 1.
  { intros x Hx. rewrite app_nil_r, elem_of_reverse.
    split; [intros Hin; by destruct (Hm x Hx)|by intros ?%elem_of_nil]. }
  destruct (firstDuplicate [] middle) eqn:Hmid; [done|].
  apply firstDuplicate_None. split; [done|].
  intros x Hx. rewrite !elem_of_app, !elem_of_reverse, elem_of_nil.
  intros [Hin|[Hin|[]]].
  - by destruct (Hm x Hin).
  - by apply (Hba x).
Qed.

(** The id the loop gives to the split server function of an origin key. *)
Lemma splitIds_elem (m : OpenNextManifest) (x : string) :
  x ∈ splitIds m
  <-> exists k, is_Some (Spec.splitComputeOrigins m !! k)
                /\ x = "ServerFunction-" ++ Utils.originKeyToSuffix k.
Proof.
  unfold splitIds, splitOriginKeys. rewrite list_elem_of_omap. split.
  - intros (k & Hk & Hx). exists k.
    rewrite splitComputeOrigins_lookup, decide_True by done.
    destruct (origins m !! k) as [o|]; [|done].
    destruct (String.eqb (origin_type o) "function"); cbn [negb] in Hx; [|done].
    injection Hx as <-. eauto.
  - intros (k & Hk & ->). exists k.
    rewrite splitComputeOrigins_lookup in Hk.
    case_decide as Hin; [|by destruct Hk]. split; [done|].
    destruct (origins m !! k) as [o|]; [|by destruct Hk].
    destruct (String.eqb (origin_type o) "function"); [done|by destruct Hk].
Qed.

Lemma NoDup_omap_inj {A B : Type} (f : A -> option B) (l : list A)
  (x y : A) (v : B) :
  NoDup (omap f l) -> x ∈ l -> y ∈ l -> f x = Some v -> f y = Some v ->
  x = y.
Proof.
  induction l as [|a l IH]; intros Hnd Hx Hy Hfx Hfy;
    [by apply elem_of_nil in Hx|].
  cbn [omap list_omap] in Hnd. fold (omap f l) in Hnd.
  assert (Hin : forall z, z ∈ l -> f z = Some v -> v ∈ omap f l).
  { intros z Hz Hfz. apply list_elem_of_omap. eauto. }
  apply elem_of_cons in Hx as [->|Hx]; apply elem_of_cons in Hy as [->|Hy].
  - done.
  - rewrite Hfx in Hnd. apply NoDup_cons in Hnd as [Hv _].
    destruct Hv. eauto.
  - rewrite Hfy in Hnd. apply NoDup_cons in Hnd as [Hv _].
    destruct Hv. eauto.
  - apply IH; try done.
    destruct (f a); [by apply NoDup_cons in Hnd as [_ ?]|done].
Qed.

Lemma NoDup_omap {A B : Type} (f : A -> option B) (l : list A) :
  NoDup l ->
  (forall x y v, x ∈ l -> y ∈ l -> f x = Some v -> f y = Some v -> x = y) ->
  NoDup (omap f l).
Proof.
  induction l as [|a l IH]; intros Hnd Hinj; [constructor|].
  cbn [omap list_omap]. fold (omap f l).
  apply NoDup_cons in Hnd as [Ha Hnd].
  assert (Hl : NoDup (omap f l)).
  { apply IH; [done|]. intros x y v Hx Hy. apply Hinj; by right. }
  destruct (f a) as [v|] eqn:Hfa; [|done].
  constructor; [|done].
  intros (y & Hy & Hfy)%list_elem_of_omap. destruct Ha.
  by rewrite (Hinj a y v); [|left|right|done|done].
Qed.

(** The split ids repeat none exactly when no two compute-typed split keys
    have the same suffix. *)
Lemma NoDup_splitIds (m : OpenNextManifest) :
  NoDup (splitIds m)
  <-> forall k1 k2,
        is_Some (Spec.splitComputeOrigins m !! k1) ->
        is_Some (Spec.splitComputeOrigins m !! k2) ->
        Utils.originKeyToSuffix k1 = Utils.originKeyToSuffix k2 -> k1 = k2.
Proof.
  assert (Hf : forall k v,
    match origins m !! k with
    | None => None
    | Some o =>
        if negb (String.eqb (origin_type o) "function") then None
        else Some ("ServerFunction-" ++ Utils.originKeyToSuffix k)
    end = Some v ->
    v = "ServerFunction-" ++ Utils.originKeyToSuffix k).
  { intros k v. destruct (origins m !! k) as [o|]; [|done].
    by destruct (negb _); [|intros [= <-]]. }
  assert (Hk : forall k, is_Some (Spec.splitComputeOrigins m !! k) ->
    k ∈ splitOriginKeys m
    /\ match origins m !! k with
       | None => None
       | Some o =>
           if negb (String.eqb (origin_type o) "function") then None
           else Some ("ServerFunction-" ++ Utils.originKeyToSuffix k)
       end = Some ("ServerFunction-" ++ Utils.originKeyToSuffix k)).
  { intros k. rewrite splitComputeOrigins_lookup. unfold splitOriginKeys.
    case_decide as Hin; [|by intros []%is_Some_None].
    intros Hsome. split; [done|].
    destruct (origins m !! k) as [o|]; [|by destruct Hsome].
    destruct (String.eqb (origin_type o) "function");
      [done|by destruct Hsome]. }
  unfold splitIds. split.
  - intros Hnd k1 k2 [Hin1 Hf1]%Hk [Hin2 Hf2]%Hk Hs.
    apply (NoDup_omap_inj _ _ _ _ _ Hnd Hin1 Hin2 Hf1). by rewrite Hs.
  - intros Hinj. apply NoDup_omap.
    + unfold splitOriginKeys, getSplitFunctionOrigins.
      apply NoDup_filter. unfold Object_keys. apply NoDup_fst_map_to_list.
    + intros x y v Hx Hy Hfx Hfy.
      apply Hinj.
      * rewrite splitComputeOrigins_lookup, decide_True by done.
        destruct (origins m !! x) as [o|]; [|done].
        by destruct (String.eqb (origin_type o) "function").
      * rewrite splitComputeOrigins_lookup, decide_True by done.
        destruct (origins m !! y) as [o|]; [|done].
        by destruct (String.eqb (origin_type o) "function").
      * apply Hf in Hfx, Hfy. rewrite Hfx in Hfy.
        by apply (append_inj_l "ServerFunction-").
Qed.

(** Among the children of [this] only the split server functions can
    repeat an id. *)
Lemma firstDuplicate_childIds (rt : NodeRuntime) (props : OpenNextCdkProps)
  (late : OpenNextCdkLateProps) (m : OpenNextManifest) :
  firstDuplicate [] (childIds rt props late m) = firstDuplicate [] (splitIds m).
Proof.
  assert (Hsplit : forall x before,
    x ∈ splitIds m ->
    Forall (fun fixed => String_startsWith fixed "ServerFunction-" = false)
      before ->
    x ∉ before).
  { intros x before (k & _ & ->)%splitIds_elem Hfixed Hin.
    rewrite Forall_forall in Hfixed. specialize (Hfixed _ Hin).
    unfold String_startsWith in Hfixed. by rewrite prefix_append in Hfixed. }
  unfold childIds.
  destruct (props_assetsBucket props), (seeder rt props m),
    (props_dns late); cbn [app];
  match goal with
  | |- firstDuplicate [] ?l = _ =>
      match l with
      | context C [(splitIds m ++ ?after)%list] =>
          let before := context C [@nil string] in
          change l with (before ++ splitIds m ++ after)%list;
          apply firstDuplicate_middle;
          [ apply (bool_decide_unpack _); vm_compute; exact I
          | intros x Hx; split; apply Hsplit; try done;
            repeat constructor ]
      end
  end.
Qed.

Lemma build_Return (rt : NodeRuntime) (id : string) (props : OpenNextCdkProps)
  (late : OpenNextCdkLateProps) (m : OpenNextManifest) (g : OpenNextCdk)
  (rest : OpenNextCdkLate) :
  build rt id props late m = Return (g, rest) ->
  construct rt props m = Return g
  /\ rest = construct_late rt props late m g
  /\ NoDup (splitIds m).
Proof.
  unfold build.
  destruct (origins m !! "default") as [o|] eqn:Ho; cycle 1.
  { unfold construct. by rewrite Ho. }
  rewrite firstDuplicate_childIds.
  destruct (firstDuplicate [] (splitIds m)) as [d|] eqn:Hd; [done|].
  apply firstDuplicate_None in Hd as [Hnd _].
  destruct (construct rt props m) as [g0|]; [|done]. cbn [mbind Result_bind].
  destruct (firstDuplicate [] _); [done|]. by intros [= <- <-].
Qed.

(** ** Environment variables and grants *)

Lemma environment_addGrant (g : Grant) (fn : LambdaFunction) :
  environment (addGrant g fn) = environment fn.
Proof. done. Qed.

Lemma environment_addEnvironment_ne (key k : string) (v : EnvValue)
  (fn : LambdaFunction) :
  key <> k -> environment (addEnvironment key v fn) !! k = environment fn !! k.
Proof. intros Hne. cbn. by rewrite lookup_insert_ne. Qed.

Section Environment.

Variable rt : NodeRuntime.

Lemma ServerFunction_environment_created (id : string)
  (sp : ServerFunctionProps) :
  sf_functionOptions sp ≫= opt_existingFunction = None ->
  environment (server_function (ServerFunction_new rt id sp))
  = spread_environment (sf_functionOptions sp)
    ∪ (match sf_tagCacheTable sp with
       | Some t => {[ "CACHE_DYNAMO_TABLE" := EnvTableName t ]}
       | None => ∅
       end)
    ∪ {[ "REVALIDATION_QUEUE_URL" := EnvQueueUrl (sf_revalidationQueue sp);
         "REVALIDATION_QUEUE_REGION" := EnvRegion ]}
    ∪ (if sf_disableIncrementalCache sp then ∅
       else {[ "CACHE_BUCKET_NAME" := EnvBucketName (sf_bucket sp);
               "CACHE_BUCKET_KEY_PREFIX" := EnvString "_cache";
               "CACHE_BUCKET_REGION" := EnvRegion ]}).
Proof.
  intros Hnone. unfold ServerFunction_new. rewrite Hnone.
  cbn [server_function].
  destruct (sf_tagCacheTable sp); destruct (sf_disableIncrementalCache sp);
    by rewrite ?environment_addGrant.
Qed.

(** A variable the construct does not set is the caller's. *)
Lemma ServerFunction_environment_caller (id : string)
  (sp : ServerFunctionProps) (k : string) :
  k ∉ ["CACHE_BUCKET_NAME"; "CACHE_BUCKET_KEY_PREFIX"; "CACHE_BUCKET_REGION";
       "REVALIDATION_QUEUE_URL"; "REVALIDATION_QUEUE_REGION"] ->
  (k = "CACHE_DYNAMO_TABLE" -> sf_tagCacheTable sp = None) ->
  environment (server_function (ServerFunction_new rt id sp)) !! k
  = Spec.callerEnvironment (sf_functionOptions sp) !! k.
Proof.
  intros Hk Htable. unfold Spec.callerEnvironment.
  destruct (sf_functionOptions sp ≫= opt_existingFunction) as [f|] eqn:Hex.
  - unfold ServerFunction_new. by rewrite Hex.
  - rewrite ServerFunction_environment_created by done.
    rewrite !union_lookup_None_r; [done| | |].
    + destruct (sf_tagCacheTable sp) as [t|] eqn:Ht; [|done].
      apply lookup_singleton_ne. intros <-. by specialize (Htable eq_refl).
    + rewrite !lookup_insert_ne, lookup_singleton_ne; [done|..];
        intros <-; apply Hk; in_list.
    + destruct (sf_disableIncrementalCache sp); [done|].
      rewrite !lookup_insert_ne, lookup_singleton_ne; [done|..];
        intros <-; apply Hk; in_list.
Qed.

Lemma ServerFunction_created_queue (id : string) (sp : ServerFunctionProps) :
  sf_functionOptions sp = None ->
  let fn := server_function (ServerFunction_new rt id sp) in
  environment fn !! "REVALIDATION_QUEUE_URL"
    = Some (EnvQueueUrl (sf_revalidationQueue sp))
  /\ environment fn !! "REVALIDATION_QUEUE_REGION" = Some EnvRegion
  /\ grantSendMessages (sf_revalidationQueue sp) ∈ grants fn.
Proof.
  intros Hnone fn. subst fn.
  rewrite ServerFunction_environment_created by (by rewrite Hnone).
  rewrite Hnone. unfold ServerFunction_new. rewrite Hnone.
  cbn [mbind option_bind spread_environment server_function].
  destruct (sf_tagCacheTable sp); destruct (sf_disableIncrementalCache sp);
    (split; [done|split; [done|cbn; in_list]]).
Qed.

Lemma ServerFunction_created_no_bucket (id : string)
  (sp : ServerFunctionProps) :
  sf_functionOptions sp = None ->
  sf_disableIncrementalCache sp = true ->
  let fn := server_function (ServerFunction_new rt id sp) in
  environment fn !! "CACHE_BUCKET_NAME" = None
  /\ environment fn !! "CACHE_BUCKET_KEY_PREFIX" = None
  /\ environment fn !! "CACHE_BUCKET_REGION" = None
  /\ forall b, grantReadWrite b ∉ grants fn.
Proof.
  intros Hnone Hdis fn. subst fn.
  rewrite ServerFunction_environment_created by (by rewrite Hnone).
  rewrite Hnone, Hdis. unfold ServerFunction_new. rewrite Hnone, Hdis.
  cbn [mbind option_bind spread_environment server_function].
  destruct (sf_tagCacheTable sp); (repeat split; [done..|]); intros b; cbn;
    not_in_list.
Qed.

Lemma Revalidation_environment_table_None (prefix path : string)
  (b : IBucket) (options : option RevalidationQueueOptions) (k : string) :
  k ∉ ["CACHE_BUCKET_NAME"; "CACHE_BUCKET_KEY_PREFIX"; "CACHE_BUCKET_REGION"] ->
  environment (revalidation_function
                 (Revalidation_new rt prefix path b None options)) !! k
  = spread_environment (options ≫= revalidation_functionOptions) !! k.
Proof.
  intros Hk. cbn. apply union_lookup_None_r.
  rewrite !lookup_insert_ne, lookup_singleton_ne; [done|..];
    intros <-; apply Hk; in_list.
Qed.

Lemma Revalidation_bucket (prefix path : string) (b : IBucket)
  (table : option ITable) (options : option RevalidationQueueOptions) :
  options ≫= revalidation_functionOptions = None ->
  let fn := revalidation_function
              (Revalidation_new rt prefix path b table options) in
  environment fn !! "CACHE_BUCKET_NAME" = Some (EnvBucketName b)
  /\ environment fn !! "CACHE_BUCKET_KEY_PREFIX" = Some (EnvString "_cache")
  /\ environment fn !! "CACHE_BUCKET_REGION" = Some EnvRegion
  /\ grantReadWrite b ∈ grants fn.
Proof.
  intros Hnone fn. subst fn. unfold Revalidation_new. rewrite Hnone.
  cbn [mbind option_bind spread_environment revalidation_function].
  destruct table; cbn; (repeat split; [done..|]); in_list.
Qed.

End Environment.

(** ** Feature flags: the tag cache and its seeder *)

Section Flags.

Variable rt : NodeRuntime.
Variable props : OpenNextCdkProps.
Variable m : OpenNextManifest.

Lemma this_tagCacheTable_None :
  this_tagCacheTable props m = None <-> Spec.tagCacheDisabled props m = true.
Proof.
  unfold this_tagCacheTable, tagCacheOptions, TagCacheTable.
  change (disableTagCache props m) with (Spec.tagCacheDisabled props m).
  destruct (Spec.tagCacheDisabled props m) eqn:Hd; cbn.
  - done.
  - apply orb_false_elim in Hd as [Hcaller _]. rewrite Hcaller.
    by destruct (props_tagCache props ≫= existingTable).
Qed.

Lemma seeder_is_Some :
  is_Some (seeder rt props m) <-> Spec.seederEligible props m = true.
Proof.
  unfold seeder, Spec.seederEligible, hasInitializationFunction.
  pose proof this_tagCacheTable_None as Ht.
  destruct (this_tagCacheTable props m) as [t|].
  - destruct (Spec.tagCacheDisabled props m);
      [by destruct Ht as [_ Ht]; discriminate Ht|].
    cbn. destruct (additionalProps m) as [ap|]; cbn.
    + case_bool_decide; split; (done || by intros []%is_Some_None).
    + split; [by intros []%is_Some_None|done].
  - rewrite (proj1 Ht eq_refl). cbn. split; [by intros []%is_Some_None|done].
Qed.

(** C3.  On every valid manifest the build succeeds, and a seeder resource
    (and the seeder function the construct exposes) exists if and only if
    [seederEligible], where [seederEligible] is [not tagCacheDisabled and
    additionalProps.initializationFunction != null] and [tagCacheDisabled]
    is [tagCache.disabled == true or additionalProps.disableTagCache ==
    true]. *)
Theorem seeder_exists_iff_eligible :
  Spec.valid m ->
  exists g, construct rt props m = Return g
    /\ (is_Some (tagCacheSeeder g) <-> Spec.seederEligible props m = true)
    /\ (is_Some (tagCacheSeederFunction g)
        <-> Spec.seederEligible props m = true).
Proof.
  intros [o Ho]. eexists. split; [by apply construct_valid|].
  cbn [tagCacheSeeder tagCacheSeederFunction this].
  rewrite fmap_is_Some. split; apply seeder_is_Some.
Qed.

(** C4 (amended).  When [tagCacheDisabled] holds, from either source, no
    table and no seeder are produced, and the construct puts
    CACHE_DYNAMO_TABLE on no function: on every default or split server
    function and on the revalidation consumer the variable is exactly what
    the caller's own environment for that function holds (the existing
    function handed in, or the [environment] override), so it is absent
    unless the caller supplies it. *)
Theorem no_cache_table_when_disabled :
  Spec.valid m ->
  Spec.tagCacheDisabled props m = true ->
  exists g, construct rt props m = Return g
    /\ tagCacheTable g = None
    /\ tagCacheSeeder g = None
    /\ (forall k fn, serverFunctions g !! k = Some fn ->
          environment fn !! "CACHE_DYNAMO_TABLE"
          = Spec.callerEnvironment (Spec.functionOverride props k)
              !! "CACHE_DYNAMO_TABLE")
    /\ environment (revalidationFunction g) !! "CACHE_DYNAMO_TABLE"
       = spread_environment
           (props_revalidation props ≫= revalidation_functionOptions)
           !! "CACHE_DYNAMO_TABLE".
Proof.
  intros [o Ho] Hdis. eexists. split; [by apply construct_valid|].
  apply this_tagCacheTable_None in Hdis as Hnone.
  cbn [tagCacheTable tagCacheSeeder serverFunctions revalidationFunction this].
  split; [done|]. split; [|split].
  - unfold seeder. by rewrite Hnone.
  - intros k fn (id & oo & fn0 & -> & Hfn)%this_serverFunctions_lookup.
    assert (Henv : environment fn !! "CACHE_DYNAMO_TABLE"
                   = environment (server_function
                       (ServerFunction_new rt id
                          (serverProps rt props m k oo
                             (Spec.functionOverride props k))))
                     !! "CACHE_DYNAMO_TABLE").
    { destruct Hfn as [->|[originMap ->]]; [done|].
      by apply environment_addEnvironment_ne. }
    rewrite Henv. apply ServerFunction_environment_caller; [not_in_list|done].
  - unfold this_revalidation. rewrite Hnone.
    apply Revalidation_environment_table_None. not_in_list.
Qed.

(** C5.  With no caller override for the server functions and the
    revalidation consumer: when [additionalProps.disableIncrementalCache]
    is true every default or split server function omits the three
    cache-bucket variables and the bucket read-write grant; it receives the
    revalidation-queue URL and region (and the send-message grant) in any
    case; the revalidation consumer receives the cache-bucket variables and
    the bucket read-write grant whatever the flag. *)
Theorem incremental_cache_gating :
  Spec.valid m ->
  (forall k, Spec.functionOverride props k = None) ->
  props_revalidation props ≫= revalidation_functionOptions = None ->
  exists g, construct rt props m = Return g
    /\ (forall k fn, serverFunctions g !! k = Some fn ->
          (Spec.incrementalCacheDisabled m = true ->
             environment fn !! "CACHE_BUCKET_NAME" = None
             /\ environment fn !! "CACHE_BUCKET_KEY_PREFIX" = None
             /\ environment fn !! "CACHE_BUCKET_REGION" = None
             /\ forall b, grantReadWrite b ∉ grants fn)
          /\ environment fn !! "REVALIDATION_QUEUE_URL"
             = Some (EnvQueueUrl (revalidationQueue g))
          /\ environment fn !! "REVALIDATION_QUEUE_REGION" = Some EnvRegion
          /\ grantSendMessages (revalidationQueue g) ∈ grants fn)
    /\ environment (revalidationFunction g) !! "CACHE_BUCKET_NAME"
       = Some (EnvBucketName (bucket g))
    /\ environment (revalidationFunction g) !! "CACHE_BUCKET_KEY_PREFIX"
       = Some (EnvString "_cache")
    /\ environment (revalidationFunction g) !! "CACHE_BUCKET_REGION"
       = Some EnvRegion
    /\ grantReadWrite (bucket g) ∈ grants (revalidationFunction g).
Proof.
  intros [o Ho] Hserver Hreval. eexists. split; [by apply construct_valid|].
  cbn [serverFunctions revalidationFunction revalidationQueue bucket this].
  split; [|by apply Revalidation_bucket].
  intros k fn (id & oo & fn0 & -> & Hfn)%this_serverFunctions_lookup.
  rewrite Hserver in Hfn.
  set (sp := serverProps rt props m k oo None) in *.
  pose proof (ServerFunction_created_queue rt id sp eq_refl)
    as (Hq1 & Hq2 & Hq3).
  destruct Hfn as [->|[originMap ->]].
  - split; [|done]. intros Hdis.
    by apply (ServerFunction_created_no_bucket rt id sp eq_refl).
  - rewrite !environment_addEnvironment_ne by done.
    split; [|done]. intros Hdis.
    by apply (ServerFunction_created_no_bucket rt id sp eq_refl).
Qed.

End Flags.

(** ** Routing rules *)

Section BehaviorStep.

Variables (s3Origin imageOptOrigin : IOrigin).
Variables (cp : CachePolicy) (orp : OriginRequestPolicy).
Variables (cf : CloudFrontFunction).
Variables (serverOrigins : gmap string IOrigin).
Variables (rhp : ResponseHeadersPolicy).

Lemma behaviorStep_lookup_ne (acc : gmap string BehaviorOptions)
  (b : OpenNextBehavior) (p : string) :
  pattern b <> p ->
  DistributionComponent.behaviorStep s3Origin imageOptOrigin cp orp cf
    serverOrigins rhp acc b !! p
  = acc !! p.
Proof.
  intros Hne. unfold DistributionComponent.behaviorStep.
  repeat case_match; try done; by apply Record_set_lookup_ne.
Qed.

Lemma behaviorStep_catchAll (acc : gmap string BehaviorOptions)
  (b : OpenNextBehavior) :
  Spec.catchAll (pattern b) = true ->
  DistributionComponent.behaviorStep s3Origin imageOptOrigin cp orp cf
    serverOrigins rhp acc b
  = acc.
Proof.
  unfold DistributionComponent.behaviorStep, Spec.catchAll. by intros ->.
Qed.

(** A pattern whose entries are all skipped is not a key of the result. *)
Lemma for_of_behaviorStep_None (bs : list OpenNextBehavior) (p : string) :
  (forall b, b ∈ bs -> pattern b = p ->
     forall acc,
       DistributionComponent.behaviorStep s3Origin imageOptOrigin cp orp cf
         serverOrigins rhp acc b = acc) ->
  forall init, init !! p = None ->
  for_of bs
    (DistributionComponent.behaviorStep s3Origin imageOptOrigin cp orp cf
       serverOrigins rhp) init !! p
  = None.
Proof.
  unfold for_of. induction bs as [|b bs IH]; intros Hskip init Hinit; [done|].
  cbn [fold_left]. apply IH.
  - intros b' Hin. apply Hskip. by right.
  - destruct (decide (pattern b = p)) as [Hp|Hp].
    + rewrite (Hskip b); [done|by left|done].
    + by rewrite behaviorStep_lookup_ne.
Qed.

End BehaviorStep.

Section Routing.

Variable rt : NodeRuntime.
Variable props : OpenNextCdkProps.
Variable m : OpenNextManifest.

(** The final rule set at a pattern no manifest entry contributes to. *)
Lemma assemble_lookup_skipped (dprops : DistributionComponentProps)
  (defaultServerOrigin : IOrigin) (p : string) :
  (forall b, b ∈ behaviors (dc_manifest dprops) -> pattern b = p ->
     forall acc,
       DistributionComponent.behaviorStep
         (DistributionComponent.createS3Origin dprops)
         (DistributionComponent.createImageOptimOrigin dprops)
         (DistributionComponent.createCachePolicy (dc_options dprops) dprops)
         (DistributionComponent.createOriginRequestPolicy dprops)
         (DistributionComponent.createCloudFrontFunction dprops)
         (DistributionComponent.createServerOrigins dprops)
         (DistributionComponent.createResponseHeadersPolicy dprops
            (dc_options dprops)) acc b = acc) ->
  additionalBehaviors
    (DistributionComponent.assemble dprops defaultServerOrigin) !! p
  = match dc_options dprops ≫= opt_additionalBehaviors with
    | Some extra => delete "__proto__" extra !! p
    | None => None
    end.
Proof.
  intros Hskip. unfold DistributionComponent.assemble.
  cbn [additionalBehaviors].
  pose proof (for_of_behaviorStep_None _ _ _ _ _ _ _ _ p Hskip ∅
                (lookup_empty _)) as Hnone.
  unfold DistributionComponent.createAdditionalBehaviors.
  destruct (dc_options dprops ≫= opt_additionalBehaviors) as [extra|];
    [by apply Object_assign_lookup|done].
Qed.

(** Removing behaviors the loop body skips leaves the whole construct
    unchanged. *)
Lemma construct_keep_behaviors (test : OpenNextBehavior -> bool)
  (o : OpenNextOrigin) :
  origins m !! "default" = Some o ->
  (forall b acc, test b = false ->
     let dprops := distributionProps rt props m o in
     DistributionComponent.behaviorStep
       (DistributionComponent.createS3Origin dprops)
       (DistributionComponent.createImageOptimOrigin dprops)
       (DistributionComponent.createCachePolicy (dc_options dprops) dprops)
       (DistributionComponent.createOriginRequestPolicy dprops)
       (DistributionComponent.createCloudFrontFunction dprops)
       (DistributionComponent.createServerOrigins dprops)
       (DistributionComponent.createResponseHeadersPolicy dprops
          (dc_options dprops)) acc b = acc) ->
  construct rt props (Spec.keep_behaviors test m) = construct rt props m.
Proof.
  intros Ho Hskip.
  rewrite (construct_valid rt props m o Ho).
  rewrite (construct_valid rt props (Spec.keep_behaviors test m) o Ho).
  f_equal.
  change (this rt props (Spec.keep_behaviors test m) o)
    with (this rt props m o).
  f_equal.
  change (defaultServer rt props (Spec.keep_behaviors test m) o)
    with (defaultServer rt props m o).
  set (dprops' := distributionProps rt props (Spec.keep_behaviors test m) o).
  set (dprops := distributionProps rt props m o).
  assert (Hrules :
    DistributionComponent.createAdditionalBehaviors
      (DistributionComponent.createS3Origin dprops')
      (DistributionComponent.createImageOptimOrigin dprops')
      (DistributionComponent.createCachePolicy (dc_options dprops') dprops')
      (DistributionComponent.createOriginRequestPolicy dprops')
      (DistributionComponent.createCloudFrontFunction dprops')
      (DistributionComponent.createServerOrigins dprops')
      (DistributionComponent.createResponseHeadersPolicy dprops'
         (dc_options dprops')) dprops'
    = DistributionComponent.createAdditionalBehaviors
      (DistributionComponent.createS3Origin dprops)
      (DistributionComponent.createImageOptimOrigin dprops)
      (DistributionComponent.createCachePolicy (dc_options dprops) dprops)
      (DistributionComponent.createOriginRequestPolicy dprops)
      (DistributionComponent.createCloudFrontFunction dprops)
      (DistributionComponent.createServerOrigins dprops)
      (DistributionComponent.createResponseHeadersPolicy dprops
         (dc_options dprops)) dprops).
  { unfold DistributionComponent.createAdditionalBehaviors.
    symmetry. apply (for_of_filter test). intros acc b Hb. by apply Hskip. }
  unfold DistributionComponent.assemble. cbv zeta. rewrite Hrules.
  reflexivity.
Qed.

Lemma callerBehaviors_lookup (dprops : DistributionComponentProps)
  (p : string) :
  dc_options dprops = props_distribution props ->
  match dc_options dprops ≫= opt_additionalBehaviors with
  | Some extra => delete "__proto__" extra !! p
  | None => None
  end = Spec.callerBehaviors props !! p.
Proof.
  intros ->. unfold Spec.callerBehaviors.
  by destruct (props_distribution props ≫= opt_additionalBehaviors).
Qed.

Lemma behaviorStep_unresolved (o : OpenNextOrigin)
  (s3Origin imageOptOrigin : IOrigin) (cp : CachePolicy)
  (orp : OriginRequestPolicy) (cf : CloudFrontFunction)
  (rhp : ResponseHeadersPolicy) (acc : gmap string BehaviorOptions)
  (b : OpenNextBehavior) :
  Spec.unresolved m b = true ->
  DistributionComponent.behaviorStep s3Origin imageOptOrigin cp orp cf
    (DistributionComponent.createServerOrigins
       (distributionProps rt props m o)) rhp acc b
  = acc.
Proof.
  unfold Spec.unresolved, Spec.classify, DistributionComponent.behaviorStep.
  destruct (String.eqb (pattern b) "*" || String.eqb (pattern b) "/*");
    [done|].
  destruct (origin b) as [k|]; [|done].
  destruct (String.eqb_spec k "default") as [->|Hd]; [done|].
  destruct (String.eqb k "s3"); [done|].
  destruct (String.eqb k "imageOptimizer"); [done|].
  destruct (String.eqb k EmptyString); [done|].
  intros Hk. rewrite createServerOrigins_lookup.
  cbn [dc_serverFunctionUrls distributionProps].
  rewrite serverMaps_urls, decide_False by done.
  unfold Spec.splitServerAt. rewrite splitComputeOrigins_lookup.
  case_decide; [|done].
  destruct (origins m !! k) as [o'|]; [|done].
  by destruct (String.eqb (origin_type o') "function").
Qed.

Lemma annotations_hasEdgeFunctions :
  annotations m
  = if Spec.hasEdgeFunctions m then [edge_functions_warning] else [].
Proof.
  unfold annotations, Spec.hasEdgeFunctions.
  destruct (edgeFunctions m) as [efs|]; [|done].
  unfold Object_keys. by rewrite length_fmap, length_map_to_list.
Qed.

(** C1.  On every valid manifest the build succeeds and the default rule
    is bound to the default server function (the function URL registered
    under 'default', owned by the construct [ServerFunction]), allows all
    HTTP methods, and carries the server cache policy (keyed on the Next.js
    headers), the origin-request policy, the response-headers policy and
    the host-rewrite function on viewer request.  No behavior entry with
    a catch-all pattern produces a rule: the rule set holds under '*' and
    '/*' only what the caller supplied, and the build of the manifest with
    those entries removed is the same. *)
Theorem default_rule_and_catch_all :
  Spec.valid m ->
  exists g fnUrl,
    construct rt props m = Return g
    /\ serverFunctionUrls g !! "default" = Some fnUrl
    /\ url_owner fnUrl = "ServerFunction"
    /\ is_Some (serverFunctions g !! "default")
    /\ (let rule := defaultBehavior (distribution g) in
        behavior_origin rule = HttpOrigin fnUrl
        /\ allowedMethods rule = Some ALLOW_ALL
        /\ (exists name d mx mn extra,
              cachePolicy rule
              = Some (ServerCachePolicy name d mx mn
                        (NEXT_CACHE_KEY_HEADERS ++ extra)%list))
        /\ (exists name,
              originRequestPolicy rule
              = Some (ServerOriginRequestPolicy name
                        ["x-forwarded-host"; "accept"; "accept-language"]))
        /\ (exists name sts allowOrigins,
              responseHeadersPolicy rule
              = Some (ResponseHeadersPolicy_new name sts allowOrigins))
        /\ (exists name,
              functionAssociations rule
              = [ {| association_function :=
                       {| cf_functionName := name;
                          cf_code := HOST_HEADER_REWRITE_CODE |};
                     eventType := VIEWER_REQUEST |} ]))
    /\ (forall p, Spec.catchAll p = true ->
          additionalBehaviors (distribution g) !! p
          = (props_distribution props ≫= opt_additionalBehaviors)
              ≫= (.!! p))
    /\ construct rt props
         (Spec.keep_behaviors (fun b => negb (Spec.catchAll (pattern b))) m)
       = Return g.
Proof.
  intros [o Ho]. eexists _, _. split; [by apply construct_valid|].
  cbn [serverFunctionUrls serverFunctions distribution this].
  split; [by rewrite serverMaps_urls, decide_True|].
  split; [by unfold defaultServer, ServerFunction_new; case_match|].
  split; [rewrite this_serverFunctions_default; eauto|].
  split; [|split].
  - cbn. repeat split; eauto 10.
  - intros p Hp. rewrite assemble_lookup_skipped.
    + cbn [dc_options distributionProps].
      destruct (props_distribution props ≫= opt_additionalBehaviors); [|done].
      cbn. apply lookup_delete_ne. by intros <-.
    + intros b _ <- acc. by apply behaviorStep_catchAll.
  - rewrite (construct_keep_behaviors _ o Ho).
    + by apply construct_valid.
    + intros b acc Hb%negb_false_iff dprops. by apply behaviorStep_catchAll.
Qed.

(** C6.  On every valid manifest the build succeeds, whatever its
    behaviors reference.  A behavior entry whose origin reference resolves
    to no known role (it names an edge function instead of an origin, or
    an origin key that is neither reserved nor a compute origin) is
    dropped: the build of the manifest without those entries is the same,
    and a pattern that only such entries carry has no rule but the
    caller's.  The warnings of the build are the single edge-function
    warning when the manifest's [edgeFunctions] map is non-empty and none
    otherwise, whatever the behaviors. *)
Theorem unresolved_behaviors_dropped :
  Spec.valid m ->
  exists g,
    construct rt props m = Return g
    /\ construct rt props
         (Spec.keep_behaviors (fun b => negb (Spec.unresolved m b)) m)
       = Return g
    /\ (forall p,
          (forall b, b ∈ behaviors m -> pattern b = p ->
             Spec.unresolved m b = true) ->
          additionalBehaviors (distribution g) !! p
          = Spec.callerBehaviors props !! p)
    /\ warnings g
       = if Spec.hasEdgeFunctions m then [edge_functions_warning] else [].
Proof.
  intros [o Ho]. eexists. split; [by apply construct_valid|].
  cbn [distribution warnings this].
  split; [|split].
  - rewrite (construct_keep_behaviors _ o Ho).
    + by apply construct_valid.
    + intros b acc Hb%negb_false_iff dprops. by apply behaviorStep_unresolved.
  - intros p Hp. rewrite assemble_lookup_skipped.
    + by apply callerBehaviors_lookup.
    + intros b Hin Hpat acc. apply behaviorStep_unresolved. by apply Hp.
  - apply annotations_hasEdgeFunctions.
Qed.

End Routing.

(** ** Split functions and the split-origin map *)

Section SplitOrigins.

Variable rt : NodeRuntime.
Variable props : OpenNextCdkProps.
Variable m : OpenNextManifest.

(** C2 (amended).  Whenever the constructor returns, the split server
    functions of the construct are exactly one per compute-typed origin key
    outside the three reserved keys, N functions for N such keys, created
    under N different construct ids: the constructor does not return when
    two of the keys yield the same id.  When the manifest has at least one
    origin key outside the reserved set, the default server function's
    OPEN_NEXT_ORIGIN is the deferred JSON of an object that never has the
    key "default" and that, when none of the N keys is [__proto__], has
    exactly those N keys.  With no origin key outside the reserved set the
    construct does not set the variable: it is what the caller's own
    environment for the default server function holds. *)
Theorem split_functions_and_origin_map (id : string)
  (late : OpenNextCdkLateProps) (g : OpenNextCdk) (rest : OpenNextCdkLate) :
  build rt id props late m = Return (g, rest) ->
  (forall k, k <> "default" ->
     serverFunctions g !! k
     = server_function <$> Spec.splitServerAt rt props m k)
  /\ dom (delete "default" (serverFunctions g))
     = dom (Spec.splitComputeOrigins m)
  /\ size (delete "default" (serverFunctions g))
     = size (Spec.splitComputeOrigins m)
  /\ (forall k1 k2 s1 s2,
        Spec.splitServerAt rt props m k1 = Some s1 ->
        Spec.splitServerAt rt props m k2 = Some s2 ->
        url_owner (server_functionUrl s1) = url_owner (server_functionUrl s2) ->
        k1 = k2)
  /\ (Spec.nonReservedOrigins m <> ∅ ->
      exists fn originMap,
        serverFunctions g !! "default" = Some fn
        /\ environment fn !! "OPEN_NEXT_ORIGIN"
           = Some (EnvLazyJSON originMap)
        /\ ("__proto__" ∉ dom (Spec.splitComputeOrigins m) ->
            dom originMap = dom (Spec.splitComputeOrigins m))
        /\ "default" ∉ dom originMap)
  /\ (Spec.nonReservedOrigins m = ∅ ->
      exists fn,
        serverFunctions g !! "default" = Some fn
        /\ environment fn !! "OPEN_NEXT_ORIGIN"
           = Spec.callerEnvironment (props_serverFunction props)
               !! "OPEN_NEXT_ORIGIN").
Proof.
  intros ((o & Ho & ->)%construct_Return & _ & Hids)%build_Return.
  cbn [serverFunctions this].
  split; [by intros; apply this_serverFunctions_split|].
  split; [apply dom_split_functions|].
  split; [by rewrite <- !size_dom, dom_split_functions|].
  split; [|split].
  - intros k1 k2 s1 s2. unfold Spec.splitServerAt.
    destruct (Spec.splitComputeOrigins m !! k1) as [o1|] eqn:Hk1; [|done].
    destruct (Spec.splitComputeOrigins m !! k2) as [o2|] eqn:Hk2; [|done].
    intros [= <-] [= <-] Hid.
    apply (proj1 (NoDup_splitIds m) Hids); [eauto..|].
    apply (append_inj_l "ServerFunction-"). revert Hid.
    unfold splitServer. by rewrite !ServerFunction_functionUrl.
  - intros Hne. eexists _, _. split; [apply this_serverFunctions_default|].
    rewrite bool_decide_eq_true_2 by done.
    split; [cbn; by rewrite lookup_insert_eq|].
    split.
    + intros Hproto. apply set_eq. intros k.
      rewrite !elem_of_dom, originMap_lookup.
      unfold Spec.splitServerAt.
      case_decide as Hk; rewrite ?fmap_is_Some; [|done].
      subst k. rewrite elem_of_dom in Hproto.
      split; [by intros []%is_Some_None|done].
    + rewrite elem_of_dom, originMap_lookup, decide_False by done.
      unfold Spec.splitServerAt. rewrite splitCompute_not_default.
      by intros []%is_Some_None.
  - intros Hempty. eexists. split; [apply this_serverFunctions_default|].
    rewrite bool_decide_eq_false_2 by (by intros []).
    unfold defaultServer.
    apply ServerFunction_environment_caller; [not_in_list|done].
Qed.

(** C10 (amended).  Whether the construct sets OPEN_NEXT_ORIGIN on the
    default server function is decided by the existence of an origin key
    outside the reserved set, not by the creation of a split function.
    With at least one such key the variable is set, and its JSON value
    maps only compute-typed non-reserved keys, each to the URL of the split
    function created for it; it is the empty object when none of the keys
    is compute-typed.  With no such key the construct does not set the
    variable: it is then whatever the caller's own environment for the
    default server function holds, so absent unless the caller supplies
    it. *)
Theorem origin_map_presence :
  Spec.valid m ->
  exists g fn,
    construct rt props m = Return g
    /\ serverFunctions g !! "default" = Some fn
    /\ (Spec.nonReservedOrigins m <> ∅ ->
        exists originMap,
          environment fn !! "OPEN_NEXT_ORIGIN" = Some (EnvLazyJSON originMap)
          /\ (forall k url, originMap !! k = Some url ->
                exists s, Spec.splitServerAt rt props m k = Some s
                          /\ is_Some (Spec.splitComputeOrigins m !! k)
                          /\ serverFunctions g !! k = Some (server_function s)
                          /\ url = server_functionUrl s)
          /\ (Spec.splitComputeOrigins m = ∅ -> originMap = ∅))
    /\ (Spec.nonReservedOrigins m = ∅ ->
        environment fn !! "OPEN_NEXT_ORIGIN"
        = Spec.callerEnvironment (props_serverFunction props)
            !! "OPEN_NEXT_ORIGIN").
Proof.
  intros [o Ho]. eexists _, _. split; [by apply construct_valid|].
  cbn [serverFunctions this].
  split; [apply this_serverFunctions_default|].
  split.
  - intros Hne. rewrite bool_decide_eq_true_2 by done.
    eexists. split; [cbn; by rewrite lookup_insert_eq|]. split.
    + intros k url. rewrite originMap_lookup. case_decide; [done|].
      unfold Spec.splitServerAt at 1.
      destruct (Spec.splitComputeOrigins m !! k) as [o'|] eqn:Hk; [|done].
      intros [= <-]. eexists.
      split; [by unfold Spec.splitServerAt; rewrite Hk|].
      split; [done|]. split; [|done].
      rewrite this_serverFunctions_split.
      * unfold Spec.splitServerAt. by rewrite Hk.
      * intros ->. by rewrite splitCompute_not_default in Hk.
    + intros Hempty. apply map_eq. intros k.
      rewrite originMap_lookup, lookup_empty. unfold Spec.splitServerAt.
      rewrite Hempty, lookup_empty. by case_decide.
  - intros Hempty. rewrite bool_decide_eq_false_2 by (by intros []).
    unfold defaultServer.
    apply ServerFunction_environment_caller; [not_in_list|done].
Qed.

End SplitOrigins.

(** ** Determinism *)

Lemma seeder_with_clock (rt : NodeRuntime) (t : Z) (props : OpenNextCdkProps)
  (m : OpenNextManifest) :
  seeder (Spec.with_clock rt t) props m
  = (fun sd => {| seeder_function := seeder_function sd;
                  deployTimestamp := Number_toString t |})
    <$> seeder rt props m.
Proof.
  unfold seeder. destruct (this_tagCacheTable props m); [|done].
  by destruct (hasInitializationFunction m).
Qed.

Lemma construct_with_clock (rt : NodeRuntime) (t : Z)
  (props : OpenNextCdkProps) (m : OpenNextManifest) :
  construct (Spec.with_clock rt t) props m
  = Spec.restamp (Number_toString t) <$> construct rt props m.
Proof.
  unfold construct. destruct (origins m !! "default") as [o|]; [|done].
  change (distributionProps (Spec.with_clock rt t) props m o)
    with (distributionProps rt props m o).
  destruct (DistributionComponent.new (distributionProps rt props m o));
    [|done].
  cbn. f_equal. unfold this, Spec.restamp. cbn.
  rewrite seeder_with_clock.
  rewrite <- option_fmap_compose. reflexivity.
Qed.

Lemma restamp_no_seeder (ts : string) (g : OpenNextCdk) :
  tagCacheSeeder g = None -> Spec.restamp ts g = g.
Proof. destruct g. cbn. by intros ->. Qed.

(** The steps after the distribution read neither the clock nor the
    seeder. *)
Lemma construct_late_with_clock (rt : NodeRuntime) (t : Z) (ts : string)
  (props : OpenNextCdkProps) (late : OpenNextCdkLateProps)
  (m : OpenNextManifest) (g : OpenNextCdk) :
  construct_late (Spec.with_clock rt t) props late m (Spec.restamp ts g)
  = construct_late rt props late m g.
Proof. reflexivity. Qed.

Lemma childIds_with_clock (rt : NodeRuntime) (t : Z)
  (props : OpenNextCdkProps) (late : OpenNextCdkLateProps)
  (m : OpenNextManifest) :
  childIds (Spec.with_clock rt t) props late m = childIds rt props late m.
Proof.
  unfold childIds. rewrite seeder_with_clock.
  by destruct (seeder rt props m).
Qed.

Lemma build_with_clock (rt : NodeRuntime) (t : Z) (id : string)
  (props : OpenNextCdkProps) (late : OpenNextCdkLateProps)
  (m : OpenNextManifest) :
  build (Spec.with_clock rt t) id props late m
  = (fun out : OpenNextCdk * OpenNextCdkLate =>
       (Spec.restamp (Number_toString t) out.1, out.2))
    <$> build rt id props late m.
Proof.
  unfold build. rewrite childIds_with_clock, construct_with_clock.
  destruct (origins m !! "default") as [o|].
  - destruct (firstDuplicate [] (childIds rt props late m)); [done|].
    destruct (construct rt props m) as [g|]; [|done].
    cbn [fmap Result_fmap mbind Result_bind].
    rewrite construct_late_with_clock.
    by destruct (firstDuplicate [] _).
  - destruct (construct rt props m) as [g|]; [|done].
    cbn [fmap Result_fmap mbind Result_bind].
    rewrite construct_late_with_clock.
    by destruct (firstDuplicate [] _).
Qed.

Lemma build_seeder (rt : NodeRuntime) (id : string)
  (props : OpenNextCdkProps) (late : OpenNextCdkLateProps)
  (m : OpenNextManifest) (g : OpenNextCdk) (rest : OpenNextCdkLate) :
  build rt id props late m = Return (g, rest) ->
  tagCacheSeeder g = seeder rt props m.
Proof.
  intros ((o & _ & ->)%construct_Return & _)%build_Return. done.
Qed.

(** C9 (amended).  The constructor is a function of the manifest file,
    the caller props and the clock: a second invocation at another time
    has the same outcome, with the same resources in all of its steps,
    except for the deploy timestamp of the tag cache seeder.  Without a
    seeder (when [seederEligible] is false) two invocations produce
    identical outputs. *)
Theorem build_deterministic_up_to_timestamp (rt : NodeRuntime) (t : Z)
  (id : string) (props : OpenNextCdkProps) (late : OpenNextCdkLateProps) :
  OpenNextCdk_constructor (Spec.with_clock rt t) id props late
  = (fun r : Result (OpenNextCdk * OpenNextCdkLate) =>
       (fun out : OpenNextCdk * OpenNextCdkLate =>
          (Spec.restamp (Number_toString t) out.1, out.2)) <$> r)
    <$> OpenNextCdk_constructor rt id props late
  /\ (forall g rest,
        OpenNextCdk_constructor rt id props late = Some (Return (g, rest)) ->
        tagCacheSeeder g = None ->
        OpenNextCdk_constructor (Spec.with_clock rt t) id props late
        = Some (Return (g, rest)))
  /\ (forall m, Spec.seederEligible props m = false ->
        build (Spec.with_clock rt t) id props late m
        = build rt id props late m)
  /\ OpenNextCdk_new (Spec.with_clock rt t) props
     = (fun r : Result OpenNextCdk => Spec.restamp (Number_toString t) <$> r)
       <$> OpenNextCdk_new rt props.
Proof.
  assert (Hnew : OpenNextCdk_constructor (Spec.with_clock rt t) id props late
    = (fun r : Result (OpenNextCdk * OpenNextCdkLate) =>
         (fun out : OpenNextCdk * OpenNextCdkLate =>
            (Spec.restamp (Number_toString t) out.1, out.2)) <$> r)
      <$> OpenNextCdk_constructor rt id props late).
  { unfold OpenNextCdk_constructor.
    change (readManifest (Spec.with_clock rt t) (openNextPath props))
      with (readManifest rt (openNextPath props)).
    destruct (readManifest rt (openNextPath props)) as [json|e]; [|done].
    destruct (as_OpenNextManifest json) as [m|]; [|done].
    cbn. by rewrite build_with_clock. }
  split; [done|]. split; [|split].
  - intros g rest Hg Hseeder. rewrite Hnew, Hg. cbn.
    by rewrite restamp_no_seeder.
  - intros m Hel. rewrite build_with_clock.
    destruct (build rt id props late m) as [[g rest]|] eqn:Hg; [|done].
    cbn. do 2 f_equal. apply restamp_no_seeder.
    rewrite (build_seeder _ _ _ _ _ _ _ Hg).
    destruct (seeder rt props m) eqn:Hs; [|done].
    assert (His : is_Some (seeder rt props m)) by (rewrite Hs; eauto).
    apply seeder_is_Some in His. congruence.
  - unfold OpenNextCdk_new.
    change (readManifest (Spec.with_clock rt t) (openNextPath props))
      with (readManifest rt (openNextPath props)).
    destruct (readManifest rt (openNextPath props)) as [json|e]; [|done].
    destruct (as_OpenNextManifest json) as [m|]; [|done].
    cbn. by rewrite construct_with_clock.
Qed.

(** ** The theorems at the fixtures *)

Lemma lookup_nonempty {V : Type} (o : gmap string V) (k : string) (v : V) :
  o !! k = Some v -> o <> ∅.
Proof. intros Hk ->. by rewrite lookup_empty in Hk. Qed.

Lemma construct_default_server (rt : NodeRuntime) (props : OpenNextCdkProps)
  (m : OpenNextManifest) (g : OpenNextCdk) :
  construct rt props m = Return g ->
  is_Some (serverFunctions g !! "default").
Proof.
  unfold construct. destruct (origins m !! "default") as [o|]; [|done].
  destruct (DistributionComponent.new _); [|done].
  cbn. intros [= <-]. cbn. rewrite this_serverFunctions_default. eauto.
Qed.

Lemma caller_no_override (tagCache : option TagCacheOptions) (k : string) :
  Spec.functionOverride (Fixture.caller None tagCache) k = None.
Proof. unfold Spec.functionOverride. by destruct (String.eqb k "default"). Qed.

Lemma default_rule_and_catch_all_witness :
  Spec.valid Fixture.split_manifest
  /\ exists g fnUrl,
       construct (Fixture.runtime None 0) (Fixture.caller None None)
         Fixture.split_manifest = Return g
       /\ serverFunctionUrls g !! "default" = Some fnUrl
       /\ behavior_origin (defaultBehavior (distribution g)) = HttpOrigin fnUrl
       /\ allowedMethods (defaultBehavior (distribution g)) = Some ALLOW_ALL
       /\ additionalBehaviors (distribution g) !! "*" = None.
Proof.
  assert (Hvalid : Spec.valid Fixture.split_manifest)
    by (vm_compute; eauto).
  split; [exact Hvalid|].
  destruct (default_rule_and_catch_all (Fixture.runtime None 0)
              (Fixture.caller None None) Fixture.split_manifest Hvalid)
    as (g & fnUrl & Hg & Hurl & _ & _ & (Ho & Hm & _) & Hstar & _).
  exists g, fnUrl. split; [exact Hg|]. split; [exact Hurl|].
  split; [exact Ho|]. split; [exact Hm|].
  rewrite (Hstar "*" eq_refl). reflexivity.
Defined.

(** C2, as the claim states it, fails on the basic manifest: it has no
    compute origin beyond the reserved ones (N = 0), and the default server
    function has no OPEN_NEXT_ORIGIN variable at all, so there is no
    object to decode. *)
Lemma no_origin_map_without_split_keys :
  let m := Fixture.basic_manifest None in
  size (Spec.splitComputeOrigins m) = 0
  /\ exists g fn,
       construct (Fixture.runtime None 0) (Fixture.caller None None) m
       = Return g
       /\ serverFunctions g !! "default" = Some fn
       /\ environment fn !! "OPEN_NEXT_ORIGIN" = None.
Proof.
  split; [vm_compute; reflexivity|].
  eexists _, _. split; [vm_compute; reflexivity|].
  split; vm_compute; reflexivity.
Qed.

Lemma split_functions_and_origin_map_witness :
  let rt := Fixture.runtime None 0 in
  let props := Fixture.caller None None in
  let m := Fixture.split_manifest in
  let g := Notions.built rt props m Fixture.function_origin in
  let rest := construct_late rt props Fixture.late m g in
  build rt "Test" props Fixture.late m = Return (g, rest)
  /\ Spec.nonReservedOrigins m <> ∅
  /\ size (Spec.splitComputeOrigins m) = 1
  /\ size (delete "default" (serverFunctions g)) = 1
  /\ exists fn originMap,
       serverFunctions g !! "default" = Some fn
       /\ environment fn !! "OPEN_NEXT_ORIGIN" = Some (EnvLazyJSON originMap)
       /\ dom originMap = dom (Spec.splitComputeOrigins m)
       /\ "default" ∉ dom originMap.
Proof.
  intros rt props m g rest.
  assert (Hbuild : build rt "Test" props Fixture.late m = Return (g, rest))
    by (vm_compute; reflexivity).
  assert (Hsplit : Spec.nonReservedOrigins m <> ∅).
  { apply (lookup_nonempty _ "api" Fixture.function_origin).
    vm_compute. reflexivity. }
  assert (Hsize : size (Spec.splitComputeOrigins m) = 1)
    by (vm_compute; reflexivity).
  split; [exact Hbuild|]. split; [exact Hsplit|]. split; [exact Hsize|].
  destruct (split_functions_and_origin_map rt props m "Test" Fixture.late
              g rest Hbuild) as (_ & _ & Hn & _ & Hmap & _).
  destruct (Hmap Hsplit) as (fn & originMap & Hfn & Henv & Hkeys & Hdefault).
  split; [by rewrite Hn|].
  exists fn, originMap. split; [exact Hfn|]. split; [exact Henv|].
  split; [|exact Hdefault].
  apply Hkeys. vm_compute. intros [=].
Defined.

Lemma seeder_exists_iff_eligible_witness :
  let m := Fixture.basic_manifest (Fixture.additional None None true) in
  Spec.valid m
  /\ Spec.seederEligible (Fixture.caller None None) m = true
  /\ exists g,
       construct (Fixture.runtime None 0) (Fixture.caller None None) m
       = Return g
       /\ is_Some (tagCacheSeeder g).
Proof.
  intros m.
  assert (Hvalid : Spec.valid m) by (vm_compute; eauto).
  split; [exact Hvalid|]. split; [vm_compute; reflexivity|].
  destruct (seeder_exists_iff_eligible (Fixture.runtime None 0)
              (Fixture.caller None None) m Hvalid) as (g & Hg & Hs & _).
  exists g. split; [exact Hg|]. apply Hs. vm_compute. reflexivity.
Defined.

(** C4, as the claim states it, fails when the caller's own environment
    override names the variable: the tag cache is disabled, and the
    default server function carries CACHE_DYNAMO_TABLE. *)
Lemma cache_table_variable_from_caller :
  let props :=
    Fixture.caller
      (Some (Fixture.with_environment
               {[ "CACHE_DYNAMO_TABLE" := "my-table" ]}))
      Fixture.tagCache_disabled in
  let m := Fixture.basic_manifest None in
  Spec.tagCacheDisabled props m = true
  /\ exists g fn,
       construct (Fixture.runtime None 0) props m = Return g
       /\ serverFunctions g !! "default" = Some fn
       /\ environment fn !! "CACHE_DYNAMO_TABLE"
          = Some (EnvString "my-table").
Proof.
  split; [vm_compute; reflexivity|].
  eexists _, _. split; [vm_compute; reflexivity|].
  split; vm_compute; reflexivity.
Qed.

Lemma no_cache_table_when_disabled_witness :
  let props := Fixture.caller None Fixture.tagCache_disabled in
  let m := Fixture.basic_manifest (Fixture.additional None None true) in
  Spec.valid m
  /\ Spec.tagCacheDisabled props m = true
  /\ exists g fn,
       construct (Fixture.runtime None 0) props m = Return g
       /\ tagCacheTable g = None
       /\ tagCacheSeeder g = None
       /\ serverFunctions g !! "default" = Some fn
       /\ environment fn !! "CACHE_DYNAMO_TABLE" = None
       /\ environment (revalidationFunction g) !! "CACHE_DYNAMO_TABLE" = None.
Proof.
  intros props m.
  assert (Hvalid : Spec.valid m) by (vm_compute; eauto).
  assert (Hdisabled : Spec.tagCacheDisabled props m = true)
    by (vm_compute; reflexivity).
  split; [exact Hvalid|]. split; [exact Hdisabled|].
  destruct (no_cache_table_when_disabled (Fixture.runtime None 0) props m
              Hvalid Hdisabled) as (g & Hg & Htable & Hseeder & Hfns & Hreval).
  destruct (construct_default_server _ _ _ _ Hg) as [fn Hfn].
  exists g, fn. split; [exact Hg|]. split; [exact Htable|].
  split; [exact Hseeder|]. split; [exact Hfn|].
  split; [by rewrite (Hfns _ _ Hfn)|by rewrite Hreval].
Defined.

Lemma incremental_cache_gating_witness :
  let props := Fixture.caller None None in
  let m := Fixture.basic_manifest (Fixture.additional None (Some true) false) in
  Spec.valid m
  /\ Spec.incrementalCacheDisabled m = true
  /\ (forall k, Spec.functionOverride props k = None)
  /\ props_revalidation props ≫= revalidation_functionOptions = None
  /\ exists g fn,
       construct (Fixture.runtime None 0) props m = Return g
       /\ serverFunctions g !! "default" = Some fn
       /\ environment fn !! "CACHE_BUCKET_NAME" = None
       /\ environment fn !! "REVALIDATION_QUEUE_URL"
          = Some (EnvQueueUrl (revalidationQueue g))
       /\ environment (revalidationFunction g) !! "CACHE_BUCKET_NAME"
          = Some (EnvBucketName (bucket g))
       /\ grantReadWrite (bucket g) ∈ grants (revalidationFunction g).
Proof.
  intros props m.
  assert (Hvalid : Spec.valid m) by (vm_compute; eauto).
  assert (Hflag : Spec.incrementalCacheDisabled m = true)
    by (vm_compute; reflexivity).
  assert (Hreval :
    props_revalidation props ≫= revalidation_functionOptions = None)
    by (vm_compute; reflexivity).
  split; [exact Hvalid|]. split; [exact Hflag|].
  split; [apply caller_no_override|]. split; [exact Hreval|].
  destruct (incremental_cache_gating (Fixture.runtime None 0) props m
              Hvalid (caller_no_override None) Hreval)
    as (g & Hg & Hfns & Hname & _ & _ & Hgrant).
  destruct (construct_default_server _ _ _ _ Hg) as [fn Hfn].
  destruct (Hfns _ _ Hfn) as (Hoff & Hqueue & _).
  destruct (Hoff Hflag) as (Hnone & _).
  exists g, fn. split; [exact Hg|]. split; [exact Hfn|].
  split; [exact Hnone|].
  split; [exact Hqueue|]. split; [exact Hname|exact Hgrant].
Defined.

Lemma unresolved_behaviors_dropped_witness :
  let m := Fixture.split_manifest in
  Spec.valid m
  /\ Spec.hasEdgeFunctions m = true
  /\ exists g,
       construct (Fixture.runtime None 0) (Fixture.caller None None) m
       = Return g
       /\ additionalBehaviors (distribution g) !! "edge/*" = None
       /\ warnings g = [edge_functions_warning].
Proof.
  intros m.
  assert (Hvalid : Spec.valid m) by (vm_compute; eauto).
  split; [exact Hvalid|]. split; [vm_compute; reflexivity|].
  destruct (unresolved_behaviors_dropped (Fixture.runtime None 0)
              (Fixture.caller None None) m Hvalid)
    as (g & Hg & _ & Hdropped & Hwarnings).
  exists g. split; [exact Hg|]. split; [|exact Hwarnings].
  rewrite (Hdropped "edge/*"); [vm_compute; reflexivity|].
  intros b Hin Hp. unfold m in Hin. cbn [behaviors Fixture.split_manifest] in Hin.
  rewrite !elem_of_cons in Hin.
  destruct Hin as [->|[->|[->|[->|[->|Hin]]]]]; try discriminate Hp.
  - vm_compute. reflexivity.
  - destruct (not_elem_of_nil _ Hin).
Defined.

(** C9, as the claim states it, fails when a seeder is built: the same
    manifest file and the same caller props give two different outputs at
    two readings of the clock. *)
Lemma build_depends_on_clock :
  OpenNextCdk_new (Fixture.runtime (Some Fixture.seeder_text) 1)
    (Fixture.caller None None)
  <> OpenNextCdk_new (Fixture.runtime (Some Fixture.seeder_text) 2)
       (Fixture.caller None None).
Proof.
  intros H.
  apply (f_equal (fun r =>
           match r with
           | Some (Return g) => deployTimestamp <$> tagCacheSeeder g
           | _ => None
           end)) in H.
  vm_compute in H. discriminate H.
Qed.

Lemma build_deterministic_up_to_timestamp_witness :
  let rt := Fixture.runtime (Some Fixture.minimal_text) 1 in
  let props := Fixture.caller None None in
  let m := Fixture.basic_manifest None in
  Spec.seederEligible props m = false
  /\ build (Spec.with_clock rt 2) "Test" props Fixture.late m
     = build rt "Test" props Fixture.late m
  /\ OpenNextCdk_constructor (Spec.with_clock rt 2) "Test" props Fixture.late
     = (fun r : Result (OpenNextCdk * OpenNextCdkLate) =>
          (fun out : OpenNextCdk * OpenNextCdkLate =>
             (Spec.restamp "2" out.1, out.2)) <$> r)
       <$> OpenNextCdk_constructor rt "Test" props Fixture.late.
Proof.
  intros rt props m.
  assert (Hno : Spec.seederEligible props m = false)
    by (vm_compute; reflexivity).
  split; [exact Hno|].
  destruct (build_deterministic_up_to_timestamp rt 2 "Test" props
              Fixture.late) as (Hnew & _ & Hsame & _).
  split; [exact (Hsame m Hno)|exact Hnew].
Defined.

(** C10, as the claim states it, fails when the caller's own environment
    override names the variable: the manifest has no origin key outside
    the reserved set, and the default server function carries
    OPEN_NEXT_ORIGIN. *)
Lemma origin_map_variable_from_caller :
  let props :=
    Fixture.caller
      (Some (Fixture.with_environment {[ "OPEN_NEXT_ORIGIN" := "{}" ]}))
      None in
  let m := Fixture.basic_manifest None in
  size (Spec.nonReservedOrigins m) = 0
  /\ exists g fn,
       construct (Fixture.runtime None 0) props m = Return g
       /\ serverFunctions g !! "default" = Some fn
       /\ environment fn !! "OPEN_NEXT_ORIGIN" = Some (EnvString "{}").
Proof.
  split; [vm_compute; reflexivity|].
  eexists _, _. split; [vm_compute; reflexivity|].
  split; vm_compute; reflexivity.
Qed.

Lemma origin_map_presence_witness :
  let m := Fixture.static_extra_manifest in
  Spec.valid m
  /\ Spec.nonReservedOrigins m <> ∅
  /\ Spec.splitComputeOrigins m = ∅
  /\ exists g fn,
       construct (Fixture.runtime None 0) (Fixture.caller None None) m
       = Return g
       /\ serverFunctions g !! "default" = Some fn
       /\ environment fn !! "OPEN_NEXT_ORIGIN" = Some (EnvLazyJSON ∅).
Proof.
  intros m.
  assert (Hvalid : Spec.valid m) by (vm_compute; eauto).
  assert (Hextra : Spec.nonReservedOrigins m <> ∅).
  { apply (lookup_nonempty _ "docs" Fixture.s3_origin).
    vm_compute. reflexivity. }
  assert (Hnone : Spec.splitComputeOrigins m = ∅)
    by (vm_compute; reflexivity).
  split; [exact Hvalid|]. split; [exact Hextra|]. split; [exact Hnone|].
  destruct (origin_map_presence (Fixture.runtime None 0)
              (Fixture.caller None None) m Hvalid)
    as (g & fn & Hg & Hfn & Hset & _).
  destruct (Hset Hextra) as (originMap & Henv & _ & Hempty).
  exists g, fn. split; [exact Hg|]. split; [exact Hfn|].
  by rewrite Henv, (Hempty Hnone).
Defined.

(** * Further properties of the code *)

Import Notions.

(** ** Strings and numbers *)

Lemma length_append (a b : string) :
  String.length (a ++ b) = (String.length a + String.length b)%nat.
Proof. induction a as [|c a IH]; [done|]. simpl. by f_equal. Qed.

Lemma append_inj_r (t a b : string) : a ++ t = b ++ t -> a = b.
Proof.
  revert b. induction a as [|c a IH]; intros [|d b] H; cbn in H.
  - done.
  - apply (f_equal String.length) in H. rewrite !length_append in H.
    cbn in H. lia.
  - apply (f_equal String.length) in H. rewrite !length_append in H.
    cbn in H. lia.
  - injection H as -> H. f_equal. by apply IH.
Qed.

Lemma resourceName_inj (prefix : option string) (a b : string) :
  Utils.resourceName prefix a = Utils.resourceName prefix b -> a = b.
Proof.
  unfold Utils.resourceName. intros H.
  by apply append_inj_l, (append_inj_l "-") in H.
Qed.

Lemma String_last_append (a : string) (c : ascii) (b : string) :
  Notions.String_last (a ++ String c b) = Notions.String_last (String c b).
Proof.
  induction a as [|d a IH]; [done|].
  change (String d a ++ String c b) with (String d (a ++ String c b)).
  destruct (a ++ String c b) eqn:E; [by destruct a|].
  rewrite <- IH. done.
Qed.

Lemma Number_toString_inj (a b : Z) :
  Number_toString a = Number_toString b -> a = b.
Proof.
  unfold Number_toString. intros H.
  apply DecimalZ.to_int_inj.
  apply (f_equal NilEmpty.int_of_string) in H.
  rewrite !NilEmpty.isi in H. by injection H.
Qed.

Lemma String_includes_prefix (a s p : string) :
  String.prefix p s = true -> String_includes (a ++ s) p = true.
Proof.
  intros Hp. induction a as [|c a IH].
  - change (String_includes s p = true).
    destruct s; cbn [String_includes]; by rewrite Hp.
  - change (String_includes (String c (a ++ s)) p = true).
    cbn [String_includes]. rewrite IH. apply orb_true_r.
Qed.

Lemma String_includes_middle (a p b : string) :
  String_includes (a ++ p ++ b) p = true.
Proof. apply String_includes_prefix, prefix_append. Qed.

Lemma prefix_append_r (p x t : string) :
  String.prefix p x = true -> String.prefix p (x ++ t) = true.
Proof.
  revert x. induction p as [|c p IH]; intros x;
    [by destruct x; [destruct t|]|].
  destruct x as [|d x]; [done|].
  change (String d x ++ t) with (String d (x ++ t)). cbn [String.prefix].
  destruct (ascii_dec c d); [apply IH|done].
Qed.

Lemma String_includes_append_r (x t p : string) :
  String_includes x p = true -> String_includes (x ++ t) p = true.
Proof.
  induction x as [|c x IH].
  - cbn [String_includes]. rewrite orb_false_r. intros Hp.
    destruct p; [|done]. by destruct t.
  - change (String c x ++ t) with (String c (x ++ t)).
    cbn [String_includes]. intros [Hp|Hx]%orb_true_iff.
    + apply (prefix_append_r _ _ t) in Hp.
      change (String c x ++ t) with (String c (x ++ t)) in Hp.
      by rewrite Hp.
    + rewrite (IH Hx). apply orb_true_r.
Qed.

(** A list computed from the entries of a map by a function that is
    injective on the keys has no duplicates. *)
Lemma NoDup_fmap_map_to_list {V B : Type} (m : gmap string V)
  (f : string * V -> B) (g : string -> B) :
  (forall k v, m !! k = Some v -> f (k, v) = g k) ->
  (forall k1 k2, is_Some (m !! k1) -> is_Some (m !! k2) ->
     g k1 = g k2 -> k1 = k2) ->
  NoDup (f <$> map_to_list m).
Proof.
  intros Hf Hinj.
  assert (Heq : f <$> map_to_list m = g <$> (map_to_list m).*1).
  { rewrite <- list_fmap_compose. apply list_fmap_ext_in || idtac.
    apply Forall_fmap_ext_1, Forall_forall. intros [k v] Hin.
    apply elem_of_map_to_list in Hin. cbn. by apply Hf. }
  rewrite Heq. apply NoDup_fmap_2_strong; [|apply NoDup_fst_map_to_list].
  intros k1 k2 Hk1 Hk2. apply Hinj.
  - apply list_elem_of_fmap in Hk1 as [[? v] [-> Hin]].
    apply elem_of_map_to_list in Hin. eauto.
  - apply list_elem_of_fmap in Hk2 as [[? v] [-> Hin]].
    apply elem_of_map_to_list in Hin. eauto.
Qed.

(** ** The manifest reader *)

(** X2.  An exception that leaves [readManifest] is the exception
    [fs.readFileSync] threw on the existing manifest path, passed on as it
    is, or an [Error] whose message names the path of the manifest file,
    or a [TypeError]; the [TypeError] arises only from a file that was read
    and whose JSON is [null]: reading [manifest.origins] fails before any
    validation message is built. *)
Theorem readManifest_errors_name_the_path (rt : NodeRuntime)
  (openNextPath : string) (e : Exception) :
  let manifestPath := path_join rt [openNextPath; "open-next.output.json"] in
  readManifest rt openNextPath = Throw e ->
  (fs_existsSync rt manifestPath = true
   /\ fs_readFileSync rt manifestPath = Throw e)
  \/ match e with
     | Error message => String_includes message manifestPath = true
     | TypeError _ =>
         exists raw, fs_existsSync rt manifestPath = true
                     /\ fs_readFileSync rt manifestPath = Return raw
                     /\ JSON_parse rt raw = inr JNull
     end.
Proof.
  intros manifestPath. unfold readManifest. fold manifestPath.
  destruct (fs_existsSync rt manifestPath) eqn:Hexists; cbn [negb].
  2: { intros [= <-]. right. unfold not_found_message.
       apply String_includes_append_r.
       apply (String_includes_middle "OpenNext manifest not found at "). }
  destruct (fs_readFileSync rt manifestPath) as [raw|e0] eqn:Hread;
    cbn [mbind Result_bind]; [|intros [= <-]; by left].
  intros He. right. revert He.
  destruct (JSON_parse rt raw) as [err|manifest] eqn:Hparse.
  { intros [= <-]. unfold parse_failure_message.
    apply (String_includes_middle "Failed to parse OpenNext manifest at "). }
  destruct (validateManifest manifest manifestPath) as [[]|e'] eqn:Hv; [done|].
  cbn. intros [= ->]. revert Hv. unfold validateManifest.
  assert (Hmsg : forall tail,
    String_includes ("Invalid OpenNext manifest at " ++ manifestPath ++ tail)
      manifestPath = true).
  { intros tail.
    apply (String_includes_middle "Invalid OpenNext manifest at "). }
  destruct manifest as [| | | | |fields]; cbn [js_get mbind Result_bind];
    try (cbn; intros [= <-]; apply Hmsg).
  - intros [= <-]. eauto.
  - destruct (assoc "origins" fields) as [ov|];
      [|cbn; intros [= <-]; apply Hmsg].
    destruct (negb (truthy (Some ov)) || negb (typeof_object (Some ov)))
      eqn:Ho; [intros [= <-]; apply Hmsg|].
    destruct (negb (truthy (assoc "behaviors" fields))
              || negb (Array_isArray (assoc "behaviors" fields)));
      [intros [= <-]; apply Hmsg|].
    destruct ov as [| | | | |os]; cbn in Ho; rewrite ?orb_true_r in Ho;
      try discriminate Ho; cbn [js_get mbind Result_bind].
    + cbn. intros [= <-]. apply Hmsg.
    + destruct (negb (truthy (assoc "default" os))); [|done].
      intros [= <-]. apply Hmsg.
Qed.

(** ** Construct ids *)

(** Two compute origins keyed 'a/b' and 'a-b': the second split server
    function repeats the id of the first. *)
Example build_colliding_keys :
  build (Fixture.runtime None 0) "Test" (Fixture.caller None None)
    Fixture.late Fixture.colliding_manifest
  = Throw (Error ("There is already a Construct with name "
                  ++ "'ServerFunction-a-b' in OpenNextCdk [Test]")).
Proof. vm_compute. reflexivity. Qed.





(** ** [originKeyToSuffix] *)

Lemma is_dash_eq c : Utils.is_dash c = true -> c = "-"%char.
Proof. unfold Utils.is_dash. by intros ?%Ascii.eqb_eq. Qed.

Lemma startsWith_dash c s :
  String_startsWith (String c s) "-" = Utils.is_dash c.
Proof.
  unfold String_startsWith, Utils.is_dash. cbn [String.prefix].
  destruct (ascii_dec "-"%char c) as [<-|Hne].
  - by destruct s.
  - symmetry. apply Ascii.eqb_neq. congruence.
Qed.

Lemma includes_dashes_cons c s :
  String_includes (String c s) "--"
  = (Utils.is_dash c && String_startsWith s "-") || String_includes s "--".
Proof.
  cbn [String_includes]. f_equal.
  unfold Utils.is_dash, String_startsWith. cbn [String.prefix].
  destruct (ascii_dec "-"%char c) as [<-|Hne]; [done|].
  symmetry. apply andb_false_iff. left. apply Ascii.eqb_neq. congruence.
Qed.

Lemma replace_every s : String_every suffix_char (Utils.replace_non_alnum s) = true.
Proof.
  induction s as [|c s IH]; [done|]. cbn [Utils.replace_non_alnum String_every].
  rewrite IH, andb_true_r. unfold suffix_char.
  destruct (Utils.is_alnum c) eqn:E; [by rewrite E|]. done.
Qed.

Lemma collapse_every P s :
  String_every P s = true -> String_every P (Utils.collapse_dashes s) = true.
Proof.
  induction s as [|c s IH]; [done|]. cbn [Utils.collapse_dashes String_every].
  intros [Hc Hs]%andb_true_iff. specialize (IH Hs).
  destruct (Utils.is_dash c && _); [done|].
  cbn [String_every]. by rewrite Hc, IH.
Qed.

Lemma collapse_no_double s :
  String_includes (Utils.collapse_dashes s) "--" = false.
Proof.
  induction s as [|c s IH]; [done|]. cbn [Utils.collapse_dashes].
  destruct (Utils.is_dash c && String_startsWith (Utils.collapse_dashes s) "-") eqn:E;
    [done|].
  by rewrite includes_dashes_cons, E, IH.
Qed.

Lemma strip_trailing_every P s :
  String_every P s = true -> String_every P (Utils.strip_trailing_dash s) = true.
Proof.
  induction s as [|c s IH]; [done|]. intros H.
  cbn [Utils.strip_trailing_dash]. destruct s as [|d s].
  - by destruct (Utils.is_dash c).
  - cbn [String_every] in *. apply andb_true_iff in H as [Hc Hs].
    by rewrite Hc, IH.
Qed.

Lemma strip_trailing_empty s :
  Utils.strip_trailing_dash s = EmptyString -> s = EmptyString \/ s = "-".
Proof.
  destruct s as [|c [|d s]]; cbn; [by left| |done].
  destruct (Utils.is_dash c) eqn:E; [|done]. apply is_dash_eq in E as ->. by right.
Qed.

Lemma strip_trailing_startsWith s :
  String_startsWith s "-" = false ->
  String_startsWith (Utils.strip_trailing_dash s) "-" = false.
Proof.
  destruct s as [|c [|d s]]; [done| |].
  - rewrite startsWith_dash. intros Hc. cbn [Utils.strip_trailing_dash].
    rewrite Hc. by rewrite startsWith_dash.
  - cbn [Utils.strip_trailing_dash]. by rewrite !startsWith_dash.
Qed.

Lemma strip_trailing_no_double s :
  String_includes s "--" = false ->
  String_includes (Utils.strip_trailing_dash s) "--" = false.
Proof.
  induction s as [|c s IH]; [done|]. destruct s as [|d s].
  - cbn. by destruct (Utils.is_dash c).
  - change (Utils.strip_trailing_dash (String c (String d s)))
      with (String c (Utils.strip_trailing_dash (String d s))).
    rewrite !includes_dashes_cons with (c := c).
    intros [Hh Ht]%orb_false_iff. rewrite (IH Ht), orb_false_r.
    apply andb_false_iff in Hh as [Hc|Hd]; [by rewrite Hc|].
    by rewrite (strip_trailing_startsWith _ Hd), andb_false_r.
Qed.

Lemma strip_trailing_endsWith s :
  String_includes s "--" = false ->
  String_endsWith_dash (Utils.strip_trailing_dash s) = false.
Proof.
  induction s as [|c s IH]; [done|]. destruct s as [|d s].
  - cbn. by destruct (Utils.is_dash c) eqn:E; cbn; rewrite ?E.
  - change (Utils.strip_trailing_dash (String c (String d s)))
      with (String c (Utils.strip_trailing_dash (String d s))).
    rewrite includes_dashes_cons. intros [Hh Ht]%orb_false_iff.
    specialize (IH Ht).
    destruct (Utils.strip_trailing_dash (String d s)) as [|e r] eqn:Hr.
    + apply strip_trailing_empty in Hr as [Hr|Hr]; [done|].
      injection Hr as -> ->. cbn in Hh. cbn.
      by rewrite andb_true_r in Hh.
    + done.
Qed.

Lemma no_double_tail c s :
  String_includes (String c s) "--" = false -> String_includes s "--" = false.
Proof. rewrite includes_dashes_cons. by intros [_ ?]%orb_false_iff. Qed.

Lemma no_double_second c s :
  String_includes (String c s) "--" = false -> Utils.is_dash c = true ->
  String_startsWith s "-" = false.
Proof.
  rewrite includes_dashes_cons. intros [H _]%orb_false_iff Hc.
  by rewrite Hc in H.
Qed.

Lemma originKeyToSuffix_clean (originKey : string) :
  clean (Utils.originKeyToSuffix originKey) = true.
Proof.
  unfold clean, Utils.originKeyToSuffix.
  pose proof (collapse_every _ _ (replace_every originKey)) as Hev.
  pose proof (collapse_no_double (Utils.replace_non_alnum originKey)) as Hnd.
  revert Hev Hnd.
  generalize (Utils.collapse_dashes (Utils.replace_non_alnum originKey)).
  intros s Hev Hnd. unfold Utils.strip_edge_dashes.
  destruct s as [|c s]; [done|].
  destruct (Utils.is_dash c) eqn:Hc.
  - cbn [String_every] in Hev. apply andb_true_iff in Hev as [_ Hev].
    pose proof (no_double_tail _ _ Hnd) as Hnd'.
    pose proof (no_double_second _ _ Hnd Hc) as Hst.
    by rewrite strip_trailing_every, strip_trailing_startsWith,
      strip_trailing_endsWith, strip_trailing_no_double.
  - rewrite strip_trailing_every, strip_trailing_startsWith,
      strip_trailing_endsWith, strip_trailing_no_double; try done.
    by rewrite startsWith_dash.
Qed.

Lemma replace_clean s :
  String_every suffix_char s = true -> Utils.replace_non_alnum s = s.
Proof.
  induction s as [|c s IH]; [done|]. cbn [String_every Utils.replace_non_alnum].
  intros [Hc Hs]%andb_true_iff. rewrite (IH Hs). f_equal.
  unfold suffix_char in Hc. destruct (Utils.is_alnum c); [done|].
  symmetry. by apply is_dash_eq.
Qed.

Lemma collapse_clean s :
  String_includes s "--" = false -> Utils.collapse_dashes s = s.
Proof.
  induction s as [|c s IH]; [done|]. intros H.
  cbn [Utils.collapse_dashes]. rewrite (IH (no_double_tail _ _ H)).
  rewrite includes_dashes_cons in H. apply orb_false_iff in H as [-> _]. done.
Qed.

Lemma strip_trailing_clean s :
  String_endsWith_dash s = false -> Utils.strip_trailing_dash s = s.
Proof.
  induction s as [|c s IH]; [done|]. destruct s as [|d s].
  - cbn. by intros ->.
  - intros H.
    change (Utils.strip_trailing_dash (String c (String d s)))
      with (String c (Utils.strip_trailing_dash (String d s))).
    f_equal. by apply IH.
Qed.

Lemma strip_edge_clean s :
  String_startsWith s "-" = false -> String_endsWith_dash s = false ->
  Utils.strip_edge_dashes s = s.
Proof.
  destruct s as [|c s]; [done|]. rewrite startsWith_dash. intros Hc He.
  unfold Utils.strip_edge_dashes. rewrite Hc. by apply strip_trailing_clean.
Qed.

Lemma originKeyToSuffix_of_clean (s : string) :
  clean s = true -> Utils.originKeyToSuffix s = s.
Proof.
  unfold clean. intros [[[Hev Hst]%andb_true_iff He]%andb_true_iff Hnd]%andb_true_iff.
  apply negb_true_iff in Hst, He, Hnd.
  unfold Utils.originKeyToSuffix.
  by rewrite replace_clean, collapse_clean, strip_edge_clean.
Qed.

(** X4.  The suffix [originKeyToSuffix] computes is made of letters,
    digits and dashes only, neither starts nor ends with a dash and has no
    two dashes in a row.  An origin key is returned unchanged exactly when
    it already has this form, and the function is idempotent. *)
Theorem originKeyToSuffix_normal_form (originKey : string) :
  let suffix := Utils.originKeyToSuffix originKey in
  (String_every suffix_char suffix = true
   /\ String_startsWith suffix "-" = false
   /\ String_endsWith_dash suffix = false
   /\ String_includes suffix "--" = false)
  /\ (Utils.originKeyToSuffix originKey = originKey
      <-> String_every suffix_char originKey = true
          /\ String_startsWith originKey "-" = false
          /\ String_endsWith_dash originKey = false
          /\ String_includes originKey "--" = false)
  /\ Utils.originKeyToSuffix suffix = suffix.
Proof.
  assert (Hclean : forall s, clean s = true <->
            String_every suffix_char s = true
            /\ String_startsWith s "-" = false
            /\ String_endsWith_dash s = false
            /\ String_includes s "--" = false).
  { intros s. unfold clean. rewrite !andb_true_iff, !negb_true_iff. tauto. }
  intros suffix. split; [|split].
  - apply Hclean, originKeyToSuffix_clean.
  - rewrite <- Hclean. split; [|apply originKeyToSuffix_of_clean].
    intros <-. apply originKeyToSuffix_clean.
  - apply originKeyToSuffix_of_clean, originKeyToSuffix_clean.
Qed.

Lemma dash_not_alnum c : Utils.is_dash c = true -> not_alnum c = true.
Proof. by intros ->%is_dash_eq. Qed.

Lemma replace_not_alnum s :
  String_every not_alnum (Utils.replace_non_alnum s) = String_every not_alnum s.
Proof.
  induction s as [|c s IH]; [done|]. cbn [String_every Utils.replace_non_alnum].
  rewrite IH. f_equal. unfold not_alnum.
  by destruct (Utils.is_alnum c) eqn:E; rewrite ?E.
Qed.

Lemma collapse_not_alnum s :
  String_every not_alnum (Utils.collapse_dashes s) = String_every not_alnum s.
Proof.
  induction s as [|c s IH]; [done|]. cbn [String_every Utils.collapse_dashes].
  destruct (Utils.is_dash c) eqn:Hc; cbn [andb].
  - rewrite (dash_not_alnum _ Hc). cbn [andb].
    destruct (String_startsWith _ _); [done|].
    cbn [String_every]. by rewrite (dash_not_alnum _ Hc), IH.
  - cbn [String_every]. by rewrite IH.
Qed.

Lemma strip_trailing_not_alnum s :
  String_every not_alnum (Utils.strip_trailing_dash s) = String_every not_alnum s.
Proof.
  induction s as [|c s IH]; [done|]. destruct s as [|d s].
  - cbn [Utils.strip_trailing_dash]. destruct (Utils.is_dash c) eqn:Hc; [|done].
    cbn. by rewrite (dash_not_alnum _ Hc).
  - change (Utils.strip_trailing_dash (String c (String d s)))
      with (String c (Utils.strip_trailing_dash (String d s))).
    cbn [String_every] in *. by rewrite IH.
Qed.

Lemma strip_edge_not_alnum s :
  String_every not_alnum (Utils.strip_edge_dashes s) = String_every not_alnum s.
Proof.
  destruct s as [|c s]; [done|]. unfold Utils.strip_edge_dashes.
  destruct (Utils.is_dash c) eqn:Hc; rewrite strip_trailing_not_alnum; [|done].
  cbn [String_every]. by rewrite (dash_not_alnum _ Hc).
Qed.

Lemma originKeyToSuffix_not_alnum s :
  String_every not_alnum (Utils.originKeyToSuffix s) = String_every not_alnum s.
Proof.
  unfold Utils.originKeyToSuffix.
  by rewrite strip_edge_not_alnum, collapse_not_alnum, replace_not_alnum.
Qed.

(** X5.  [originKeyToSuffix] returns the empty string exactly for the
    keys without a letter or digit, the empty key among them. *)
Theorem originKeyToSuffix_empty (originKey : string) :
  Utils.originKeyToSuffix originKey = EmptyString
  <-> String_every not_alnum originKey = true.
Proof.
  rewrite <- originKeyToSuffix_not_alnum.
  pose proof (originKeyToSuffix_clean originKey) as Hclean.
  destruct (Utils.originKeyToSuffix originKey) as [|c s]; [done|].
  split; [done|]. cbn [String_every]. intros [Hc _]%andb_true_iff.
  exfalso. unfold clean in Hclean.
  apply andb_true_iff in Hclean as [[[Hev Hst]%andb_true_iff _]%andb_true_iff _].
  rewrite startsWith_dash in Hst. cbn [String_every] in Hev.
  apply andb_true_iff in Hev as [Hsc _]. unfold suffix_char, not_alnum in *.
  destruct (Utils.is_alnum c); [done|]. cbn in Hsc. by rewrite Hsc in Hst.
Qed.
(** ** The construct a successful build returns *)

Lemma splitComputeOrigins_Some (m : OpenNextManifest) (k : string)
  (o : OpenNextOrigin) :
  Spec.splitComputeOrigins m !! k = Some o ->
  origins m !! k = Some o /\ k <> "default" /\ origin_type o = "function".
Proof.
  intros [Ho [Hk Ht]]%map_lookup_filter_Some. cbn in *.
  split; [done|]. split; [|done]. intros ->. apply Hk. unfold reserved.
  in_list.
Qed.

(** X6.  After a successful build the function URLs and the server
    functions are registered under the same keys.  The URL under a key
    belongs to the construct 'ServerFunction' for the key 'default' and
    'ServerFunction-<suffix of the key>' otherwise, and it streams its
    response exactly when the manifest origin under that key has
    [streaming: true]; this holds as well when the function is one the
    caller handed in. *)
Theorem server_function_urls (rt : NodeRuntime) (props : OpenNextCdkProps)
  (m : OpenNextManifest) (g : OpenNextCdk) :
  construct rt props m = Return g ->
  dom (serverFunctionUrls g) = dom (serverFunctions g)
  /\ forall key fnUrl,
       serverFunctionUrls g !! key = Some fnUrl ->
       exists o,
         origins m !! key = Some o
         /\ url_owner fnUrl
            = (if decide (key = "default") then "ServerFunction"
               else "ServerFunction-" ++ Utils.originKeyToSuffix key)
         /\ invokeMode fnUrl
            = Some (if decide (origin_streaming o = Some true)
                    then RESPONSE_STREAM else BUFFERED).
Proof.
  intros (o & Ho & ->)%construct_Return.
  cbn [serverFunctionUrls serverFunctions this]. split.
  - apply set_eq. intros k. rewrite !elem_of_dom, serverMaps_urls.
    destruct (decide (k = "default")) as [->|Hne].
    + rewrite this_serverFunctions_default. split; eauto.
    + rewrite this_serverFunctions_split by done. by rewrite !fmap_is_Some.
  - intros key fnUrl. rewrite serverMaps_urls.
    destruct (decide (key = "default")) as [->|Hne].
    + intros [= <-]. exists o. split; [done|].
      unfold defaultServer. rewrite ServerFunction_functionUrl. cbn.
      split; [done|]. unfold streaming_invokeMode.
      by case_bool_decide; case_decide.
    + unfold Spec.splitServerAt.
      destruct (Spec.splitComputeOrigins m !! key) as [o'|] eqn:Hk; [|done].
      apply splitComputeOrigins_Some in Hk as (Ho' & _ & _).
      intros [= <-]. exists o'. split; [done|].
      unfold splitServer. rewrite ServerFunction_functionUrl. cbn.
      split; [done|]. unfold streaming_invokeMode.
      by case_bool_decide; case_decide.
Qed.

(** X7.  A function the caller hands in as [existingFunction] is
    registered as it is: the construct gives it no environment variable and
    no grant.  The one exception is the default server function when the
    manifest has an origin key outside the reserved ones: it receives
    OPEN_NEXT_ORIGIN.  An existing image optimization function is never
    touched. *)
Theorem existing_function_untouched (rt : NodeRuntime)
  (props : OpenNextCdkProps) (m : OpenNextManifest) (g : OpenNextCdk) :
  construct rt props m = Return g ->
  (forall key existing fn,
     Spec.functionOverride props key ≫= opt_existingFunction = Some existing ->
     serverFunctions g !! key = Some fn ->
     if decide (key = "default" /\ Spec.nonReservedOrigins m <> ∅)
     then exists originMap,
            fn = addEnvironment "OPEN_NEXT_ORIGIN" (EnvLazyJSON originMap)
                   existing
     else fn = existing)
  /\ (forall existing,
        props_imageOptimizationFunction props ≫= opt_existingFunction
        = Some existing ->
        imageOptimizationFunction g = existing).
Proof.
  intros (o & Ho & ->)%construct_Return.
  cbn [serverFunctions imageOptimizationFunction this]. split.
  - intros key existing fn Hex.
    destruct (decide (key = "default")) as [->|Hne].
    + rewrite this_serverFunctions_default. intros [= <-].
      assert (Hfn : server_function (defaultServer rt props m o) = existing).
      { unfold defaultServer, ServerFunction_new. cbn [sf_functionOptions serverProps].
        unfold Spec.functionOverride in Hex. cbn in Hex. by rewrite Hex. }
      rewrite Hfn. case_bool_decide.
      * rewrite decide_True by done. eauto.
      * rewrite decide_False by tauto. done.
    + rewrite this_serverFunctions_split by done.
      rewrite decide_False by tauto. unfold Spec.splitServerAt.
      destruct (Spec.splitComputeOrigins m !! key) as [o'|]; [|done].
      intros [= <-]. unfold splitServer, ServerFunction_new.
      cbn [sf_functionOptions serverProps].
      unfold Spec.functionOverride in Hex.
      rewrite (proj2 (String.eqb_neq _ _) Hne) in Hex. by rewrite Hex.
  - intros existing Hex. unfold imageOpt, ImageOptimization_new.
    by rewrite Hex.
Qed.

Lemma ServerFunction_created_functionName (rt : NodeRuntime) (id : string)
  (sp : ServerFunctionProps) :
  sf_functionOptions sp ≫= opt_existingFunction = None ->
  functionName (server_function (ServerFunction_new rt id sp))
  = Utils.resourceName (Some (sf_prefix sp))
      (if String.eqb (sf_originKey sp) "default" then "server"
       else sf_originKey sp).
Proof.
  intros Hnone. unfold ServerFunction_new. rewrite Hnone.
  cbn [server_function].
  by destruct (sf_tagCacheTable sp); destruct (sf_disableIncrementalCache sp).
Qed.

Lemma ServerFunction_created_grants (rt : NodeRuntime) (id : string)
  (sp : ServerFunctionProps) :
  sf_functionOptions sp ≫= opt_existingFunction = None ->
  grants (server_function (ServerFunction_new rt id sp))
  = ((if sf_disableIncrementalCache sp then []
      else [grantReadWrite (sf_bucket sp)])
     ++ [grantSendMessages (sf_revalidationQueue sp)]
     ++ match sf_tagCacheTable sp with
        | Some t => [grantReadWriteData t]
        | None => []
        end)%list.
Proof.
  intros Hnone. unfold ServerFunction_new. rewrite Hnone.
  cbn [server_function].
  by destruct (sf_tagCacheTable sp); destruct (sf_disableIncrementalCache sp).
Qed.

(** The server function registered under a key, as the construct created
    it: before OPEN_NEXT_ORIGIN is added to the default one. *)
Lemma serverFunctions_created (rt : NodeRuntime) (props : OpenNextCdkProps)
  (m : OpenNextManifest) (o : OpenNextOrigin) (key : string)
  (fn : LambdaFunction) :
  this_serverFunctions rt props m o !! key = Some fn ->
  exists (id : string) (oo : OpenNextOrigin) (fn0 : LambdaFunction),
    fn0 = server_function
            (ServerFunction_new rt id
               (serverProps rt props m key oo
                  (Spec.functionOverride props key)))
    /\ grants fn = grants fn0
    /\ functionName fn = functionName fn0
    /\ (forall name,
          name <> "OPEN_NEXT_ORIGIN"
          \/ key <> "default" \/ Spec.nonReservedOrigins m = ∅ ->
          environment fn !! name = environment fn0 !! name).
Proof.
  destruct (decide (key = "default")) as [->|Hne].
  - rewrite this_serverFunctions_default. intros [= <-].
    exists "ServerFunction", o. eexists. split; [done|].
    case_bool_decide as Hsplit; [|done].
    split; [done|]. split; [done|].
    intros name [Hname|[?|?]]; [|done..].
    by apply environment_addEnvironment_ne.
  - rewrite this_serverFunctions_split by done. unfold Spec.splitServerAt.
    destruct (Spec.splitComputeOrigins m !! key) as [oo|]; [|done].
    intros [= <-]. eexists _, oo, _. split; [|done].
    unfold splitServer, Spec.functionOverride.
    by rewrite (proj2 (String.eqb_neq _ _) Hne).
Qed.

(** X8.  For a server function the construct creates, every variable of
    the caller's [environment] override has the caller's value, also where
    the construct sets a variable of the same name (the cache bucket, the
    revalidation queue, the tag cache table).  The one exception is
    OPEN_NEXT_ORIGIN on the default server function of a manifest with
    origin keys outside the reserved ones, which the construct adds
    afterwards. *)
Theorem caller_environment_wins (rt : NodeRuntime) (props : OpenNextCdkProps)
  (m : OpenNextManifest) (g : OpenNextCdk) (key name value : string)
  (fn : LambdaFunction) :
  construct rt props m = Return g ->
  serverFunctions g !! key = Some fn ->
  Spec.functionOverride props key ≫= opt_existingFunction = None ->
  (Spec.functionOverride props key ≫= opt_environment) ≫= (.!! name)
  = Some value ->
  (key = "default" -> name = "OPEN_NEXT_ORIGIN" ->
   Spec.nonReservedOrigins m = ∅) ->
  environment fn !! name = Some (EnvString value).
Proof.
  intros (o & Ho & ->)%construct_Return. cbn [serverFunctions this].
  intros (id & oo & fn0 & -> & _ & _ & Henv)%serverFunctions_created
    Hnone Hvalue Hdefault.
  rewrite Henv.
  2: { destruct (decide (name = "OPEN_NEXT_ORIGIN")) as [->|?]; [|by left].
       destruct (decide (key = "default")) as [->|?]; [|by right; left].
       right. right. by apply Hdefault. }
  rewrite ServerFunction_environment_created by done.
  cbn [sf_functionOptions serverProps].
  rewrite <- !(assoc_L (∪)). apply lookup_union_Some_l.
  unfold spread_environment.
  destruct (Spec.functionOverride props key ≫= opt_environment) as [env|];
    [|done].
  cbn in Hvalue. by rewrite lookup_fmap, Hvalue.
Qed.

(** X10.  The revalidation consumer is subscribed to the revalidation
    queue and to nothing else, in batches of 5 with partial batch
    responses.  The visibility timeout of the queue is six times the
    timeout of the consumer, whatever timeout the caller chooses.  The
    queue sends to the dead-letter queue after 3 receives; both queues are
    FIFO, share one encryption key and have different names; the consumer
    may read and write the assets bucket. *)
Theorem revalidation_wiring (rt : NodeRuntime) (props : OpenNextCdkProps)
  (m : OpenNextManifest) (g : OpenNextCdk) :
  construct rt props m = Return g ->
  let queue := revalidationQueue g in
  let dlq := revalidation_dlq (revalidation g) in
  let consumer := revalidationFunction g in
  eventSources consumer = [SqsEventSource queue 5 true]
  /\ visibilityTimeoutSeconds queue = Some (timeout consumer * 6)%Z
  /\ deadLetterQueue queue = Some (queueName dlq, 3%Z)
  /\ deadLetterQueue dlq = None
  /\ encryptionMasterKey queue = encryptionMasterKey dlq
  /\ fifo queue = true /\ fifo dlq = true
  /\ queueName queue <> queueName dlq
  /\ grantReadWrite (bucket g) ∈ grants consumer.
Proof.
  intros (o & Ho & ->)%construct_Return queue dlq consumer.
  subst queue dlq consumer.
  cbn [revalidationQueue revalidation revalidationFunction bucket this].
  unfold this_revalidationQueue, this_revalidation, Revalidation_new.
  cbn [revalidation_queue revalidation_dlq revalidation_function].
  repeat split.
  - by destruct (this_tagCacheTable props m).
  - by destruct (this_tagCacheTable props m).
  - cbn [queueName]. by intros H%append_inj_r%resourceName_inj.
  - destruct (this_tagCacheTable props m); cbn; in_list.
Qed.

(** X11.  The image optimization function the construct creates has read
    access to the assets bucket and no other grant.  Unless the caller's
    environment override sets them, BUCKET_NAME names the assets bucket
    and BUCKET_KEY_PREFIX is the [originPath] of the manifest's s3 origin,
    or the empty string when the manifest has none. *)
Theorem image_optimizer_reads_assets (rt : NodeRuntime)
  (props : OpenNextCdkProps) (m : OpenNextManifest) (g : OpenNextCdk) :
  construct rt props m = Return g ->
  props_imageOptimizationFunction props ≫= opt_existingFunction = None ->
  let fn := imageOptimizationFunction g in
  let callerEnv :=
    props_imageOptimizationFunction props ≫= opt_environment in
  grants fn = [grantRead (bucket g)]
  /\ (callerEnv ≫= (.!! "BUCKET_NAME") = None ->
      environment fn !! "BUCKET_NAME" = Some (EnvBucketName (bucket g)))
  /\ (callerEnv ≫= (.!! "BUCKET_KEY_PREFIX") = None ->
      environment fn !! "BUCKET_KEY_PREFIX"
      = Some (EnvString (default EmptyString (getS3OriginPath m))))
  /\ functionName fn
     = Utils.resourceName (props_prefix props) "image-optimization".
Proof.
  intros (o & Ho & ->)%construct_Return Hnone fn callerEnv.
  subst fn callerEnv. cbn [imageOptimizationFunction bucket this].
  unfold imageOpt, ImageOptimization_new. rewrite Hnone.
  cbn [image_function grants environment functionName addGrant app].
  split; [done|]. unfold spread_environment.
  destruct (props_imageOptimizationFunction props ≫= opt_environment)
    as [env|]; cbn [mbind option_bind].
  - split; [|split].
    + intros Hk. rewrite lookup_union_r by (by rewrite lookup_fmap, Hk). done.
    + intros Hk. rewrite lookup_union_r by (by rewrite lookup_fmap, Hk). done.
    + unfold prefix. by destruct (props_prefix props).
  - split; [|split]; [done..|].
    unfold prefix. by destruct (props_prefix props).
Qed.

(** X12.  When the construct has a tag cache table, every function that
    uses it uses that one table: each server function the construct
    creates has the read-write grant on it, and its name in
    CACHE_DYNAMO_TABLE unless the caller's override sets that variable; the
    revalidation consumer has the grant and the variable in any case, also
    against the caller's override; the seeder, if there is one, has the
    read-write grant on it and no other.  A table the caller hands in as
    [existingTable] is the table. *)
Theorem tag_cache_table_shared (rt : NodeRuntime) (props : OpenNextCdkProps)
  (m : OpenNextManifest) (g : OpenNextCdk) (t : ITable) :
  construct rt props m = Return g ->
  tagCacheTable g = Some t ->
  (forall key fn,
     serverFunctions g !! key = Some fn ->
     Spec.functionOverride props key ≫= opt_existingFunction = None ->
     grantReadWriteData t ∈ grants fn
     /\ ((Spec.functionOverride props key ≫= opt_environment)
           ≫= (.!! "CACHE_DYNAMO_TABLE") = None ->
         environment fn !! "CACHE_DYNAMO_TABLE" = Some (EnvTableName t)))
  /\ grantReadWriteData t ∈ grants (revalidationFunction g)
  /\ environment (revalidationFunction g) !! "CACHE_DYNAMO_TABLE"
     = Some (EnvTableName t)
  /\ (forall sd, tagCacheSeeder g = Some sd ->
        grants (seeder_function sd) = [grantReadWriteData t])
  /\ (forall existing,
        props_tagCache props ≫= existingTable = Some existing ->
        t = existing).
Proof.
  intros (o & Ho & ->)%construct_Return.
  cbn [tagCacheTable serverFunctions revalidationFunction tagCacheSeeder this].
  intros Ht. split; [|split; [|split; [|split]]].
  - intros key fn (id & oo & fn0 & -> & Hgr & _ & Henv)%serverFunctions_created
      Hnone.
    rewrite Hgr, ServerFunction_created_grants by done.
    cbn [sf_tagCacheTable sf_disableIncrementalCache serverProps].
    rewrite Ht. split.
    + rewrite !elem_of_app. right. right. left.
    + intros Hcaller. rewrite Henv by (by left).
      rewrite ServerFunction_environment_created by done.
      cbn [sf_tagCacheTable sf_functionOptions serverProps]. rewrite Ht.
      rewrite <- !(assoc_L (∪)). rewrite lookup_union_r.
      * apply lookup_union_Some_l. by rewrite lookup_singleton_eq.
      * unfold spread_environment.
        destruct (Spec.functionOverride props key ≫= opt_environment)
          as [env|]; [|done].
        cbn in Hcaller. by rewrite lookup_fmap, Hcaller.
  - unfold this_revalidation, Revalidation_new. rewrite Ht. cbn. in_list.
  - unfold this_revalidation, Revalidation_new. rewrite Ht. cbn.
    by rewrite lookup_insert_eq.
  - intros sd. unfold seeder. rewrite Ht.
    destruct (hasInitializationFunction m); [|done]. by intros [= <-].
  - intros existing Hex. unfold this_tagCacheTable, TagCacheTable in Ht.
    case_bool_decide as Hdis; [done|].
    unfold tagCacheOptions in *.
    destruct (disableTagCache props m) eqn:Hd.
    + cbn in Hdis. done.
    + rewrite Hex in Ht. by injection Ht as <-.
Qed.

(** X13.  The assets bucket is the bucket the caller hands in, else a new
    bucket whose objects are deleted with it exactly when its removal
    policy is DESTROY (the default).  Unless the manifest disables the
    incremental cache, every server function created without caller
    options has the three cache bucket variables, naming this bucket and
    the key prefix '_cache', and the read-write grant on it. *)
Theorem assets_bucket_shared (rt : NodeRuntime) (props : OpenNextCdkProps)
  (m : OpenNextManifest) (g : OpenNextCdk) :
  construct rt props m = Return g ->
  bucket g
  = match props_assetsBucket props with
    | Some b => b
    | None =>
        let policy :=
          default RemovalPolicy_DESTROY (props_assetsRemovalPolicy props) in
        AssetsBucket policy
          (match policy with RemovalPolicy_DESTROY => true | _ => false end)
    end
  /\ (Spec.incrementalCacheDisabled m = false ->
      forall key fn,
        serverFunctions g !! key = Some fn ->
        Spec.functionOverride props key = None ->
        environment fn !! "CACHE_BUCKET_NAME" = Some (EnvBucketName (bucket g))
        /\ environment fn !! "CACHE_BUCKET_KEY_PREFIX"
           = Some (EnvString "_cache")
        /\ environment fn !! "CACHE_BUCKET_REGION" = Some EnvRegion
        /\ grantReadWrite (bucket g) ∈ grants fn).
Proof.
  intros (o & Ho & ->)%construct_Return.
  cbn [bucket serverFunctions this]. split; [done|].
  intros Hinc key fn
    (id & oo & fn0 & -> & Hgr & _ & Henv)%serverFunctions_created Hnone.
  rewrite Hnone in *.
  rewrite Hgr, ServerFunction_created_grants by done.
  rewrite !Henv by (by left).
  rewrite ServerFunction_environment_created by done.
  cbn [sf_tagCacheTable sf_disableIncrementalCache sf_functionOptions
       sf_bucket serverProps spread_environment mbind option_bind].
  change (disableIncrementalCache m) with (Spec.incrementalCacheDisabled m).
  rewrite Hinc.
  rewrite (left_id_L ∅ (∪)).
  assert (Hright : forall name v,
    ({["CACHE_BUCKET_NAME" := EnvBucketName (this_bucket props);
       "CACHE_BUCKET_KEY_PREFIX" := EnvString "_cache";
       "CACHE_BUCKET_REGION" := EnvRegion]} : gmap string EnvValue) !! name
    = Some v ->
    name ∈ ["CACHE_BUCKET_NAME"; "CACHE_BUCKET_KEY_PREFIX";
            "CACHE_BUCKET_REGION"] ->
    (match this_tagCacheTable props m with
     | Some t => {["CACHE_DYNAMO_TABLE" := EnvTableName t]}
     | None => ∅
     end
     ∪ {["REVALIDATION_QUEUE_URL" :=
           EnvQueueUrl (this_revalidationQueue rt props m);
         "REVALIDATION_QUEUE_REGION" := EnvRegion]}
     ∪ {["CACHE_BUCKET_NAME" := EnvBucketName (this_bucket props);
         "CACHE_BUCKET_KEY_PREFIX" := EnvString "_cache";
         "CACHE_BUCKET_REGION" := EnvRegion]} : gmap string EnvValue) !! name
    = Some v).
  { intros name v Hv Hname. rewrite lookup_union_r; [done|].
    apply lookup_union_None. split.
    - destruct (this_tagCacheTable props m); [|done].
      apply lookup_singleton_ne. intros <-. revert Hname. not_in_list.
    - rewrite !lookup_insert_ne, lookup_singleton_ne; [done|..];
        intros <-; revert Hname; not_in_list. }
  repeat split.
  - apply Hright; [done|in_list].
  - apply Hright; [done|in_list].
  - apply Hright; [done|in_list].
  - rewrite elem_of_app. left. left.
Qed.

Lemma serverFunctions_key (rt : NodeRuntime) (props : OpenNextCdkProps)
  (m : OpenNextManifest) (o : OpenNextOrigin) (key : string) :
  is_Some (this_serverFunctions rt props m o !! key) ->
  key = "default" \/ is_Some (Spec.splitComputeOrigins m !! key).
Proof.
  destruct (decide (key = "default")) as [->|Hne]; [by left|].
  rewrite this_serverFunctions_split by done. unfold Spec.splitServerAt.
  rewrite !fmap_is_Some. by right.
Qed.

Lemma Revalidation_functionName (rt : NodeRuntime) (prefix path : string)
  (b : IBucket) (table : option ITable)
  (options : option RevalidationQueueOptions) :
  functionName (revalidation_function
                  (Revalidation_new rt prefix path b table options))
  = Utils.resourceName (Some prefix) "revalidation".
Proof. unfold Revalidation_new. by destruct table. Qed.

(** X9.  When the construct creates all its functions itself and no
    split compute origin is keyed 'server', 'image-optimization',
    'revalidation' or 'tag-cache-seeder', the Lambda functions of the
    construct have pairwise distinct names: the server functions among
    themselves, and each of them against the image optimization, the
    revalidation and the seeder function, and these three among
    themselves. *)
Theorem function_names_distinct (rt : NodeRuntime) (props : OpenNextCdkProps)
  (m : OpenNextManifest) (g : OpenNextCdk) :
  construct rt props m = Return g ->
  (forall key,
     Spec.functionOverride props key ≫= opt_existingFunction = None) ->
  props_imageOptimizationFunction props ≫= opt_existingFunction = None ->
  (forall key, is_Some (Spec.splitComputeOrigins m !! key) ->
     key ∉ ["server"; "image-optimization"; "revalidation";
            "tag-cache-seeder"]) ->
  (forall k1 k2 f1 f2,
     serverFunctions g !! k1 = Some f1 ->
     serverFunctions g !! k2 = Some f2 ->
     functionName f1 = functionName f2 -> k1 = k2)
  /\ (forall key fn,
        serverFunctions g !! key = Some fn ->
        functionName fn <> functionName (imageOptimizationFunction g)
        /\ functionName fn <> functionName (revalidationFunction g)
        /\ forall seederFn, tagCacheSeederFunction g = Some seederFn ->
             functionName fn <> functionName seederFn)
  /\ functionName (imageOptimizationFunction g)
     <> functionName (revalidationFunction g)
  /\ (forall seederFn, tagCacheSeederFunction g = Some seederFn ->
        functionName seederFn <> functionName (imageOptimizationFunction g)
        /\ functionName seederFn <> functionName (revalidationFunction g)).
Proof.
  intros (o & Ho & ->)%construct_Return Hserver Himage Hkeys.
  cbn [serverFunctions imageOptimizationFunction revalidationFunction
       tagCacheSeederFunction this].
  set (sfx := fun k : string => if String.eqb k "default" then "server" else k).
  assert (Hname : forall key fn,
    this_serverFunctions rt props m o !! key = Some fn ->
    functionName fn = Utils.resourceName (Some (prefix props)) (sfx key)
    /\ (key = "default" \/ is_Some (Spec.splitComputeOrigins m !! key))).
  { intros key fn Hfn. split; [|apply (serverFunctions_key rt props m o); eauto].
    apply serverFunctions_created in Hfn as (id & oo & fn0 & -> & _ & -> & _).
    by rewrite ServerFunction_created_functionName by apply Hserver. }
  assert (Hsfx : forall key,
    key = "default" \/ is_Some (Spec.splitComputeOrigins m !! key) ->
    (sfx key ∉ ["image-optimization"; "revalidation"; "tag-cache-seeder"])
    /\ (sfx key = "server" -> key = "default")).
  { intros key [->|Hk]; [split; [not_in_list|done]|].
    pose proof (Hkeys key Hk) as Hnot.
    assert (key <> "default").
    { destruct Hk as [o' Hk].
      by apply splitComputeOrigins_Some in Hk as (_ & ? & _). }
    unfold sfx. destruct (String.eqb_spec key "default"); [done|].
    split.
    - intros Hin. apply Hnot. by right.
    - intros ->. exfalso. apply Hnot. left. }
  assert (Himg : functionName (image_function (imageOpt rt props m))
                 = Utils.resourceName (Some (prefix props))
                     "image-optimization").
  { unfold imageOpt, ImageOptimization_new. by rewrite Himage. }
  rewrite Himg. unfold this_revalidation. rewrite Revalidation_functionName.
  assert (Hseed : forall seederFn,
    seeder_function <$> seeder rt props m = Some seederFn ->
    functionName seederFn
    = Utils.resourceName (Some (prefix props)) "tag-cache-seeder").
  { intros seederFn. unfold seeder.
    destruct (this_tagCacheTable props m); [|done].
    destruct (hasInitializationFunction m); [|done]. by intros [= <-]. }
  split; [|split; [|split]].
  - intros k1 k2 f1 f2 [-> H1]%Hname [-> H2]%Hname Heq%resourceName_inj.
    apply Hsfx in H1 as [_ H1], H2 as [_ H2]. unfold sfx in *.
    destruct (String.eqb_spec k1 "default") as [->|?];
      destruct (String.eqb_spec k2 "default") as [->|?]; try done.
    + symmetry. by apply H2.
    + by apply H1.
  - intros key fn [-> [Hnot _]%Hsfx]%Hname. split; [|split].
    + intros Heq%resourceName_inj. apply Hnot. rewrite Heq. in_list.
    + intros Heq%resourceName_inj. apply Hnot. rewrite Heq. in_list.
    + intros seederFn ->%Hseed Heq%resourceName_inj.
      apply Hnot. rewrite Heq. in_list.
  - by intros Heq%resourceName_inj.
  - intros seederFn ->%Hseed. split; by intros Heq%resourceName_inj.
Qed.

(** X14.  The distribution has no web ACL exactly when the caller sets
    [waf.enabled] to false; it has the caller's existing web ACL exactly
    when the WAF is not disabled and [existingWebAclArn] is a non-empty
    string.  It logs exactly when [cloudfrontLogs.enabled] is true, to the
    caller's log bucket if one is given and to a new one otherwise. *)
Theorem distribution_protection (rt : NodeRuntime) (props : OpenNextCdkProps)
  (m : OpenNextManifest) (g : OpenNextCdk) :
  construct rt props m = Return g ->
  (webAclId (distribution g) = None
   <-> props_waf props ≫= waf_enabled = Some false)
  /\ (forall arn,
        webAclId (distribution g) = Some (ExistingWebAcl arn)
        <-> props_waf props ≫= waf_enabled <> Some false
            /\ props_waf props ≫= existingWebAclArn = Some arn
            /\ arn <> EmptyString)
  /\ (enableLogging (distribution g) = None
      <-> props_cloudfrontLogs props ≫= logs_enabled <> Some true)
  /\ (props_cloudfrontLogs props ≫= logs_enabled = Some true ->
      enableLogging (distribution g)
      = Some (default LogBucket (props_cloudfrontLogs props ≫= logBucket))).
Proof.
  intros (o & Ho & ->)%construct_Return.
  cbn [distribution this webAclId enableLogging DistributionComponent.assemble
       dc_webAclArn dc_cloudfrontLogBucket distributionProps].
  unfold waf, Waf, cloudfrontLogBucket, CloudFrontLogs.
  split; [|split; [|split]].
  - case_bool_decide as Hoff; [done|].
    destruct (props_waf props ≫= existingWebAclArn) as [arn|]; [|done].
    by destruct (String.eqb arn EmptyString).
  - intros arn. case_bool_decide as Hoff.
    + split; [done|]. by intros [? _].
    + destruct (props_waf props ≫= existingWebAclArn) as [arn'|].
      * destruct (String.eqb_spec arn' EmptyString) as [->|Hne].
        { split; [done|]. intros (_ & [= <-] & ?). done. }
        split; [by intros [= <-]|]. by intros (_ & [= <-] & _).
      * split; [done|]. by intros (_ & ? & _).
  - case_bool_decide as Hon.
    + split; [|done].
      by destruct (props_cloudfrontLogs props ≫= logBucket).
    + done.
  - intros Hon. rewrite bool_decide_eq_true_2 by done.
    by destruct (props_cloudfrontLogs props ≫= logBucket).
Qed.

(** ** The rules of the distribution *)

Section BehaviorRules.

Variables (s3Origin imageOptOrigin : IOrigin).
Variables (cp : CachePolicy) (orp : OriginRequestPolicy).
Variables (cf : CloudFrontFunction).
Variables (serverOrigins : gmap string IOrigin).
Variables (rhp : ResponseHeadersPolicy).

Local Notation step :=
  (DistributionComponent.behaviorStep s3Origin imageOptOrigin cp orp cf
     serverOrigins rhp).
Local Notation ruleOf :=
  (Notions.ruleOf s3Origin imageOptOrigin cp orp cf serverOrigins rhp).

Lemma behaviorStep_ruleOf (acc : gmap string BehaviorOptions)
  (b : OpenNextBehavior) :
  step acc b
  = match ruleOf b with
    | Some rule => Record_set (pattern b) rule acc
    | None => acc
    end.
Proof.
  unfold DistributionComponent.behaviorStep, Notions.ruleOf, Spec.catchAll.
  destruct (String.eqb (pattern b) "*" || String.eqb (pattern b) "/*");
    [done|].
  destruct (origin b) as [k|]; [|done].
  destruct (String.eqb k "s3"); [done|].
  destruct (String.eqb k "imageOptimizer"); [done|].
  destruct (String.eqb k EmptyString); [done|].
  by destruct (serverOrigins !! k).
Qed.

Lemma for_of_behaviorStep_Some (bs : list OpenNextBehavior)
  (init : gmap string BehaviorOptions) (p : string) (rule : BehaviorOptions) :
  for_of bs step init !! p = Some rule ->
  init !! p = Some rule
  \/ (p <> "__proto__"
      /\ exists b, b ∈ bs /\ pattern b = p /\ ruleOf b = Some rule).
Proof.
  unfold for_of. revert init.
  induction bs as [|b bs IH]; intros init; cbn [fold_left]; [by left|].
  intros [Hinit|(Hproto & b' & Hin & Hp & Hr)]%IH.
  - rewrite behaviorStep_ruleOf in Hinit.
    destruct (ruleOf b) as [r|] eqn:Hr; [|by left].
    unfold Record_set in Hinit. case_decide; [by left|].
    apply lookup_insert_Some in Hinit as [[<- <-]|[_ ?]]; [|by left].
    right. split; [done|]. exists b. split; [left|done].
  - right. split; [done|]. exists b'. split; [by right|done].
Qed.

Lemma for_of_behaviorStep_is_Some (bs : list OpenNextBehavior)
  (init : gmap string BehaviorOptions) (p : string) :
  p <> "__proto__" ->
  is_Some (init !! p)
  \/ (exists b, b ∈ bs /\ pattern b = p /\ is_Some (ruleOf b)) ->
  is_Some (for_of bs step init !! p).
Proof.
  intros Hp. unfold for_of. revert init.
  induction bs as [|b bs IH]; intros init; cbn [fold_left].
  - intros [?|(b & Hin & _)]; [done|destruct (not_elem_of_nil _ Hin)].
  - intros Hcase. apply IH. rewrite behaviorStep_ruleOf.
    destruct Hcase as [Hinit|(b' & Hin & Hpat & Hr)].
    + left. destruct (ruleOf b) as [r|]; [|done].
      unfold Record_set. case_decide; [done|].
      destruct (decide (pattern b = p)) as [<-|?];
        [rewrite lookup_insert_eq|rewrite lookup_insert_ne by done]; eauto.
    + apply elem_of_cons in Hin as [->|Hin]; [|right; eauto].
      left. destruct Hr as [r ->]. unfold Record_set.
      rewrite decide_False by congruence. rewrite Hpat, lookup_insert_eq. eauto.
Qed.

(** Entries after [b] that carry its pattern without yielding a rule, and
    entries that carry another pattern, leave the rule of [b] alone. *)
Lemma for_of_behaviorStep_last (pre post : list OpenNextBehavior)
  (b : OpenNextBehavior) (rule : BehaviorOptions) :
  (forall b', b' ∈ post -> pattern b' = pattern b -> ruleOf b' = None) ->
  ruleOf b = Some rule ->
  pattern b <> "__proto__" ->
  for_of (pre ++ b :: post) step ∅ !! pattern b = Some rule.
Proof.
  intros Hpost Hr Hp. unfold for_of. rewrite fold_left_app. cbn [fold_left].
  generalize (fold_left step pre ∅). intros acc.
  assert (Hb : step acc b !! pattern b = Some rule).
  { rewrite behaviorStep_ruleOf, Hr. unfold Record_set.
    rewrite decide_False by done. apply lookup_insert_eq. }
  revert Hb. generalize (step acc b). clear acc.
  induction post as [|b' post IH]; intros acc Hacc; [done|].
  cbn [fold_left]. apply IH.
  - intros b'' Hin. apply Hpost. by right.
  - destruct (decide (pattern b' = pattern b)) as [Heq|Hne].
    + by rewrite behaviorStep_ruleOf, (Hpost b' ltac:(left) Heq).
    + by rewrite behaviorStep_lookup_ne.
Qed.

Lemma for_of_behaviorStep_single (b : OpenNextBehavior) :
  pattern b <> "__proto__" ->
  for_of [b] step ∅ !! pattern b = ruleOf b.
Proof.
  intros Hp. unfold for_of. cbn [fold_left]. rewrite behaviorStep_ruleOf.
  destruct (ruleOf b) as [rule|]; [|done].
  unfold Record_set. rewrite decide_False by done. apply lookup_insert_eq.
Qed.

End BehaviorRules.

Section Rules.

Variable rt : NodeRuntime.
Variable props : OpenNextCdkProps.

(** The rules the loop over the manifest's behaviors builds. *)
Local Notation created m o :=
  (DistributionComponent.createAdditionalBehaviors
     (DistributionComponent.createS3Origin (distributionProps rt props m o))
     (DistributionComponent.createImageOptimOrigin
        (distributionProps rt props m o))
     (DistributionComponent.createCachePolicy
        (dc_options (distributionProps rt props m o))
        (distributionProps rt props m o))
     (DistributionComponent.createOriginRequestPolicy
        (distributionProps rt props m o))
     (DistributionComponent.createCloudFrontFunction
        (distributionProps rt props m o))
     (DistributionComponent.createServerOrigins
        (distributionProps rt props m o))
     (DistributionComponent.createResponseHeadersPolicy
        (distributionProps rt props m o)
        (dc_options (distributionProps rt props m o)))
     (distributionProps rt props m o)).

Lemma assemble_additionalBehaviors (m : OpenNextManifest) (o : OpenNextOrigin)
  (d : IOrigin) :
  additionalBehaviors
    (DistributionComponent.assemble (distributionProps rt props m o) d)
  = Spec.callerBehaviors props ∪ created m o.
Proof.
  unfold DistributionComponent.assemble, Spec.callerBehaviors.
  cbn [additionalBehaviors dc_options distributionProps].
  destruct (props_distribution props ≫= opt_additionalBehaviors); [done|].
  by rewrite (left_id_L ∅ (∪)).
Qed.

Lemma serverOrigins_lookup (m : OpenNextManifest) (o : OpenNextOrigin)
  (key : string) :
  DistributionComponent.createServerOrigins (distributionProps rt props m o)
    !! key
  = HttpOrigin <$> (serverMaps rt props m o).2 !! key.
Proof. by rewrite createServerOrigins_lookup. Qed.

Lemma imageOptOrigin_eq (m : OpenNextManifest) (o : OpenNextOrigin) :
  DistributionComponent.createImageOptimOrigin (distributionProps rt props m o)
  = HttpOrigin {| url_owner := "ImageOptimization"; invokeMode := None |}.
Proof.
  unfold DistributionComponent.createImageOptimOrigin.
  cbn [dc_imageOptimizationFunctionUrl distributionProps].
  unfold imageOpt, ImageOptimization_new. by case_match.
Qed.

(** X15.  Every rule of the distribution that is not one of the caller's
    comes from a behavior entry of the manifest with that pattern, which is
    not a catch-all pattern.  It redirects to HTTPS and compresses.  If the
    entry names the origin 's3' the rule serves the assets bucket, under
    the origin path of the manifest, for GET and HEAD only; if it names
    'imageOptimizer' it serves the image optimization URL for GET, HEAD
    and OPTIONS; otherwise it serves the function URL registered under the
    origin key, for all methods, with the cache policy and the response
    headers policy of the default rule. *)
Theorem rules_from_manifest (m : OpenNextManifest) (g : OpenNextCdk)
  (p : string) (rule : BehaviorOptions) :
  construct rt props m = Return g ->
  additionalBehaviors (distribution g) !! p = Some rule ->
  Spec.callerBehaviors props !! p = None ->
  viewerProtocolPolicy rule = Some REDIRECT_TO_HTTPS
  /\ compress rule = Some true
  /\ exists b key,
       b ∈ behaviors m /\ pattern b = p /\ origin b = Some key
       /\ Spec.catchAll p = false /\ p <> "__proto__"
       /\ ((key = "s3"
            /\ behavior_origin rule
               = S3BucketOrigin (bucket g)
                   (match getS3OriginPath m with
                    | Some path =>
                        if decide (path = EmptyString) then None
                        else Some ("/" ++ path)
                    | None => None
                    end)
            /\ allowedMethods rule = Some ALLOW_GET_HEAD
            /\ cachePolicy rule = Some CACHING_OPTIMIZED
            /\ functionAssociations rule = [])
           \/ (key = "imageOptimizer"
               /\ behavior_origin rule
                  = HttpOrigin {| url_owner := "ImageOptimization";
                                  invokeMode := None |}
               /\ allowedMethods rule = Some ALLOW_GET_HEAD_OPTIONS
               /\ cachePolicy rule = cachePolicy (defaultBehavior (distribution g))
               /\ responseHeadersPolicy rule = None)
           \/ (exists fnUrl,
                 serverFunctionUrls g !! key = Some fnUrl
                 /\ behavior_origin rule = HttpOrigin fnUrl
                 /\ allowedMethods rule = Some ALLOW_ALL
                 /\ cachePolicy rule
                    = cachePolicy (defaultBehavior (distribution g))
                 /\ responseHeadersPolicy rule
                    = responseHeadersPolicy (defaultBehavior (distribution g)))).
Proof.
  intros (o & Ho & ->)%construct_Return.
  cbn [distribution bucket serverFunctionUrls this].
  rewrite assemble_additionalBehaviors. intros Hrule Hcaller.
  rewrite lookup_union_r in Hrule by done.
  unfold DistributionComponent.createAdditionalBehaviors in Hrule.
  apply for_of_behaviorStep_Some
    in Hrule as [Hempty|(Hproto & b & Hin & Hp & Hr)];
    [by rewrite lookup_empty in Hempty|].
  unfold ruleOf in Hr. rewrite Hp in Hr.
  destruct (Spec.catchAll p) eqn:Hcatch; [done|].
  destruct (origin b) as [key|] eqn:Hkey; [|done].
  assert (Hs3 : DistributionComponent.createS3Origin
                  (distributionProps rt props m o)
    = S3BucketOrigin (this_bucket props)
        (match getS3OriginPath m with
         | Some path =>
             if decide (path = EmptyString) then None else Some ("/" ++ path)
         | None => None
         end)).
  { unfold DistributionComponent.createS3Origin.
    cbn [dc_bucket dc_s3OriginPath distributionProps]. unfold s3OriginPath.
    destruct (getS3OriginPath m) as [path|]; [|done].
    destruct (String.eqb_spec path EmptyString); by case_decide. }
  destruct (String.eqb_spec key "s3") as [->|Hns3].
  { injection Hr as <-. cbn. split; [done|]. split; [done|].
    exists b, "s3". do 5 (split; [done|]).
    left. by rewrite Hs3. }
  destruct (String.eqb_spec key "imageOptimizer") as [->|Hnimg].
  { injection Hr as <-. cbn. split; [done|]. split; [done|].
    exists b, "imageOptimizer". do 5 (split; [done|]).
    right. left. by rewrite imageOptOrigin_eq. }
  destruct (String.eqb key EmptyString); [done|].
  rewrite serverOrigins_lookup in Hr.
  destruct ((serverMaps rt props m o).2 !! key) as [fnUrl|] eqn:Hurl; [|done].
  injection Hr as <-. cbn. split; [done|]. split; [done|].
  exists b, key. do 5 (split; [done|]).
  right. right. by exists fnUrl.
Qed.

(** X16.  Every behavior entry of the manifest whose pattern is not a
    catch-all (nor '__proto__') and whose origin is 's3',
    'imageOptimizer' or the non-empty key of a registered server function
    has a rule in the distribution under its pattern.  For 's3' and
    'imageOptimizer' this needs no such origin in the manifest. *)
Theorem resolvable_behaviors_have_rules (m : OpenNextManifest)
  (g : OpenNextCdk) (b : OpenNextBehavior) (key : string) :
  construct rt props m = Return g ->
  b ∈ behaviors m ->
  origin b = Some key ->
  Spec.catchAll (pattern b) = false ->
  pattern b <> "__proto__" ->
  key <> EmptyString ->
  key = "s3" \/ key = "imageOptimizer" \/ is_Some (serverFunctions g !! key) ->
  is_Some (additionalBehaviors (distribution g) !! pattern b).
Proof.
  intros (o & Ho & ->)%construct_Return Hin Hkey Hcatch Hproto Hne Hres.
  cbn [distribution serverFunctions this] in *.
  rewrite assemble_additionalBehaviors.
  assert (Hcreated : is_Some (created m o !! pattern b)).
  { unfold DistributionComponent.createAdditionalBehaviors.
    apply for_of_behaviorStep_is_Some; [done|]. right.
    exists b. split; [done|]. split; [done|].
    unfold ruleOf. rewrite Hcatch, Hkey.
    destruct (String.eqb_spec key "s3"); [eauto|].
    destruct (String.eqb_spec key "imageOptimizer"); [eauto|].
    destruct (String.eqb_spec key EmptyString); [done|].
    destruct Hres as [?|[?|Hfn]]; [done..|].
    rewrite serverOrigins_lookup, serverMaps_urls, fmap_is_Some.
    destruct (decide (key = "default")) as [->|Hnd]; [eauto|].
    rewrite this_serverFunctions_split in Hfn by done.
    by rewrite !fmap_is_Some in *. }
  destruct Hcreated as [rule Hrule].
  destruct (Spec.callerBehaviors props !! pattern b) as [r|] eqn:Hcaller.
  - exists r. by apply lookup_union_Some_l.
  - exists rule. by rewrite lookup_union_r.
Qed.

(** X17.  Every rule the caller passes in
    [distribution.additionalBehaviors], under any pattern but
    '__proto__', is a rule of the distribution as passed: it replaces
    the rule the manifest yields for the same pattern. *)
Theorem caller_behaviors_win (m : OpenNextManifest) (g : OpenNextCdk) :
  construct rt props m = Return g ->
  forall extra p rule,
    props_distribution props ≫= opt_additionalBehaviors = Some extra ->
    extra !! p = Some rule ->
    p <> "__proto__" ->
    additionalBehaviors (distribution g) !! p = Some rule.
Proof.
  intros (o & Ho & ->)%construct_Return extra p rule Hextra Hrule Hproto.
  cbn [distribution this]. rewrite assemble_additionalBehaviors.
  apply lookup_union_Some_l. unfold Spec.callerBehaviors. rewrite Hextra.
  by rewrite lookup_delete_ne.
Qed.

(** The rules the loop builds from a manifest reduced to the behaviors
    [bs]: only the behaviors change. *)
Lemma created_with_behaviors (m : OpenNextManifest) (o : OpenNextOrigin)
  (bs : list OpenNextBehavior) :
  created (with_behaviors bs m) o
  = for_of bs
      (DistributionComponent.behaviorStep
         (DistributionComponent.createS3Origin (distributionProps rt props m o))
         (DistributionComponent.createImageOptimOrigin
            (distributionProps rt props m o))
         (DistributionComponent.createCachePolicy
            (dc_options (distributionProps rt props m o))
            (distributionProps rt props m o))
         (DistributionComponent.createOriginRequestPolicy
            (distributionProps rt props m o))
         (DistributionComponent.createCloudFrontFunction
            (distributionProps rt props m o))
         (DistributionComponent.createServerOrigins
            (distributionProps rt props m o))
         (DistributionComponent.createResponseHeadersPolicy
            (distributionProps rt props m o)
            (dc_options (distributionProps rt props m o))))
      ∅.
Proof. reflexivity. Qed.

(** X18.  Among the behavior entries of the manifest with the same
    pattern the last one that yields a rule decides: if every entry after
    [b] that carries the pattern of [b] yields no rule on its own (the
    build of the manifest reduced to that entry has under the pattern only
    what the caller passed), and [b] on its own yields a rule, then the
    rule of the distribution under that pattern is the one of the manifest
    reduced to the single entry [b]. *)
Theorem last_behavior_wins (m : OpenNextManifest) (g : OpenNextCdk)
  (pre post : list OpenNextBehavior) (b : OpenNextBehavior) :
  construct rt props m = Return g ->
  behaviors m = (pre ++ b :: post)%list ->
  (forall b' g',
     b' ∈ post -> pattern b' = pattern b ->
     construct rt props (with_behaviors [b'] m) = Return g' ->
     additionalBehaviors (distribution g') !! pattern b
     = Spec.callerBehaviors props !! pattern b) ->
  exists g1,
    construct rt props (with_behaviors [b] m) = Return g1
    /\ (is_Some (additionalBehaviors (distribution g1) !! pattern b) ->
        additionalBehaviors (distribution g) !! pattern b
        = additionalBehaviors (distribution g1) !! pattern b).
Proof.
  intros (o & Ho & ->)%construct_Return Hbs Hpost.
  eexists. split; [by apply (construct_valid rt props (with_behaviors [b] m) o)|].
  cbn [distribution this]. rewrite !assemble_additionalBehaviors.
  destruct (Spec.callerBehaviors props !! pattern b) as [r|] eqn:Hcaller.
  { intros _. by rewrite !(lookup_union_Some_l _ _ _ r). }
  rewrite !lookup_union_r by done. intros [rule Hrule].
  rewrite Hrule. rewrite created_with_behaviors in Hrule.
  apply for_of_behaviorStep_Some
    in Hrule as [Hempty|(Hproto & b' & Hin & _ & Hr)];
    [by rewrite lookup_empty in Hempty|].
  apply list_elem_of_singleton in Hin as ->.
  unfold DistributionComponent.createAdditionalBehaviors.
  cbn [behaviors dc_manifest distributionProps]. rewrite Hbs.
  apply for_of_behaviorStep_last; [|done..].
  intros b' Hin Hpat.
  specialize (Hpost b' _ Hin Hpat
                (construct_valid rt props (with_behaviors [b'] m) o Ho)).
  cbn [distribution this] in Hpost.
  rewrite assemble_additionalBehaviors, lookup_union_r in Hpost by done.
  rewrite created_with_behaviors, <- Hpat in Hpost.
  rewrite for_of_behaviorStep_single in Hpost by (by rewrite Hpat).
  done.
Qed.

End Rules.

(** ** The resources the constructor creates last *)
(** ** The asset deployment *)

(** X19.  The asset deployment makes one bucket deployment per copy
    entry of the manifest's s3 origin, in the order of the manifest, and
    none when the manifest has no s3 origin or no copy list.  The
    deployment of an entry uploads the directory
    [path.join(openNextPath, from)], with a leading '.open-next/' of
    [from] removed, into the assets bucket, under the key prefix [to]
    unless [to] is '/' or empty, with the immutable cache control for a
    cached entry and the revalidating one otherwise. *)
Theorem asset_deployment_per_copy_entry (rt : NodeRuntime)
  (openNextPath : string) (manifest : OpenNextManifest) (b : IBucket)
  (dist : Distribution) :
  let copy := default [] (origins manifest !! "s3" ≫= origin_copy) in
  let deployments := AssetDeployment_new rt openNextPath manifest b dist in
  length deployments = length copy
  /\ (forall i entry, copy !! i = Some entry ->
        exists d, deployments !! i = Some d
          /\ deployment_source d
             = path_join rt [openNextPath;
                             normalizeBundlePath (copy_from entry)]
          /\ destinationBucket d = b
          /\ destinationKeyPrefix d
             = (if decide (copy_to entry = "/" \/ copy_to entry = EmptyString)
                then None else Some (copy_to entry))
          /\ deployment_cacheControl d
             = (if copy_cached entry
                then "public, max-age=31536000, immutable"
                else "public, max-age=0, s-maxage=31536000, must-revalidate")).
Proof.
  intros copy deployments.
  assert (Hentries : getAssetCopyEntries manifest
    = (fun entry =>
         {| copy_from := normalizeBundlePath (copy_from entry);
            copy_to := copy_to entry; copy_cached := copy_cached entry;
            copy_versionedSubDir := copy_versionedSubDir entry |}) <$> copy).
  { unfold getAssetCopyEntries, copy.
    destruct (origins manifest !! "s3") as [s3Origin|]; [|done]. cbn.
    by destruct (origin_copy s3Origin). }
  subst deployments. unfold AssetDeployment_new. rewrite Hentries. split.
  - by rewrite length_imap, length_fmap.
  - intros i entry Hi. eexists. split.
    + rewrite list_lookup_imap, list_lookup_fmap, Hi. reflexivity.
    + cbn. repeat split.
      destruct (String.eqb_spec (copy_to entry) "/") as [Hr|Hr];
        destruct (String.eqb_spec (copy_to entry) EmptyString) as [He|He];
        cbn; case_decide; try done; tauto.
Qed.

(** X20.  The bucket deployments have pairwise distinct construct ids.
    None of them prunes the bucket, none has '/' or the empty string as
    its key prefix, and each invalidates '/*' on the distribution. *)
Theorem asset_deployment_ids_distinct (rt : NodeRuntime)
  (openNextPath : string) (manifest : OpenNextManifest) (b : IBucket)
  (dist : Distribution) :
  let deployments := AssetDeployment_new rt openNextPath manifest b dist in
  NoDup (deployment_id <$> deployments)
  /\ forall d, d ∈ deployments ->
       prune d = false
       /\ destinationKeyPrefix d <> Some "/"
       /\ destinationKeyPrefix d <> Some EmptyString
       /\ deployment_distribution d = dist
       /\ distributionPaths d = ["/*"].
Proof.
  intros deployments. subst deployments. unfold AssetDeployment_new. split.
  - rewrite fmap_imap. apply NoDup_alt. intros i j id.
    rewrite !list_lookup_imap.
    destruct (getAssetCopyEntries manifest !! i); [|done].
    destruct (getAssetCopyEntries manifest !! j); [|done].
    cbn. intros [= <-] [= H]. apply append_inj_l, Number_toString_inj in H.
    lia.
  - intros d (i & entry & -> & _)%elem_of_lookup_imap. cbn.
    repeat split.
    + destruct (String.eqb_spec (copy_to entry) "/") as [Hr|Hr]; [done|].
      destruct (String.eqb (copy_to entry) EmptyString); [done|].
      cbn. congruence.
    + destruct (String.eqb_spec (copy_to entry) EmptyString) as [Hr|Hr];
        [by rewrite orb_true_r|].
      destruct (String.eqb (copy_to entry) "/"); [done|].
      cbn. congruence.
Qed.
(** ** Alarms *)

(** X21.  No alarm is created unless [alarms.enabled] is true.  When
    it is, there is one error alarm per registered server function, one
    for the revalidation consumer, one on the depth of the dead-letter
    queue and one on the 5xx rate of the distribution, and no other;
    either every alarm notifies the SNS topic of the options or, when
    [snsTopicArn] is absent or empty, none has an action. *)
Theorem alarms_when_enabled (prefix : string) (options : option AlarmOptions)
  (revalidationDlq : Queue) (fns : gmap string LambdaFunction)
  (revalidationFn : LambdaFunction) (dist : Distribution) :
  let alarms :=
    Alarms_new prefix options revalidationDlq fns revalidationFn dist in
  (options ≫= alarms_enabled <> Some true -> alarms = [])
  /\ (options ≫= alarms_enabled = Some true ->
      length alarms = (size fns + 3)%nat
      /\ (forall key fn, fns !! key = Some fn ->
            exists a, a ∈ alarms
              /\ alarm_metric a = metricErrors fn
              /\ alarm_id a
                 = "ServerErrorAlarm-"
                   ++ (if decide (key = "default") then "server" else key))
      /\ (exists a, a ∈ alarms /\ alarm_metric a = metricErrors revalidationFn)
      /\ (exists a, a ∈ alarms
            /\ alarm_metric a
               = metricApproximateNumberOfMessagesVisible revalidationDlq)
      /\ (exists a, a ∈ alarms /\ alarm_metric a = Metric_5xxErrorRate dist)
      /\ (forall a, a ∈ alarms ->
            alarmActions a
            = match options ≫= snsTopicArn with
              | Some arn => if decide (arn = EmptyString) then [] else [arn]
              | None => []
              end)).
Proof.
  intros alarms. subst alarms. unfold Alarms_new. split.
  - intros Hoff. by rewrite bool_decide_eq_false_2.
  - intros Hon. rewrite bool_decide_eq_true_2 by done. cbv zeta.
    assert (Hact :
      (match options ≫= snsTopicArn with
       | Some arn => if String.eqb arn EmptyString then [] else [arn]
       | None => []
       end)
      = match options ≫= snsTopicArn with
        | Some arn => if decide (arn = EmptyString) then [] else [arn]
        | None => []
        end).
    { destruct (options ≫= snsTopicArn) as [arn|]; [|done].
      destruct (String.eqb_spec arn EmptyString); by case_decide. }
    rewrite Hact. clear Hact.
    split; [|split; [|split; [|split; [|split]]]].
    + cbn [app length]. rewrite length_app, length_fmap, length_map_to_list.
      cbn. lia.
    + intros key fn Hfn. eexists. split.
      * apply elem_of_cons. right. apply elem_of_app. left.
        apply list_elem_of_fmap. exists (key, fn).
        split; [reflexivity|]. by apply elem_of_map_to_list.
      * cbn. split; [done|].
        destruct (String.eqb_spec key "default"); by case_decide.
    + eexists. split;
        [apply elem_of_cons; right; apply elem_of_app; right; left
        |reflexivity].
    + eexists. split; [left|reflexivity].
    + eexists. split;
        [apply elem_of_cons; right; apply elem_of_app; right; right; left
        |reflexivity].
    + intros a [->|[Hin|Hin]%elem_of_app]%elem_of_cons; [done| |].
      * by apply list_elem_of_fmap in Hin as [kv [-> _]].
      * apply elem_of_cons in Hin as [->|Hin]; [done|].
        apply elem_of_cons in Hin as [->|Hin]; [done|].
        destruct (not_elem_of_nil _ Hin).
Qed.

(** X22.  When no server function is registered under the key 'server'
    or 'revalidation', the alarms have pairwise distinct names and
    pairwise distinct construct ids. *)
Theorem alarm_names_distinct (prefix : string) (options : option AlarmOptions)
  (revalidationDlq : Queue) (fns : gmap string LambdaFunction)
  (revalidationFn : LambdaFunction) (dist : Distribution) :
  (forall key, is_Some (fns !! key) ->
     key <> "server" /\ key <> "revalidation") ->
  let alarms :=
    Alarms_new prefix options revalidationDlq fns revalidationFn dist in
  NoDup (alarmName <$> alarms) /\ NoDup (alarm_id <$> alarms).
Proof.
  intros Hkeys alarms. subst alarms. unfold Alarms_new.
  case_bool_decide as Hon; [|split; constructor]. cbv zeta.
  set (sfx := fun k : string => if String.eqb k "default" then "server" else k).
  assert (Hsfx : forall k1 k2, is_Some (fns !! k1) -> is_Some (fns !! k2) ->
                   sfx k1 = sfx k2 -> k1 = k2).
  { intros k1 k2 [H1 _]%Hkeys [H2 _]%Hkeys. unfold sfx.
    destruct (String.eqb_spec k1 "default") as [->|?];
      destruct (String.eqb_spec k2 "default") as [->|?]; congruence. }
  assert (Hreval : forall k, is_Some (fns !! k) -> sfx k <> "revalidation").
  { intros k [_ Hk]%Hkeys. unfold sfx.
    by destruct (String.eqb_spec k "default"). }
  split.
  - rewrite !fmap_app, <- !list_fmap_compose. cbn [fmap list_fmap app].
    apply NoDup_cons. split.
    + intros [Hin|Hin]%elem_of_app.
      * apply list_elem_of_fmap in Hin as [[k fn] [Heq _]]. cbn in Heq.
        apply resourceName_inj in Heq.
        apply (f_equal Notions.String_last) in Heq.
        rewrite String_last_append in Heq. by vm_compute in Heq.
      * apply elem_of_cons in Hin as [Heq|Hin];
          [by apply resourceName_inj in Heq|].
        apply elem_of_cons in Hin as [Heq|Hin];
          [by apply resourceName_inj in Heq|].
        destruct (not_elem_of_nil _ Hin).
    + apply NoDup_app. split; [|split].
      * apply (NoDup_fmap_map_to_list fns _
          (fun k => Utils.resourceName (Some prefix) (sfx k ++ "-errors")));
          [done|].
        intros k1 k2 H1 H2 Heq%resourceName_inj%append_inj_r. by apply Hsfx.
      * intros name Hin Hin'.
        apply list_elem_of_fmap in Hin as [[k fn] [-> Hkv]].
        apply elem_of_map_to_list in Hkv. cbn in Hin'.
        apply elem_of_cons in Hin' as [Heq|Hin'].
        { apply resourceName_inj in Heq.
          apply (append_inj_r "-errors" _ "revalidation") in Heq.
          eapply Hreval; [|exact Heq]. eauto. }
        apply elem_of_cons in Hin' as [Heq|Hin'];
          [|destruct (not_elem_of_nil _ Hin')].
        apply resourceName_inj in Heq.
        apply (f_equal Notions.String_last) in Heq.
        rewrite String_last_append in Heq. by vm_compute in Heq.
      * apply NoDup_cons. split; [|apply NoDup_singleton].
        intros Heq%list_elem_of_singleton%resourceName_inj. done.
  - rewrite !fmap_app, <- !list_fmap_compose. cbn [fmap list_fmap app].
    apply NoDup_cons. split.
    + intros [Hin|Hin]%elem_of_app.
      * by apply list_elem_of_fmap in Hin as [[k fn] [Heq _]].
      * apply elem_of_cons in Hin as [Heq|Hin]; [done|].
        apply elem_of_cons in Hin as [Heq|Hin]; [done|].
        destruct (not_elem_of_nil _ Hin).
    + apply NoDup_app. split; [|split].
      * apply (NoDup_fmap_map_to_list fns _
          (fun k => "ServerErrorAlarm-" ++ sfx k)); [done|].
        intros k1 k2 H1 H2 Heq%append_inj_l. by apply Hsfx.
      * intros name Hin Hin'.
        apply list_elem_of_fmap in Hin as [[k fn] [-> Hkv]]. cbn in Hin'.
        apply elem_of_cons in Hin' as [Heq|Hin']; [done|].
        apply elem_of_cons in Hin' as [Heq|Hin']; [done|].
        destruct (not_elem_of_nil _ Hin').
      * apply NoDup_cons. split; [|apply NoDup_singleton].
        by intros Heq%list_elem_of_singleton.
Qed.

(** ** DNS records *)

Lemma Dns_records_of_type (dist : Distribution) (z : IHostedZone)
  (ty : RecordType) (names : list string) (ix : nat -> nat) :
  recordName <$>
    filter (fun r => recordType r = ty)
      (mjoin (imap (fun i name =>
        [ {| record_id := "ARecord" ++ Number_toString (Z.of_nat (ix i));
             recordType := RecordType_A; zone := z;
             recordName := name; aliasTarget := dist |};
          {| record_id := "AaaaRecord" ++ Number_toString (Z.of_nat (ix i));
             recordType := RecordType_AAAA; zone := z;
             recordName := name; aliasTarget := dist |} ]) names))
  = names.
Proof.
  revert ix. induction names as [|name names IH]; intros ix; [done|].
  rewrite imap_cons. cbn [mjoin list_join app].
  specialize (IH (ix ∘ S)). cbn [compose] in IH.
  destruct ty.
  - rewrite filter_cons_True by done. rewrite filter_cons_False by done.
    rewrite fmap_cons. f_equal. apply IH.
  - rewrite filter_cons_False by done. rewrite filter_cons_True by done.
    rewrite fmap_cons. f_equal. apply IH.
Qed.

Lemma Dns_records_elem (dist : Distribution) (z : IHostedZone)
  (names : list string) (ix : nat -> nat) (r : RecordSet) :
  r ∈ mjoin (imap (fun i name =>
        [ {| record_id := "ARecord" ++ Number_toString (Z.of_nat (ix i));
             recordType := RecordType_A; zone := z;
             recordName := name; aliasTarget := dist |};
          {| record_id := "AaaaRecord" ++ Number_toString (Z.of_nat (ix i));
             recordType := RecordType_AAAA; zone := z;
             recordName := name; aliasTarget := dist |} ]) names) ->
  zone r = z /\ aliasTarget r = dist.
Proof.
  revert ix. induction names as [|name names IH]; intros ix.
  - by intros ?%elem_of_nil.
  - rewrite imap_cons. cbn [mjoin list_join app].
    intros [->|[->|Hin]%elem_of_cons]%elem_of_cons; [done|done|].
    by apply (IH (ix ∘ S)).
Qed.

Lemma Dns_records_length (dist : Distribution) (z : IHostedZone)
  (names : list string) (ix : nat -> nat) :
  length (mjoin (imap (fun i name =>
        [ {| record_id := "ARecord" ++ Number_toString (Z.of_nat (ix i));
             recordType := RecordType_A; zone := z;
             recordName := name; aliasTarget := dist |};
          {| record_id := "AaaaRecord" ++ Number_toString (Z.of_nat (ix i));
             recordType := RecordType_AAAA; zone := z;
             recordName := name; aliasTarget := dist |} ]) names))
  = (2 * length names)%nat.
Proof.
  revert ix. induction names as [|name names IH]; intros ix; [done|].
  rewrite imap_cons. cbn [mjoin list_join app length].
  transitivity (S (S (2 * length names))); [|lia].
  do 2 f_equal. apply (IH (ix ∘ S)).
Qed.

(** X23.  The DNS component creates one A record and one AAAA record
    per record name, in the hosted zone of the options and aliased to the
    distribution.  The names are the [recordNames] of the options when
    given, also when the list is empty; otherwise the name of the hosted
    zone alone, or none when that name is empty. *)
Theorem Dns_records (dist : Distribution) (o : DnsOptions) :
  let records := Dns_new dist (Some o) in
  let named (ty : RecordType) :=
    recordName <$> filter (fun r => recordType r = ty) records in
  named RecordType_A = named RecordType_AAAA
  /\ length records = (2 * length (named RecordType_A))%nat
  /\ (forall names, recordNames o = Some names -> named RecordType_A = names)
  /\ (recordNames o = None ->
      named RecordType_A
      = if decide (zoneName (hostedZone o) = EmptyString) then []
        else [zoneName (hostedZone o)])
  /\ (forall r, r ∈ records ->
        zone r = hostedZone o /\ aliasTarget r = dist).
Proof.
  intros records named. subst records named. unfold Dns_new.
  set (names := match recordNames o with
                | Some ns => ns
                | None => if String.eqb (zoneName (hostedZone o)) EmptyString
                          then [] else [zoneName (hostedZone o)]
                end).
  pose proof (Dns_records_of_type dist (hostedZone o) RecordType_A names id)
    as HA.
  pose proof (Dns_records_of_type dist (hostedZone o) RecordType_AAAA names id)
    as HAAAA.
  cbn [id] in HA, HAAAA. rewrite HA, HAAAA.
  split; [done|]. split; [|split; [|split]].
  - apply (Dns_records_length dist (hostedZone o) names id).
  - intros ns Hns. subst names. by rewrite Hns.
  - intros Hns. subst names. rewrite Hns.
    destruct (String.eqb_spec (zoneName (hostedZone o)) EmptyString);
      by case_decide.
  - intros r. apply (Dns_records_elem dist (hostedZone o) names id).
Qed.

(** ** The warmer *)

Lemma functionNameMap_lookup (fns : gmap string LambdaFunction) (k : string) :
  Map_forEach fns (fun acc key fn => Record_set key (functionName fn) acc) ∅
    !! k
  = if decide (k = "__proto__") then None else functionName <$> fns !! k.
Proof.
  rewrite (Map_forEach_lookup
    (fun key fn => if decide (key = "__proto__") then None
                   else Some (functionName fn))).
  - rewrite lookup_empty. destruct (fns !! k); cbn; by case_decide.
  - intros acc key fn. unfold Record_set. by case_decide.
Qed.

(** X24.  A warmer exists exactly when [warmer.enabled] is true.  It
    may invoke every registered server function and no other function, the
    default server function among them.  Unless the caller's override sets
    FUNCTION_NAME, the variable is the JSON of an object that maps every
    registered origin key except '__proto__' to the name of its function
    and nothing else. *)
Theorem warmer_covers_server_functions (rt : NodeRuntime)
  (props : OpenNextCdkProps) (late : OpenNextCdkLateProps)
  (manifest : OpenNextManifest) (g : OpenNextCdk) :
  construct rt props manifest = Return g ->
  let built := construct_late rt props late manifest g in
  (is_Some (warmer built)
   <-> props_warmer late ≫= warmer_enabled = Some true)
  /\ (forall w, warmer built = Some w ->
        (forall fn, fn ∈ warmer_grantInvoke w
                    <-> exists key, serverFunctions g !! key = Some fn)
        /\ (exists fn, serverFunctions g !! "default" = Some fn
                       /\ fn ∈ warmer_grantInvoke w)
        /\ (((props_warmer late ≫= warmer_functionOptions)
               ≫= opt_environment) ≫= (.!! "FUNCTION_NAME") = None ->
            exists functionNameMap,
              warmer_environment (warmer_function w) !! "FUNCTION_NAME"
              = Some (WarmerEnvJSON functionNameMap)
              /\ forall key,
                   functionNameMap !! key
                   = if decide (key = "__proto__") then None
                     else functionName <$> serverFunctions g !! key)).
Proof.
  intros Hg built. subst built. unfold construct_late. cbn [warmer].
  unfold Warmer_new. destruct (props_warmer late) as [o|]; cbn [mbind option_bind].
  2: { split; [split; [by intros []%is_Some_None|done]|done]. }
  case_bool_decide as Hon.
  2: { split; [split; [by intros []%is_Some_None|done]|done]. }
  split; [split; eauto|].
  intros w [= <-]. cbn [warmer_grantInvoke warmer_function warmer_environment].
  assert (Hin : forall fn, fn ∈ (map_to_list (serverFunctions g)).*2
                  <-> exists key, serverFunctions g !! key = Some fn).
  { intros fn. rewrite list_elem_of_fmap. split.
    - intros [[k v] [-> Hkv]]. apply elem_of_map_to_list in Hkv. eauto.
    - intros [k Hk]. exists (k, fn). split; [done|].
      by apply elem_of_map_to_list. }
  split; [done|]. split.
  - unfold construct in Hg.
    destruct (origins manifest !! "default") as [d|]; [|done].
    destruct (DistributionComponent.new _); [|done].
    cbn in Hg. injection Hg as <-. cbn [serverFunctions this].
    rewrite this_serverFunctions_default. eexists. split; [done|].
    apply Hin. exists "default". cbn [serverFunctions this].
    apply this_serverFunctions_default.
  - intros Hcaller. eexists. split; [|apply functionNameMap_lookup].
    rewrite lookup_union_r; [done|].
    destruct (warmer_functionOptions o ≫= opt_environment) as [env|]; [|done].
    cbn in Hcaller. by rewrite lookup_fmap, Hcaller.
Qed.

(** ** The further properties at the fixtures *)

Lemma construct_built (rt : NodeRuntime) (props : OpenNextCdkProps)
  (m : OpenNextManifest) (o : OpenNextOrigin) :
  origins m !! "default" = Some o ->
  construct rt props m = Return (built rt props m o).
Proof. apply construct_valid. Qed.

Lemma split_manifest_built (props : OpenNextCdkProps) :
  construct (Fixture.runtime None 0) props Fixture.split_manifest
  = Return (built (Fixture.runtime None 0) props Fixture.split_manifest
              Fixture.function_origin).
Proof. apply construct_built. vm_compute. reflexivity. Qed.

Lemma basic_manifest_built (props : OpenNextCdkProps)
  (ap : option OpenNextAdditionalProps) :
  construct (Fixture.runtime None 0) props (Fixture.basic_manifest ap)
  = Return (built (Fixture.runtime None 0) props (Fixture.basic_manifest ap)
              Fixture.function_origin).
Proof. apply construct_built. vm_compute. reflexivity. Qed.

Lemma split_manifest_compute (key : string) :
  is_Some (Spec.splitComputeOrigins Fixture.split_manifest !! key) ->
  key = "api".
Proof.
  assert (Hsplit : Spec.splitComputeOrigins Fixture.split_manifest
                   = {[ "api" := Fixture.function_origin ]})
    by (vm_compute; reflexivity).
  rewrite Hsplit. intros [o Ho]. by apply lookup_singleton_Some in Ho as [<- _].
Qed.

Lemma readManifest_errors_name_the_path_witness :
  let message := not_found_message "app/open-next.output.json" in
  readManifest (Fixture.runtime None 0) "app" = Throw (Error message)
  /\ String_includes message "app/open-next.output.json" = true.
Proof.
  intros message. split; [reflexivity|].
  destruct (readManifest_errors_name_the_path (Fixture.runtime None 0) "app"
              (Error message) eq_refl) as [[Hexists _]|Hpath].
  - discriminate Hexists.
  - exact Hpath.
Defined.


Lemma server_function_urls_witness :
  let g := built (Fixture.runtime None 0) (Fixture.caller None None)
             Fixture.split_manifest Fixture.function_origin in
  construct (Fixture.runtime None 0) (Fixture.caller None None)
    Fixture.split_manifest = Return g
  /\ dom (serverFunctionUrls g) = dom (serverFunctions g).
Proof.
  intros g. split; [apply split_manifest_built|].
  apply (server_function_urls (Fixture.runtime None 0)
           (Fixture.caller None None) Fixture.split_manifest g).
  apply split_manifest_built.
Defined.

Lemma existing_function_untouched_witness :
  let props :=
    Fixture.caller (Some (Fixture.with_existing Fixture.existing_function))
      None in
  let g := built (Fixture.runtime None 0) props (Fixture.basic_manifest None)
             Fixture.function_origin in
  construct (Fixture.runtime None 0) props (Fixture.basic_manifest None)
  = Return g
  /\ serverFunctions g !! "default" = Some Fixture.existing_function.
Proof.
  intros props g. split; [apply basic_manifest_built|].
  destruct (construct_default_server _ _ _ _
              (basic_manifest_built props None)) as [fn Hfn].
  fold g in Hfn.
  pose proof (proj1 (existing_function_untouched (Fixture.runtime None 0)
                       props (Fixture.basic_manifest None) g
                       (basic_manifest_built props None))
                "default" Fixture.existing_function fn eq_refl Hfn) as Hsame.
  rewrite decide_False in Hsame.
  - by rewrite Hfn, Hsame.
  - intros [_ Hne]. apply Hne. vm_compute. reflexivity.
Defined.

Lemma caller_environment_wins_witness :
  let props :=
    Fixture.caller
      (Some (Fixture.with_environment
               {[ "CACHE_BUCKET_NAME" := "another-bucket" ]}))
      None in
  let g := built (Fixture.runtime None 0) props (Fixture.basic_manifest None)
             Fixture.function_origin in
  construct (Fixture.runtime None 0) props (Fixture.basic_manifest None)
  = Return g
  /\ exists fn,
       serverFunctions g !! "default" = Some fn
       /\ environment fn !! "CACHE_BUCKET_NAME"
          = Some (EnvString "another-bucket").
Proof.
  intros props g. split; [apply basic_manifest_built|].
  destruct (construct_default_server _ _ _ _
              (basic_manifest_built props None)) as [fn Hfn].
  fold g in Hfn. exists fn. split; [exact Hfn|].
  apply (caller_environment_wins (Fixture.runtime None 0) props
           (Fixture.basic_manifest None) g "default" "CACHE_BUCKET_NAME"
           "another-bucket" fn).
  - apply basic_manifest_built.
  - exact Hfn.
  - reflexivity.
  - vm_compute. reflexivity.
  - intros _ Hname. discriminate Hname.
Defined.

Lemma function_names_distinct_witness :
  let props := Fixture.caller None None in
  let g := built (Fixture.runtime None 0) props Fixture.split_manifest
             Fixture.function_origin in
  construct (Fixture.runtime None 0) props Fixture.split_manifest = Return g
  /\ (forall k1 k2 f1 f2,
        serverFunctions g !! k1 = Some f1 ->
        serverFunctions g !! k2 = Some f2 ->
        functionName f1 = functionName f2 -> k1 = k2)
  /\ functionName (imageOptimizationFunction g)
     <> functionName (revalidationFunction g).
Proof.
  intros props g. split; [apply split_manifest_built|].
  destruct (function_names_distinct (Fixture.runtime None 0) props
              Fixture.split_manifest g) as (Hservers & _ & Hothers & _).
  - apply split_manifest_built.
  - intros key. unfold props. by rewrite caller_no_override.
  - reflexivity.
  - intros key ->%split_manifest_compute. not_in_list.
  - split; [exact Hservers|exact Hothers].
Defined.

Lemma revalidation_wiring_witness :
  let props := Fixture.caller None None in
  let g := built (Fixture.runtime None 0) props (Fixture.basic_manifest None)
             Fixture.function_origin in
  construct (Fixture.runtime None 0) props (Fixture.basic_manifest None)
  = Return g
  /\ eventSources (revalidationFunction g)
     = [SqsEventSource (revalidationQueue g) 5 true]
  /\ visibilityTimeoutSeconds (revalidationQueue g)
     = Some (timeout (revalidationFunction g) * 6)%Z.
Proof.
  intros props g. split; [apply basic_manifest_built|].
  destruct (revalidation_wiring (Fixture.runtime None 0) props
              (Fixture.basic_manifest None) g
              (basic_manifest_built props None)) as (Hsource & Hvis & _).
  split; [exact Hsource|exact Hvis].
Defined.

Lemma image_optimizer_reads_assets_witness :
  let props := Fixture.caller None None in
  let g := built (Fixture.runtime None 0) props (Fixture.basic_manifest None)
             Fixture.function_origin in
  construct (Fixture.runtime None 0) props (Fixture.basic_manifest None)
  = Return g
  /\ grants (imageOptimizationFunction g) = [grantRead (bucket g)]
  /\ environment (imageOptimizationFunction g) !! "BUCKET_KEY_PREFIX"
     = Some (EnvString EmptyString).
Proof.
  intros props g. split; [apply basic_manifest_built|].
  destruct (image_optimizer_reads_assets (Fixture.runtime None 0) props
              (Fixture.basic_manifest None) g
              (basic_manifest_built props None) eq_refl)
    as (Hgrants & _ & Hprefix & _).
  split; [exact Hgrants|]. exact (Hprefix eq_refl).
Defined.

Lemma tag_cache_table_shared_witness :
  let props := Fixture.caller None None in
  let m := Fixture.basic_manifest (Fixture.additional None None true) in
  let g := built (Fixture.runtime None 0) props m Fixture.function_origin in
  let t := Table "opennext-tag-cache" PAY_PER_REQUEST in
  construct (Fixture.runtime None 0) props m = Return g
  /\ tagCacheTable g = Some t
  /\ grantReadWriteData t ∈ grants (revalidationFunction g)
  /\ environment (revalidationFunction g) !! "CACHE_DYNAMO_TABLE"
     = Some (EnvTableName t).
Proof.
  intros props m g t. split; [apply basic_manifest_built|].
  assert (Htable : tagCacheTable g = Some t) by (vm_compute; reflexivity).
  split; [exact Htable|].
  destruct (tag_cache_table_shared (Fixture.runtime None 0) props m g t
              (basic_manifest_built props _) Htable)
    as (_ & Hgrant & Henv & _).
  split; [exact Hgrant|exact Henv].
Defined.

Lemma assets_bucket_shared_witness :
  let props := Fixture.caller None None in
  let g := built (Fixture.runtime None 0) props (Fixture.basic_manifest None)
             Fixture.function_origin in
  construct (Fixture.runtime None 0) props (Fixture.basic_manifest None)
  = Return g
  /\ bucket g = AssetsBucket RemovalPolicy_DESTROY true
  /\ exists fn,
       serverFunctions g !! "default" = Some fn
       /\ environment fn !! "CACHE_BUCKET_NAME"
          = Some (EnvBucketName (bucket g)).
Proof.
  intros props g. split; [apply basic_manifest_built|].
  destruct (assets_bucket_shared (Fixture.runtime None 0) props
              (Fixture.basic_manifest None) g
              (basic_manifest_built props None)) as (Hbucket & Hfns).
  split; [exact Hbucket|].
  destruct (construct_default_server _ _ _ _
              (basic_manifest_built props None)) as [fn Hfn].
  fold g in Hfn. exists fn. split; [exact Hfn|].
  apply (Hfns eq_refl "default" fn Hfn). apply caller_no_override.
Defined.

Lemma distribution_protection_witness :
  let props := Fixture.caller None None in
  let g := built (Fixture.runtime None 0) props (Fixture.basic_manifest None)
             Fixture.function_origin in
  construct (Fixture.runtime None 0) props (Fixture.basic_manifest None)
  = Return g
  /\ webAclId (distribution g) <> None
  /\ enableLogging (distribution g) = None.
Proof.
  intros props g. split; [apply basic_manifest_built|].
  destruct (distribution_protection (Fixture.runtime None 0) props
              (Fixture.basic_manifest None) g
              (basic_manifest_built props None)) as (Hwaf & _ & Hlogs & _).
  split.
  - intros Hnone%Hwaf. discriminate Hnone.
  - apply Hlogs. intros Hon. discriminate Hon.
Defined.

Lemma rules_from_manifest_witness :
  let props := Fixture.caller None None in
  let g := built (Fixture.runtime None 0) props Fixture.split_manifest
             Fixture.function_origin in
  construct (Fixture.runtime None 0) props Fixture.split_manifest = Return g
  /\ exists rule,
       additionalBehaviors (distribution g) !! "_next/static/*" = Some rule
       /\ viewerProtocolPolicy rule = Some REDIRECT_TO_HTTPS
       /\ compress rule = Some true.
Proof.
  intros props g. split; [apply split_manifest_built|].
  assert (Hrule : exists rule,
            additionalBehaviors (distribution g) !! "_next/static/*"
            = Some rule) by (eexists; vm_compute; reflexivity).
  destruct Hrule as [rule Hrule]. exists rule. split; [exact Hrule|].
  destruct (rules_from_manifest (Fixture.runtime None 0) props
              Fixture.split_manifest g "_next/static/*" rule
              (split_manifest_built props) Hrule eq_refl)
    as (Hhttps & Hcompress & _).
  split; [exact Hhttps|exact Hcompress].
Defined.

Lemma resolvable_behaviors_have_rules_witness :
  let props := Fixture.caller None None in
  let g := built (Fixture.runtime None 0) props Fixture.split_manifest
             Fixture.function_origin in
  construct (Fixture.runtime None 0) props Fixture.split_manifest = Return g
  /\ is_Some (serverFunctions g !! "api")
  /\ is_Some (additionalBehaviors (distribution g) !! "api/*").
Proof.
  intros props g. split; [apply split_manifest_built|].
  assert (Hfn : is_Some (serverFunctions g !! "api"))
    by (eexists; vm_compute; reflexivity).
  split; [exact Hfn|].
  apply (resolvable_behaviors_have_rules (Fixture.runtime None 0) props
           Fixture.split_manifest g (Fixture.behavior "api/*" "api") "api").
  - apply split_manifest_built.
  - cbn [behaviors Fixture.split_manifest]. in_list.
  - reflexivity.
  - reflexivity.
  - intros Hp. discriminate Hp.
  - intros Hk. discriminate Hk.
  - right. right. exact Hfn.
Defined.

Lemma caller_behaviors_win_witness :
  let props :=
    Fixture.caller_with_rules {[ "api/*" := Fixture.caller_rule ]} in
  let g := built (Fixture.runtime None 0) props Fixture.split_manifest
             Fixture.function_origin in
  construct (Fixture.runtime None 0) props Fixture.split_manifest = Return g
  /\ additionalBehaviors (distribution g) !! "api/*"
     = Some Fixture.caller_rule.
Proof.
  intros props g. split; [apply split_manifest_built|].
  apply (caller_behaviors_win (Fixture.runtime None 0) props
           Fixture.split_manifest g (split_manifest_built props)
           {[ "api/*" := Fixture.caller_rule ]}).
  - reflexivity.
  - vm_compute. reflexivity.
  - intros Hp. discriminate Hp.
Defined.

Lemma last_behavior_wins_witness :
  let rt := Fixture.runtime None 0 in
  let props := Fixture.caller None None in
  let m := Fixture.shadowed_manifest in
  let b := Fixture.behavior "docs/*" "s3" in
  let g := built rt props m Fixture.function_origin in
  construct rt props m = Return g
  /\ exists g1,
       construct rt props (with_behaviors [b] m) = Return g1
       /\ is_Some (additionalBehaviors (distribution g1) !! "docs/*")
       /\ additionalBehaviors (distribution g) !! "docs/*"
          = additionalBehaviors (distribution g1) !! "docs/*".
Proof.
  intros rt props m b g.
  assert (Hg : construct rt props m = Return g)
    by (apply construct_built; vm_compute; reflexivity).
  split; [exact Hg|].
  destruct (last_behavior_wins rt props m g []
              [Fixture.behavior "docs/*" "missing";
               Fixture.behavior "*" "default"] b Hg eq_refl)
    as (g1 & Hg1 & Hsame).
  - intros b' g' Hin Hp. rewrite !elem_of_cons in Hin.
    destruct Hin as [->|[->|Hin]].
    + intros Hg'. vm_compute in Hg'. injection Hg' as <-.
      vm_compute. reflexivity.
    + discriminate Hp.
    + destruct (not_elem_of_nil _ Hin).
  - exists g1. split; [exact Hg1|].
    assert (Hsome : is_Some (additionalBehaviors (distribution g1)
                               !! pattern b)).
    { vm_compute in Hg1. injection Hg1 as <-. vm_compute. eauto. }
    split; [exact Hsome|exact (Hsame Hsome)].
Defined.

Lemma alarm_names_distinct_witness :
  let props := Fixture.caller None None in
  let g := built (Fixture.runtime None 0) props Fixture.split_manifest
             Fixture.function_origin in
  let alarms :=
    Alarms_new "opennext" (props_alarms Fixture.late)
      (revalidation_dlq (revalidation g)) (serverFunctions g)
      (revalidationFunction g) (distribution g) in
  (forall key, is_Some (serverFunctions g !! key) ->
     key <> "server" /\ key <> "revalidation")
  /\ NoDup (alarmName <$> alarms)
  /\ NoDup (alarm_id <$> alarms).
Proof.
  intros props g alarms.
  assert (Hkeys : forall key, is_Some (serverFunctions g !! key) ->
                    key <> "server" /\ key <> "revalidation").
  { intros key [->| ->%split_manifest_compute]%serverFunctions_key;
      split; intros Hk; discriminate Hk. }
  split; [exact Hkeys|].
  exact (alarm_names_distinct "opennext" (props_alarms Fixture.late)
           (revalidation_dlq (revalidation g)) (serverFunctions g)
           (revalidationFunction g) (distribution g) Hkeys).
Defined.

Lemma warmer_covers_server_functions_witness :
  let props := Fixture.caller None None in
  let g := built (Fixture.runtime None 0) props Fixture.split_manifest
             Fixture.function_origin in
  construct (Fixture.runtime None 0) props Fixture.split_manifest = Return g
  /\ exists w,
       warmer (construct_late (Fixture.runtime None 0) props Fixture.late
                 Fixture.split_manifest g) = Some w
       /\ exists fn, serverFunctions g !! "default" = Some fn
                     /\ fn ∈ warmer_grantInvoke w.
Proof.
  intros props g. split; [apply split_manifest_built|].
  destruct (warmer_covers_server_functions (Fixture.runtime None 0) props
              Fixture.late Fixture.split_manifest g
              (split_manifest_built props)) as (Hon & Hcovers).
  destruct (proj2 Hon eq_refl) as [w Hw].
  exists w. split; [exact Hw|].
  destruct (Hcovers w Hw) as (_ & Hdefault & _). exact Hdefault.
Defined.
